(** * sqlds: a key-value datastore over a relational backend

    A shallow embedding of the Go package [sqlds] (the datastore, its
    transactional batch, the statement composer and the PostgreSQL
    query provider), together with a small executable model of the
    backend it talks to through [database/sql].

    Layout:
    - Go values, errors and the fragment of [fmt.Sprintf] the package uses;
    - the [Queries] interface and its PostgreSQL implementation [queries];
    - the backend: one table, a server that parses and runs the SQL
      text it is handed, transactions, a script of faults and a trace
      of the calls received;
    - the collaborators from [go-datastore/query];
    - [batch] and [Datastore], method by method;
    - the properties. *)

From Stdlib Require Import ZArith List String Ascii Bool Lia Permutation DecimalString.
From Stdlib Require DecimalPos DecimalZ.
From stdpp Require Import base list strings.
Import ListNotations.
Local Open Scope Z_scope.

(** ** Go values *)

(** [[]byte]: [None] is the nil slice, [Some []] an empty, non-nil one. *)
Definition bytes : Type := list Byte.byte.
Definition GoBytes : Type := option bytes.

(** [ds.Key] wraps a string; [key.String()] projects it. *)
Record Key : Type := RawKey { Key_String : string }.

(** The error values that reach this package.  [ErrBackend] stands for
    every error the driver makes up itself (connection loss, constraint
    violation, malformed statement, ...). *)
Inductive error : Type :=
| ErrInvalidType              (* sqlds.ErrInvalidType *)
| ErrNotFound                 (* ds.ErrNotFound *)
| ErrNoRows                   (* sql.ErrNoRows *)
| ErrTxDone                   (* sql.ErrTxDone *)
| ErrBackend (msg : string).

(** The value carried by a panic. *)
Definition panic_value : Type := string.

(** [strings.HasPrefix]. *)
Module strings.
Fixpoint HasPrefix (s prefix : string) : bool :=
  match prefix, s with
  | EmptyString, _ => true
  | String a prefix', String b s' => (Ascii.eqb a b && HasPrefix s' prefix')%bool
  | String _ _, EmptyString => false
  end.
End strings.

(** ** fmt.Sprintf, one operand

    The providers only format with [%s], [%d] and the escape [%%], always
    with exactly one operand; [%v] is covered as well.  A verb that does
    not fit its operand, a verb without operand and an unused operand are
    rendered the way Go reports them.  Flags, widths and the remaining
    verbs are outside this fragment. *)
Module fmt.

Inductive operand : Type :=
| OfString (s : string)
| OfInt (n : Z).

Definition itoa (n : Z) : string := NilZero.string_of_int (Z.to_int n).

Definition bad_verb (c : ascii) (ty val : string) : string :=
  "%!" +:+ String c ("(" +:+ ty +:+ "=" +:+ val +:+ ")").

Definition verb (c : ascii) (a : operand) : string :=
  match a with
  | OfString s =>
      if (Ascii.eqb c "s" || Ascii.eqb c "v")%bool then s
      else bad_verb c "string" s
  | OfInt n =>
      if (Ascii.eqb c "d" || Ascii.eqb c "v")%bool then itoa n
      else bad_verb c "int" (itoa n)
  end.

Definition extra (a : option operand) : string :=
  match a with
  | None => EmptyString
  | Some (OfString s) => "%!(EXTRA string=" +:+ s +:+ ")"
  | Some (OfInt n) => "%!(EXTRA int=" +:+ itoa n +:+ ")"
  end.

(** [pending] is the operand not yet consumed by a verb. *)
Fixpoint format (f : string) (pending : option operand) : string :=
  match f with
  | EmptyString => extra pending
  | String "%" EmptyString => "%!(NOVERB)" +:+ extra pending
  | String "%" (String "%" rest) => String "%" (format rest pending)
  | String "%" (String c rest) =>
      match pending with
      | Some a => verb c a +:+ format rest None
      | None => "%!" +:+ String c ("(MISSING)" +:+ format rest None)
      end
  | String c rest => String c (format rest pending)
  end.

Definition Sprintf (f : string) (a : operand) : string := format f (Some a).

End fmt.

(** ** The query provider *)

(** [type Queries interface]: nine methods without arguments, each
    returning statement text. *)
Module Queries.
Record t : Type := Build {
  Delete : string;
  Exists : string;
  Get : string;
  Put : string;
  Query : string;
  Prefix : string;
  Limit : string;
  Offset : string;
  GetSize : string
}.
End Queries.

(** [type queries struct { tableName string }], the PostgreSQL dialect. *)
Module queries.

Record t : Type := Build { tableName : string }.

Definition Delete (q : t) : string :=
  "DELETE FROM " +:+ tableName q +:+ " WHERE key = $1".

Definition Exists (q : t) : string :=
  "SELECT exists(SELECT 1 FROM " +:+ tableName q +:+ " WHERE key=$1)".

Definition Get (q : t) : string :=
  "SELECT data FROM " +:+ tableName q +:+ " WHERE key = $1".

Definition Put (q : t) : string :=
  "INSERT INTO " +:+ tableName q
    +:+ " (key, data) SELECT $1, $2 WHERE NOT EXISTS ( SELECT key FROM "
    +:+ tableName q +:+ " WHERE key = $1)".

Definition Query (q : t) : string :=
  "SELECT key, data FROM " +:+ tableName q.

Definition Prefix (q : t) : string := " WHERE key LIKE '%s%%' ORDER BY key".

Definition Limit (q : t) : string := " LIMIT %d".

Definition Offset (q : t) : string := " OFFSET %d".

Definition GetSize (q : t) : string :=
  "SELECT octet_length(data) FROM " +:+ tableName q +:+ " WHERE key = $1".

(** [queries] seen through the interface. *)
Definition as_Queries (q : t) : Queries.t :=
  {| Queries.Delete := Delete q;
     Queries.Exists := Exists q;
     Queries.Get := Get q;
     Queries.Put := Put q;
     Queries.Query := Query q;
     Queries.Prefix := Prefix q;
     Queries.Limit := Limit q;
     Queries.Offset := Offset q;
     Queries.GetSize := GetSize q |}.

End queries.

Definition newQueries (tableName : string) : queries.t := queries.Build tableName.

(** ** Outcomes of a call, and the state monad the methods run in

    A Go call returns, panics, or ends the process ([log.Fatal]).  The
    state is threaded explicitly; its type is a parameter because the
    datastore's methods only touch the backend while a batch's methods
    also update the batch. *)
Inductive result (A : Type) : Type :=
| Val (a : A)
| Panicked (v : panic_value)
| Exited (code : Z).
Arguments Val {A} a.
Arguments Panicked {A} v.
Arguments Exited {A} code.

Definition M (S A : Type) : Type := S -> result A * S.

Definition ret {S A : Type} (a : A) : M S A := fun s => (Val a, s).

Definition bind {S A B : Type} (m : M S A) (k : A -> M S B) : M S B :=
  fun s =>
    match m s with
    | (Val a, s') => k a s'
    | (Panicked v, s') => (Panicked v, s')
    | (Exited c, s') => (Exited c, s')
    end.

Definition panic {S A : Type} (v : panic_value) : M S A := fun s => (Panicked v, s).

Definition exit {S A : Type} (code : Z) : M S A := fun s => (Exited code, s).

Notation "'let*' x := m 'in' k" := (bind m (fun x => k))
  (at level 10, x name, m at level 100, k at level 200).
Notation "'let*' ' p := m 'in' k" := (bind m (fun x => match x with p => k end))
  (at level 10, p pattern, m at level 100, k at level 200).

(** Sequencing for code that may fail with no answer. *)
Notation "'let?' x := m 'in' k" := (match m with Some x => k | None => None end)
  (at level 10, x pattern, m at level 100, k at level 200, only parsing).

(** ** The backend: database/sql over one PostgreSQL table *)
Module sql.

(** Statement parameters and result cells. *)
Inductive arg : Type :=
| Text (s : string)
| Blob (b : bytes).

Inductive cell : Type :=
| CText (s : string)
| CBlob (b : bytes)
| CInt (n : Z)
| CBool (b : bool).

Definition row : Type := list cell.

(** *** The table: rows in the order they are stored

    [CreatePostgres] creates it as
    [(key TEXT NOT NULL UNIQUE, data BYTEA NOT NULL)]. *)
Definition table : Type := list (string * bytes).

Fixpoint lookup (k : string) (t : table) : option bytes :=
  match t with
  | [] => None
  | (k', v) :: t' => if String.eqb k k' then Some v else lookup k t'
  end.

(** Two functions on tables, which the insert and the delete of the
    PostgreSQL provider are shown below to compute when the server
    runs them: the new table and the number of rows affected.

    Insert-if-absent. *)
Definition insert_if_absent (k : string) (v : bytes) (t : table) : table * Z :=
  match lookup k t with
  | Some _ => (t, 0)
  | None => (t ++ [(k, v)], 1)
  end.

(** Removal of the rows of a key. *)
Definition delete_key (k : string) (t : table) : table * Z :=
  (List.filter (fun r => negb (String.eqb k (fst r))) t,
   Z.of_nat (length (List.filter (fun r => String.eqb k (fst r)) t))).

(** [LIKE]: [%] matches any run of characters, [_] any one character,
    a backslash makes the next character literal.  A pattern ending in
    a lone backslash matches nothing. *)
Fixpoint like (p : string) : string -> bool :=
  match p with
  | EmptyString => fun s => match s with EmptyString => true | _ => false end
  | String "%" p' =>
      fix any (s : string) : bool :=
        (like p' s || match s with EmptyString => false | String _ s' => any s' end)%bool
  | String "_" p' =>
      fun s => match s with String _ s' => like p' s' | EmptyString => false end
  | String "\" EmptyString => fun _ => false
  | String "\" (String c p') =>
      fun s => match s with
               | String d s' => (Ascii.eqb c d && like p' s')%bool
               | EmptyString => false
               end
  | String c p' =>
      fun s => match s with
               | String d s' => (Ascii.eqb c d && like p' s')%bool
               | EmptyString => false
               end
  end.

(** [ORDER BY key], bytewise: the order of the C collation. *)
Fixpoint insert_by_key (r : string * bytes) (t : table) : table :=
  match t with
  | [] => [r]
  | r' :: t' =>
      if String.leb (fst r) (fst r') then r :: r' :: t'
      else r' :: insert_by_key r t'
  end.

Definition order_by_key (t : table) : table := fold_right insert_by_key [] t.

(** [ORDER BY data], bytewise. *)
Fixpoint insert_by_data (r : string * bytes) (t : table) : table :=
  match t with
  | [] => [r]
  | r' :: t' =>
      if String.leb (string_of_list_byte (snd r)) (string_of_list_byte (snd r'))
      then r :: r' :: t'
      else r' :: insert_by_data r t'
  end.

(** *** Statements

    The server reads the text it is handed as SQL.  It knows one
    table, created as
    [(key TEXT NOT NULL UNIQUE, data BYTEA NOT NULL)], and this
    fragment of the language over it:
    - [SELECT items [FROM t] [WHERE c] [ORDER BY col] [LIMIT n] [OFFSET n]];
    - [INSERT INTO t (cols) SELECT ...] and [INSERT INTO t (cols) VALUES (...)],
      each with an optional [ON CONFLICT (key) DO NOTHING] or
      [ON CONFLICT (key) DO UPDATE SET data = e];
    - [DELETE FROM t [WHERE c]];
    - statements separated by [;], and a [--] comment closing the text
      (a statement text is one line).

    Any other text is refused with an error.

    A condition compares two operands with [=], [<>] or [!=], matches
    an operand against a [LIKE] pattern, or is [[NOT] EXISTS (SELECT ...)].
    An operand is a column, a parameter [$n], a quoted text, an
    integer, [octet_length(col)] or [EXCLUDED.col].  Key words are read
    without regard to case. *)
Inductive column : Type := ColKey | ColData.

Inductive operand : Type :=
| OCol (c : column)
| OExcluded (c : column)
| OParam (n : nat)
| OText (s : string)
| OInt (n : Z)
| OLength (c : column).

Inductive relop : Type := OpEq | OpNe.

Inductive simple_cond : Type :=
| SCmp (op : relop) (a b : operand)
| SLike (a : operand) (pattern : string).

(** The select inside [EXISTS]: always over the table. *)
Record subselect : Type := MkSub {
  sub_items : list operand;
  sub_where : option simple_cond
}.

Inductive cond : Type :=
| CSimple (c : simple_cond)
| CExists (negated : bool) (q : subselect).

Inductive item : Type :=
| IOperand (o : operand)
| IExists (negated : bool) (q : subselect).

Record selection : Type := MkSelect {
  sel_items : list item;
  sel_from : bool;                 (* is there a FROM clause *)
  sel_where : option cond;
  sel_order : option column;
  sel_limit : option Z;
  sel_offset : option Z
}.

Inductive conflict : Type :=
| Abort
| DoNothing
| DoUpdate (data : operand).

Inductive source : Type :=
| Selected (q : selection)
| Values (vs : list operand).

Inductive statement : Type :=
| StSelect (q : selection)
| StInsert (cols : list column) (src : source) (c : conflict)
| StDelete (c : option cond).

(** **** Reading the text *)

Fixpoint strip (p s : string) : option string :=
  match p, s with
  | EmptyString, _ => Some s
  | String a p', String b s' => if Ascii.eqb a b then strip p' s' else None
  | String _ _, EmptyString => None
  end.

Fixpoint spaces (s : string) : string :=
  match s with
  | String " " s' => spaces s'
  | _ => s
  end.

(** Character classes, read off the bits of the code (lowest first). *)
Definition letter_code (b0 b1 b2 b3 b4 : bool) : bool :=
  ((b0 || b1 || b2 || b3 || b4) && negb (b4 && b3 && (b2 || (b1 && b0))))%bool.

Definition is_digit (c : ascii) : bool :=
  match c with
  | Ascii _ b1 b2 b3 true true false false => negb (b3 && (b2 || b1))
  | _ => false
  end.

Definition is_lower (c : ascii) : bool :=
  match c with
  | Ascii b0 b1 b2 b3 b4 true true false => letter_code b0 b1 b2 b3 b4
  | _ => false
  end.

Definition is_upper (c : ascii) : bool :=
  match c with
  | Ascii b0 b1 b2 b3 b4 false true false => letter_code b0 b1 b2 b3 b4
  | _ => false
  end.

Definition upper (c : ascii) : ascii :=
  match c with
  | Ascii b0 b1 b2 b3 b4 true true false =>
      if letter_code b0 b1 b2 b3 b4 then Ascii b0 b1 b2 b3 b4 false true false else c
  | _ => c
  end.

(** A character that continues a name. *)
Definition is_ident (c : ascii) : bool :=
  (is_lower c || is_upper c || is_digit c || Ascii.eqb c "_")%bool.

(** [word kw s]: [s] without the leading [kw], written in either case;
    [kw] is given in upper case. *)
Fixpoint word (kw s : string) : option string :=
  match kw, s with
  | EmptyString, _ => Some s
  | String a kw', String b s' => if Ascii.eqb a (upper b) then word kw' s' else None
  | String _ _, EmptyString => None
  end.

(** A key word: the word, not followed by a character that would make
    it a longer name. *)
Definition keyword (kw s : string) : option string :=
  match word kw s with
  | Some r =>
      match r with
      | String c _ => if is_ident c then None else Some r
      | EmptyString => Some r
      end
  | None => None
  end.

(** The text of a quoted literal after its opening quote, and what
    follows the closing quote; a doubled quote stands for one quote. *)
Fixpoint literal (s : string) : option (string * string) :=
  match s with
  | EmptyString => None
  | String c s' =>
      if Ascii.eqb c "'" then
        match s' with
        | String "'" s'' =>
            match literal s'' with
            | Some (a, r) => Some (String "'" a, r)
            | None => None
            end
        | _ => Some (EmptyString, s')
        end
      else match literal s' with
           | Some (a, r) => Some (String c a, r)
           | None => None
           end
  end.

Fixpoint span_digits (s : string) : string * string :=
  match s with
  | EmptyString => (EmptyString, EmptyString)
  | String c s' =>
      if is_digit c then let (d, r) := span_digits s' in (String c d, r)
      else (EmptyString, s)
  end.

Definition span_number (s : string) : string * string :=
  match s with
  | String "-" s' => let (d, r) := span_digits s' in (String "-" d, r)
  | _ => span_digits s
  end.

Definition atoi (s : string) : option Z :=
  option_map Z.of_int (NilZero.int_of_string s).

Definition parse_column (s : string) : option (column * string) :=
  match keyword "KEY" s with
  | Some r => Some (ColKey, r)
  | None =>
      match keyword "DATA" s with
      | Some r => Some (ColData, r)
      | None => None
      end
  end.

Definition parse_number (s : string) : option (Z * string) :=
  let (d, r) := span_number s in
  let? n := atoi d in Some (n, r).

Definition parse_operand (s0 : string) : option (operand * string) :=
  let s := spaces s0 in
  match s with
  | String "$" r =>
      let (d, r') := span_digits r in
      let? n := atoi d in
      if 0 <? n then Some (OParam (Z.to_nat n), r') else None
  | String "'" r =>
      let? (t, r') := literal r in Some (OText t, r')
  | _ =>
      match keyword "OCTET_LENGTH" s with
      | Some r =>
          let? r := strip "(" (spaces r) in
          let? (c, r) := parse_column (spaces r) in
          let? r := strip ")" (spaces r) in
          Some (OLength c, r)
      | None =>
      match keyword "EXCLUDED" s with
      | Some r =>
          let? r := strip "." r in
          let? (c, r) := parse_column r in
          Some (OExcluded c, r)
      | None =>
      match parse_column s with
      | Some (c, r) => Some (OCol c, r)
      | None => let? (n, r) := parse_number s in Some (OInt n, r)
      end
      end
      end
  end.

(** A list [x, x, ...] of at most [fuel] elements. *)
Fixpoint parse_list {A : Type} (elem : string -> option (A * string))
    (fuel : nat) (s : string) : option (list A * string) :=
  match fuel with
  | O => None
  | S n =>
      let? (a, r) := elem s in
      match strip "," (spaces r) with
      | Some r' => let? (l, r'') := parse_list elem n r' in Some (a :: l, r'')
      | None => Some ([a], r)
      end
  end.

(** The longest list the server reads, and the most statements in one
    text. *)
Definition width : nat := 16.

Definition parse_simple_cond (s : string) : option (simple_cond * string) :=
  let? (a, r0) := parse_operand s in
  let r := spaces r0 in
  match strip "<>" r with
  | Some r' => let? (b, r'') := parse_operand r' in Some (SCmp OpNe a b, r'')
  | None =>
  match strip "!=" r with
  | Some r' => let? (b, r'') := parse_operand r' in Some (SCmp OpNe a b, r'')
  | None =>
  match strip "=" r with
  | Some r' => let? (b, r'') := parse_operand r' in Some (SCmp OpEq a b, r'')
  | None =>
      let? r' := keyword "LIKE" r in
      let? r'' := strip "'" (spaces r') in
      let? (p, r3) := literal r'' in
      Some (SLike a p, r3)
  end
  end
  end.

(** [FROM t]: the name is the table's, after one space. *)
Definition parse_from (tbl s : string) : option string :=
  let? r := keyword "FROM" (spaces s) in
  let? r := strip " " r in
  strip tbl r.

Definition parse_subselect (tbl s : string) : option (subselect * string) :=
  let? r := keyword "SELECT" (spaces s) in
  let? (items, r) := parse_list parse_operand width r in
  let? r := parse_from tbl r in
  match keyword "WHERE" (spaces r) with
  | Some r' => let? (c, r'') := parse_simple_cond r' in Some (MkSub items (Some c), r'')
  | None => Some (MkSub items None, r)
  end.

(** [[NOT] EXISTS ( SELECT ... )]. *)
Definition parse_exists (tbl s0 : string) : option (bool * subselect * string) :=
  let s := spaces s0 in
  let (negated, r) :=
    match keyword "NOT" s with
    | Some r => (true, r)
    | None => (false, s)
    end in
  let? r := keyword "EXISTS" (spaces r) in
  let? r := strip "(" (spaces r) in
  let? (q, r) := parse_subselect tbl r in
  let? r := strip ")" (spaces r) in
  Some (negated, q, r).

Definition parse_cond (tbl s : string) : option (cond * string) :=
  match parse_exists tbl s with
  | Some (n, q, r) => Some (CExists n q, r)
  | None => let? (c, r) := parse_simple_cond s in Some (CSimple c, r)
  end.

Definition parse_item (tbl s : string) : option (item * string) :=
  match parse_exists tbl s with
  | Some (n, q, r) => Some (IExists n q, r)
  | None => let? (o, r) := parse_operand s in Some (IOperand o, r)
  end.

Definition parse_where (tbl s : string) : option (option cond * string) :=
  match keyword "WHERE" (spaces s) with
  | Some r => let? (c, r') := parse_cond tbl r in Some (Some c, r')
  | None => Some (None, s)
  end.

Definition parse_order (s : string) : option (option column * string) :=
  match keyword "ORDER" (spaces s) with
  | Some r =>
      let? r := keyword "BY" (spaces r) in
      let? (c, r) := parse_column (spaces r) in
      Some (Some c, r)
  | None => Some (None, s)
  end.

(** An optional clause [kw n]. *)
Definition parse_count (kw s : string) : option (option Z * string) :=
  match keyword kw (spaces s) with
  | Some r => let? (n, r') := parse_number (spaces r) in Some (Some n, r')
  | None => Some (None, s)
  end.

(** The clauses of a select after its item list and [FROM]. *)
Definition parse_clauses (tbl : string) (items : list item) (from : bool)
    (s : string) : option (selection * string) :=
  let? (w, r) := parse_where tbl s in
  let? (o, r) := parse_order r in
  let? (l, r) := parse_count "LIMIT" r in
  let? (f, r) := parse_count "OFFSET" r in
  Some (MkSelect items from w o l f, r).

(** A select after the key word [SELECT]. *)
Definition parse_selection (tbl s : string) : option (selection * string) :=
  let? (items, r) := parse_list (parse_item tbl) width s in
  match keyword "FROM" (spaces r) with
  | Some r' =>
      let? r' := strip " " r' in
      let? r' := strip tbl r' in
      parse_clauses tbl items true r'
  | None => parse_clauses tbl items false r
  end.

Definition parse_conflict (s : string) : option (conflict * string) :=
  match keyword "ON" (spaces s) with
  | Some r =>
      let? r := keyword "CONFLICT" (spaces r) in
      let? r := strip "(" (spaces r) in
      let? r := keyword "KEY" (spaces r) in
      let? r := strip ")" (spaces r) in
      let? r := keyword "DO" (spaces r) in
      match keyword "NOTHING" (spaces r) with
      | Some r' => Some (DoNothing, r')
      | None =>
          let? r := keyword "UPDATE" (spaces r) in
          let? r := keyword "SET" (spaces r) in
          let? r := keyword "DATA" (spaces r) in
          let? r := strip "=" (spaces r) in
          let? (e, r) := parse_operand r in
          Some (DoUpdate e, r)
      end
  | None => Some (Abort, s)
  end.

Definition parse_source (tbl s : string) : option (source * string) :=
  match keyword "SELECT" (spaces s) with
  | Some r => let? (q, r') := parse_selection tbl r in Some (Selected q, r')
  | None =>
      let? r := keyword "VALUES" (spaces s) in
      let? r := strip "(" (spaces r) in
      let? (vs, r) := parse_list parse_operand width r in
      let? r := strip ")" (spaces r) in
      Some (Values vs, r)
  end.

(** An insert after the key word [INSERT]. *)
Definition parse_insert (tbl s : string) : option (statement * string) :=
  let? r := keyword "INTO" (spaces s) in
  let? r := strip " " r in
  let? r := strip tbl r in
  let? r := strip "(" (spaces r) in
  let? (cols, r) := parse_list (fun s => parse_column (spaces s)) width r in
  let? r := strip ")" (spaces r) in
  let? (src, r) := parse_source tbl r in
  let? (c, r) := parse_conflict r in
  Some (StInsert cols src c, r).

(** A delete after the key word [DELETE]. *)
Definition parse_delete (tbl s : string) : option (statement * string) :=
  let? r := parse_from tbl s in
  let? (c, r) := parse_where tbl r in
  Some (StDelete c, r).

Definition parse_statement (tbl s0 : string) : option (statement * string) :=
  let s := spaces s0 in
  match keyword "SELECT" s with
  | Some r => let? (q, r') := parse_selection tbl r in Some (StSelect q, r')
  | None =>
  match keyword "INSERT" s with
  | Some r => parse_insert tbl r
  | None => let? r := keyword "DELETE" s in parse_delete tbl r
  end
  end.

(** Nothing but blanks, or a comment, is left. *)
Definition at_end (s : string) : bool :=
  match spaces s with
  | EmptyString => true
  | String "-" (String "-" _) => true
  | _ => false
  end.

(** The statements of a text, at most [fuel] of them. *)
Fixpoint parse_script (tbl : string) (fuel : nat) (s : string)
    : option (list statement) :=
  match fuel with
  | O => None
  | S n =>
      let? (st, r) := parse_statement tbl s in
      if at_end r then Some [st]
      else
        let? r' := strip ";" (spaces r) in
        if at_end r' then Some [st]
        else let? l := parse_script tbl n r' in Some (st :: l)
  end.

Definition parse (tbl stmt : string) : option (list statement) :=
  parse_script tbl width stmt.

(** **** What the statements mean *)

Definition arg_cell (a : arg) : cell :=
  match a with
  | Text s => CText s
  | Blob b => CBlob b
  end.

Definition column_cell (c : column) (r : string * bytes) : cell :=
  match c with
  | ColKey => CText (fst r)
  | ColData => CBlob (snd r)
  end.

Definition octets (c : cell) : option Z :=
  match c with
  | CText s => Some (Z.of_nat (String.length s))
  | CBlob b => Some (Z.of_nat (length b))
  | _ => None
  end.

(** An operand, given the parameters, the row at hand and the row
    proposed for insertion, where there is one. *)
Definition eval_operand (args : list arg) (cur exc : option (string * bytes))
    (o : operand) : option cell :=
  match o with
  | OCol c => option_map (column_cell c) cur
  | OExcluded c => option_map (column_cell c) exc
  | OParam n =>
      match n with
      | O => None
      | S i => option_map arg_cell (nth_error args i)
      end
  | OText s => Some (CText s)
  | OInt n => Some (CInt n)
  | OLength c =>
      match cur with
      | Some r => option_map CInt (octets (column_cell c r))
      | None => None
      end
  end.

(** Equality of two values of one type; values of different types do
    not compare. *)
Definition cell_eqb (a b : cell) : option bool :=
  match a, b with
  | CText x, CText y => Some (String.eqb x y)
  | CBlob x, CBlob y =>
      Some (String.eqb (string_of_list_byte x) (string_of_list_byte y))
  | CInt x, CInt y => Some (x =? y)
  | CBool x, CBool y => Some (Bool.eqb x y)
  | _, _ => None
  end.

Definition eval_simple (args : list arg) (cur : option (string * bytes))
    (c : simple_cond) : option bool :=
  match c with
  | SCmp op a b =>
      let? x := eval_operand args cur None a in
      let? y := eval_operand args cur None b in
      let? e := cell_eqb x y in
      Some (match op with OpEq => e | OpNe => negb e end)
  | SLike a p =>
      match eval_operand args cur None a with
      | Some (CText s) => Some (like p s)
      | _ => None
      end
  end.

(** The elements a condition holds of; no answer when the condition
    has none for some element. *)
Fixpoint keep {A : Type} (f : A -> option bool) (l : list A) : option (list A) :=
  match l with
  | [] => Some []
  | a :: l' =>
      let? b := f a in
      let? r := keep f l' in
      Some (if b then a :: r else r)
  end.

Fixpoint traverse {A B : Type} (f : A -> option B) (l : list A) : option (list B) :=
  match l with
  | [] => Some []
  | a :: l' =>
      let? b := f a in
      let? r := traverse f l' in
      Some (b :: r)
  end.

Definition eval_subselect (args : list arg) (q : subselect) (t : table)
    : option (list row) :=
  let? kept :=
    match sub_where q with
    | Some c => keep (fun r => eval_simple args (Some r) c) t
    | None => Some t
    end in
  traverse (fun r => traverse (eval_operand args (Some r) None) (sub_items q)) kept.

Definition eval_exists (args : list arg) (negated : bool) (q : subselect)
    (t : table) : option bool :=
  let? rs := eval_subselect args q t in
  Some (xorb negated (match rs with [] => false | _ :: _ => true end)).

Definition eval_cond (args : list arg) (cur : option (string * bytes))
    (t : table) (c : cond) : option bool :=
  match c with
  | CSimple c => eval_simple args cur c
  | CExists n q => eval_exists args n q t
  end.

Definition eval_item (args : list arg) (cur : option (string * bytes))
    (t : table) (i : item) : option cell :=
  match i with
  | IOperand o => eval_operand args cur None o
  | IExists n q => option_map CBool (eval_exists args n q t)
  end.

Definition order_by (c : column) (t : table) : table :=
  match c with
  | ColKey => order_by_key t
  | ColData => fold_right insert_by_data [] t
  end.

(** [OFFSET] rows are skipped before [LIMIT] rows are kept; a negative
    [LIMIT] or [OFFSET] is an error. *)
Definition slice {A : Type} (limit offset : option Z) (l : list A)
    : option (list A) :=
  match offset with
  | Some o =>
      if o <? 0 then None
      else
        let skipped := skipn (Z.to_nat o) l in
        match limit with
        | Some n => if n <? 0 then None else Some (firstn (Z.to_nat n) skipped)
        | None => Some skipped
        end
  | None =>
      match limit with
      | Some n => if n <? 0 then None else Some (firstn (Z.to_nat n) l)
      | None => Some l
      end
  end.

(** The rows a select yields.  With [FROM] the rows of the table are
    filtered, ordered, cut and projected; without it there is the one
    row of the item list, if the condition holds. *)
Definition eval_selection (args : list arg) (q : selection) (t : table)
    : option (list row) :=
  let holds cur :=
    match sel_where q with
    | Some c => eval_cond args cur t c
    | None => Some true
    end in
  let project cur := traverse (eval_item args cur t) (sel_items q) in
  if sel_from q then
    let? kept := keep (fun r => holds (Some r)) t in
    let sorted :=
      match sel_order q with
      | Some c => order_by c kept
      | None => kept
      end in
    let? cut := slice (sel_limit q) (sel_offset q) sorted in
    traverse (fun r => project (Some r)) cut
  else
    match sel_order q with
    | Some _ => None
    | None =>
        let? b := holds None in
        let? cut := slice (sel_limit q) (sel_offset q) (if b then [tt] else []) in
        traverse (fun _ => project None) cut
    end.

(** The row an insert proposes: both columns are [NOT NULL], [key] is
    text and [data] is bytes. *)
Definition new_row (cols : list column) (cells : row) : option (string * bytes) :=
  match cols, cells with
  | [ColKey; ColData], [CText k; CBlob v] => Some (k, v)
  | [ColData; ColKey], [CBlob v; CText k] => Some (k, v)
  | _, _ => None
  end.

Fixpoint replace (k : string) (v : bytes) (t : table) : table :=
  match t with
  | [] => []
  | (k', v') :: t' =>
      if String.eqb k k' then (k', v) :: t' else (k', v') :: replace k v t'
  end.

(** One proposed row: [key] is [UNIQUE], so a row whose key is there
    already is a conflict, settled as the statement says. *)
Definition insert_row (args : list arg) (c : conflict) (r : string * bytes)
    (t : table) : option (table * Z) :=
  match lookup (fst r) t with
  | None => Some (t ++ [r], 1)
  | Some old =>
      match c with
      | Abort => None
      | DoNothing => Some (t, 0)
      | DoUpdate e =>
          match eval_operand args (Some (fst r, old)) (Some r) e with
          | Some (CBlob v) => Some (replace (fst r) v t, 1)
          | _ => None
          end
      end
  end.

Fixpoint insert_rows (args : list arg) (c : conflict) (rs : list (string * bytes))
    (t : table) : option (table * Z) :=
  match rs with
  | [] => Some (t, 0)
  | r :: rs' =>
      let? (t', n) := insert_row args c r t in
      let? (t'', m) := insert_rows args c rs' t' in
      Some (t'', n + m)
  end.

Definition eval_source (args : list arg) (src : source) (t : table)
    : option (list row) :=
  match src with
  | Selected q => eval_selection args q t
  | Values vs =>
      let? r := traverse (eval_operand args None None) vs in Some [r]
  end.

(** A statement on a table: the new table, the rows returned and the
    number of rows affected. *)
Definition exec (args : list arg) (st : statement) (t : table)
    : option (table * list row * Z) :=
  match st with
  | StSelect q =>
      let? rs := eval_selection args q t in
      Some (t, rs, Z.of_nat (length rs))
  | StInsert cols src c =>
      let? proposed := eval_source args src t in
      let? rs := traverse (new_row cols) proposed in
      let? (t', n) := insert_rows args c rs t in
      Some (t', [], n)
  | StDelete c =>
      let holds r :=
        match c with
        | Some c => eval_cond args (Some r) t c
        | None => Some true
        end in
      let? gone := keep holds t in
      let? stay := keep (fun r => option_map negb (holds r)) t in
      Some (stay, [], Z.of_nat (length gone))
  end.

(** Several statements in turn: the rows are those of the first, the
    count that of the last. *)
Fixpoint exec_all (sts : list statement) (t : table)
    : option (table * list row * Z) :=
  match sts with
  | [] => Some (t, [], 0)
  | [st] => exec [] st t
  | st :: sts' =>
      let? (t', rs, _) := exec [] st t in
      let? (t'', _, n) := exec_all sts' t' in
      Some (t'', rs, n)
  end.

(** A text with its parameters.  With parameters the text is one
    statement; without, it may be several. *)
Definition run (tbl stmt : string) (args : list arg) (t : table)
    : option (table * list row * Z) :=
  let? sts := parse tbl stmt in
  match sts, args with
  | [st], _ => exec args st t
  | _, [] => exec_all sts t
  | _, _ :: _ => None
  end.

(** What [Exec], [QueryRow] and [Query] keep of it. *)
Definition run_write (tbl stmt : string) (args : list arg) (t : table)
    : option (table * Z) :=
  let? (t', _, n) := run tbl stmt args t in Some (t', n).

Definition run_read (tbl stmt : string) (args : list arg) (t : table)
    : option (table * option row) :=
  let? (t', rs, _) := run tbl stmt args t in Some (t', head rs).

Definition run_select (tbl stmt : string) (t : table)
    : option (table * list row) :=
  let? (t', rs, _) := run tbl stmt [] t in Some (t', rs).

(** *** The server and the connection pool

    [faults] scripts the server round trips still to come: the head
    decides the next one, and an exhausted script means the server
    answers.  [trace] lists the calls received so far, oldest first. *)
Inductive outcome : Type :=
| Proceed
| Fail (msg : string)
| Crash (v : panic_value).

Inductive call : Type :=
| CallExec (stmt : string) (args : list arg)
| CallQueryRow (stmt : string) (args : list arg)
| CallQuery (stmt : string)
| CallBegin
| CallTxExec (tx : nat) (stmt : string) (args : list arg)
| CallTxCommit (tx : nat)
| CallTxRollback (tx : nat).

(** The two writes the datastore asks for, as functions on the table. *)
Inductive write : Type :=
| WPut (k : string) (v : bytes)
| WDelete (k : string).

Definition apply_write (w : write) (t : table) : table :=
  match w with
  | WPut k v => fst (insert_if_absent k v t)
  | WDelete k => fst (delete_key k t)
  end.

Definition apply_writes (ws : list write) (t : table) : table :=
  fold_left (fun t w => apply_write w t) ws t.

(** A statement executed in a transaction, with its parameters: it is
    run again over the table when the transaction commits. *)
Definition pending : Type := (string * list arg)%type.

Definition replay (tbl : string) (p : pending) (t : table) : table :=
  match run_write tbl (fst p) (snd p) t with
  | Some (t', _) => t'
  | None => t
  end.

Definition replay_all (tbl : string) (ps : list pending) (t : table) : table :=
  fold_left (fun t p => replay tbl p t) ps t.

(** [sql.Tx]: once committed or rolled back it is done for good. *)
Record Tx : Type := MkTx { tx_done : bool; tx_writes : list pending }.

(** [*sql.DB]: the handle to the pool; the pool's state is the [World]
    below. *)
Inductive DB : Type := Pool.

Record World : Type := MkWorld {
  tbl_name : string;
  rows : table;
  txs : list Tx;          (* a *sql.Tx is an index into this list *)
  faults : list outcome;
  trace : list call
}.

Definition received (c : call) (w : World) : World :=
  MkWorld (tbl_name w) (rows w) (txs w) (faults w) (trace w ++ [c]).

Definition next_outcome (w : World) : outcome * World :=
  match faults w with
  | [] => (Proceed, w)
  | o :: rest => (o, MkWorld (tbl_name w) (rows w) (txs w) rest (trace w))
  end.

Definition with_rows (t : table) (w : World) : World :=
  MkWorld (tbl_name w) t (txs w) (faults w) (trace w).

Definition with_txs (l : list Tx) (w : World) : World :=
  MkWorld (tbl_name w) (rows w) l (faults w) (trace w).

Definition rejected : error := ErrBackend "statement rejected".

(** [sql.Result.RowsAffected]; the PostgreSQL driver always knows it. *)
Definition RowsAffected (n : Z) : Z * option error := (n, None).

(** [sql.DB.Exec]: the server runs the text; rows affected and error. *)
Definition DB_Exec (stmt : string) (args : list arg) : M World (Z * option error) :=
  fun w0 =>
    match next_outcome (received (CallExec stmt args) w0) with
    | (Crash v, w) => (Panicked v, w)
    | (Fail msg, w) => (Val (0, Some (ErrBackend msg)), w)
    | (Proceed, w) =>
        match run_write (tbl_name w) stmt args (rows w) with
        | Some (t, n) => (Val (n, None), with_rows t w)
        | None => (Val (0, Some rejected), w)
        end
    end.

(** [*sql.Row]: the error of the query, or its first row if any. *)
Inductive Row : Type :=
| RowErr (e : error)
| RowOf (r : option row).

(** [sql.DB.QueryRow]: the server runs the text, whatever it is. *)
Definition DB_QueryRow (stmt : string) (args : list arg) : M World Row :=
  fun w0 =>
    match next_outcome (received (CallQueryRow stmt args) w0) with
    | (Crash v, w) => (Panicked v, w)
    | (Fail msg, w) => (Val (RowErr (ErrBackend msg)), w)
    | (Proceed, w) =>
        match run_read (tbl_name w) stmt args (rows w) with
        | Some (t, r) => (Val (RowOf r), with_rows t w)
        | None => (Val (RowErr rejected), w)
        end
    end.

(** [sql.Row.Scan] into one destination: [conv] converts the cell to
    the destination's type, [zero] is what the destination holds when
    nothing is stored into it. *)
Definition Scan {A : Type} (conv : cell -> option A) (zero : A) (r : Row)
    : A * option error :=
  match r with
  | RowErr e => (zero, Some e)
  | RowOf None => (zero, Some ErrNoRows)
  | RowOf (Some [c]) =>
      match conv c with
      | Some a => (a, None)
      | None => (zero, Some (ErrBackend "sql: Scan error"))
      end
  | RowOf (Some _) => (zero, Some (ErrBackend "sql: expected 1 destination arguments in Scan"))
  end.

Definition to_bytes (c : cell) : option GoBytes :=
  match c with
  | CBlob b => Some (Some b)
  | CText s => Some (Some (list_byte_of_string s))
  | _ => None
  end.

Definition to_int (c : cell) : option Z :=
  match c with CInt n => Some n | _ => None end.

Definition to_bool (c : cell) : option bool :=
  match c with CBool b => Some b | _ => None end.

Definition to_string (c : cell) : option string :=
  match c with
  | CText s => Some s
  | CBlob b => Some (string_of_list_byte b)
  | _ => None
  end.

(** [sql.DB.Query]: the server runs the text, whatever it is; the rows
    of the cursor, and the error. *)
Definition DB_Query (stmt : string) : M World (list row * option error) :=
  fun w0 =>
    match next_outcome (received (CallQuery stmt) w0) with
    | (Crash v, w) => (Panicked v, w)
    | (Fail msg, w) => (Val ([], Some (ErrBackend msg)), w)
    | (Proceed, w) =>
        match run_select (tbl_name w) stmt (rows w) with
        | Some (t, rs) => (Val (rs, None), with_rows t w)
        | None => (Val ([], Some rejected), w)
        end
    end.

(** [sql.DB.Begin]: a fresh transaction, or nil and the error. *)
Definition DB_Begin : M World (option nat * option error) :=
  fun w0 =>
    match next_outcome (received CallBegin w0) with
    | (Crash v, w) => (Panicked v, w)
    | (Fail msg, w) => (Val (None, Some (ErrBackend msg)), w)
    | (Proceed, w) =>
        (Val (Some (length (txs w)), None), with_txs (txs w ++ [MkTx false []]) w)
    end.

Definition is_open (tx : nat) (w : World) : bool :=
  match txs w !! tx with
  | Some t => negb (tx_done t)
  | None => false
  end.

Definition finish (tx : nat) (w : World) : World :=
  match txs w !! tx with
  | Some t => with_txs (<[tx := MkTx true (tx_writes t)]> (txs w)) w
  | None => w
  end.

(** What the transaction sees: the table with its own statements run. *)
Definition view (tx : nat) (w : World) : table :=
  match txs w !! tx with
  | Some t => replay_all (tbl_name w) (tx_writes t) (rows w)
  | None => rows w
  end.

Definition add_write (tx : nat) (x : pending) (w : World) : World :=
  match txs w !! tx with
  | Some t => with_txs (<[tx := MkTx (tx_done t) (tx_writes t ++ [x])]> (txs w)) w
  | None => w
  end.

(** [sql.Tx.Exec].  A done transaction answers [ErrTxDone] without
    a round trip. *)
Definition Tx_Exec (tx : nat) (stmt : string) (args : list arg)
    : M World (Z * option error) :=
  fun w0 =>
    let w1 := received (CallTxExec tx stmt args) w0 in
    if is_open tx w1 then
      match next_outcome w1 with
      | (Crash v, w) => (Panicked v, w)
      | (Fail msg, w) => (Val (0, Some (ErrBackend msg)), w)
      | (Proceed, w) =>
          match run_write (tbl_name w) stmt args (view tx w) with
          | Some (_, n) => (Val (n, None), add_write tx (stmt, args) w)
          | None => (Val (0, Some rejected), w)
          end
      end
    else (Val (0, Some ErrTxDone), w1).

(** [sql.Tx.Commit]: the transaction is marked done before the driver
    is called, so it is done whatever the server answers and also when
    the driver panics; its writes reach the table only when the server
    accepts. *)
Definition Tx_Commit (tx : nat) : M World (option error) :=
  fun w0 =>
    let w1 := received (CallTxCommit tx) w0 in
    if is_open tx w1 then
      match next_outcome w1 with
      | (Crash v, w) => (Panicked v, finish tx w)
      | (Fail msg, w) => (Val (Some (ErrBackend msg)), finish tx w)
      | (Proceed, w) => (Val None, finish tx (with_rows (view tx w) w))
      end
    else (Val (Some ErrTxDone), w1).

(** [sql.Tx.Rollback]: the transaction is marked done before the driver
    is called; the writes are dropped. *)
Definition Tx_Rollback (tx : nat) : M World (option error) :=
  fun w0 =>
    let w1 := received (CallTxRollback tx) w0 in
    if is_open tx w1 then
      match next_outcome w1 with
      | (Crash v, w) => (Panicked v, finish tx w)
      | (Fail msg, w) => (Val (Some (ErrBackend msg)), finish tx w)
      | (Proceed, w) => (Val None, finish tx w)
      end
    else (Val (Some ErrTxDone), w1).

End sql.

Arguments sql.parse_script : simpl never.
Arguments sql.DB_Exec : simpl never.
Arguments sql.DB_QueryRow : simpl never.
Arguments sql.DB_Query : simpl never.
Arguments sql.DB_Begin : simpl never.
Arguments sql.Tx_Exec : simpl never.
Arguments sql.Tx_Commit : simpl never.
Arguments sql.Tx_Rollback : simpl never.

(** ** Collaborators from go-datastore/query

    Results are lazy channels in the library; here a result sequence is
    the list of its entries, in the order a consumer drains them. *)
Module dsq.

Record Entry : Type := MkEntry { Key : string; Value : GoBytes }.

(** [Filter.Filter(e Entry) bool] and [Order.Compare(a, b Entry) int]. *)
Definition Filter : Type := Entry -> bool.
Definition Order : Type := Entry -> Entry -> comparison.

Record Query : Type := MkQuery {
  Prefix : string;
  Filters : list Filter;
  Orders : list Order;
  Limit : Z;
  Offset : Z
}.

(** A result sequence remembers the query it answers. *)
Record Results : Type := MkResults { Results_Query : Query; Rest : list Entry }.

(** The library's [ResultsWithEntries] sends the entries as they are:
    nothing of [q] is applied to them. *)
Definition ResultsWithEntries (q : Query) (res : list Entry) : Results :=
  MkResults q res.

(** Modelled from the spec: the library's [NaiveFilter], which keeps the
    entries the filter accepts, in fetch order. *)
Definition NaiveFilter (qr : Results) (f : Filter) : Results :=
  MkResults (Results_Query qr) (List.filter f (Rest qr)).

(** [Less]: the first order that tells the entries apart decides; the
    key breaks ties. *)
Fixpoint Less (orders : list Order) (a b : Entry) : bool :=
  match orders with
  | [] => negb (String.leb (Key b) (Key a))
  | cmp :: rest =>
      match cmp a b with
      | Eq => Less rest a b
      | Lt => true
      | Gt => false
      end
  end.

Fixpoint insert_by (orders : list Order) (e : Entry) (l : list Entry) : list Entry :=
  match l with
  | [] => [e]
  | x :: l' => if Less orders x e then x :: insert_by orders e l' else e :: x :: l'
  end.

(** Modelled from the spec: the library's [NaiveOrder], a full in-memory
    sort by the order list, stable for ties; without orders the
    sequence is returned as it is. *)
Definition NaiveOrder (qr : Results) (orders : list Order) : Results :=
  match orders with
  | [] => qr
  | _ => MkResults (Results_Query qr) (fold_right (insert_by orders) [] (Rest qr))
  end.

(** [FilterKeyPrefix{Prefix}]: [strings.HasPrefix(e.Key, Prefix)]. *)
Definition FilterKeyPrefix (p : string) : Filter :=
  fun e => strings.HasPrefix (Key e) p.

End dsq.

(** ** Deferred calls and recover *)

(** [recover()]: its value is nil unless the goroutine is panicking and
    [recover] was called directly by a deferred function.  [direct] tells
    whether the function that calls [recover] is itself the deferred one;
    the result pairs the recovered value with the panic still in flight. *)
Definition recover (direct : bool) (panicking : option panic_value)
    : option panic_value * option panic_value :=
  if direct then (panicking, None) else (None, panicking).

(** [defer d] in a function with one named result: [d] runs when [body]
    returns or panics, and is told the panic in flight and the value of
    the named result ([zero] when the body panicked before any non-zero
    assignment to it).  [d] answers with the panic still in flight. *)
Definition defer {S A : Type} (zero : A)
    (d : option panic_value -> A -> M S (option panic_value)) (body : M S A) : M S A :=
  fun s =>
    match body s with
    | (Val a, s1) =>
        match d None a s1 with
        | (Val None, s2) => (Val a, s2)
        | (Val (Some v), s2) => (Panicked v, s2)
        | (Panicked v, s2) => (Panicked v, s2)
        | (Exited c, s2) => (Exited c, s2)
        end
    | (Panicked v, s1) =>
        match d (Some v) zero s1 with
        | (Val None, s2) => (Val zero, s2)
        | (Val (Some v'), s2) => (Panicked v', s2)
        | (Panicked v', s2) => (Panicked v', s2)
        | (Exited c, s2) => (Exited c, s2)
        end
    | (Exited c, s1) => (Exited c, s1)
    end.

(** ** type batch *)
Module batch.

Record t : Type := Build {
  db : sql.DB;
  queries : Queries.t;
  txn : option nat        (* *sql.Tx; None is nil *)
}.

(** The methods have a pointer receiver: they run on the batch and the
    backend together. *)
Definition S : Type := (t * sql.World)%type.

Definition self : M S t := fun s => (Val (fst s), s).

Definition set_txn (x : option nat) : M S unit :=
  fun s => (Val tt, (Build (db (fst s)) (queries (fst s)) x, snd s)).

Definition lift {A : Type} (m : M sql.World A) : M S A :=
  fun s => let (r, w) := m (snd s) in (r, (fst s, w)).

(** A method call through a [*sql.Tx] that may be nil. *)
Definition on_tx {A : Type} (x : option nat) (m : nat -> M sql.World A) : M S A :=
  match x with
  | Some tx => lift (m tx)
  | None => panic "invalid memory address or nil pointer dereference"
  end.

Definition GetTransaction : M S (option nat * option error) :=
  let* b := self in
  match txn b with
  | Some tx => ret (Some tx, None)
  | None =>
      let* '(newTransaction, err) := lift sql.DB_Begin in
      match err with
      | Some e =>
          let* _ := match newTransaction with
                    | Some tx => lift (sql.Tx_Rollback tx)
                    | None => ret None
                    end in
          ret (None, Some e)
      | None =>
          let* _ := set_txn newTransaction in
          ret (newTransaction, None)
      end
  end.

(** [rollbackTxn] runs in the frame given by [direct]: [true] when it
    is itself the deferred function, [false] when a deferred function
    calls it. *)
Definition rollbackTxn (direct : bool) (panicking : option panic_value)
    (err : option error) : M S (option panic_value) :=
  let* b := self in
  match txn b with
  | None => ret panicking
  | Some tx =>
      let* _ := match err with
                | Some _ => lift (sql.Tx_Rollback tx)
                | None => ret None
                end in
      match recover direct panicking with
      | (Some r, _) =>
          let* _ := lift (sql.Tx_Rollback tx) in
          (* Re-panic so that callers can potentially handle it. *)
          panic r
      | (None, still) => ret still
      end
  end.

(** [defer func() { b.rollbackTxn(err) }()]: the deferred function is
    the closure, and [rollbackTxn] is called by it.  In [Put] and in
    [Delete] the named result [err] is nil at every call that can
    panic. *)
Definition deferred_rollback (body : M S (option error)) : M S (option error) :=
  defer None (fun panicking err => rollbackTxn false panicking err) body.

Definition Put (key : Key) (val : GoBytes) : M S (option error) :=
  deferred_rollback
    match val with
    | None => ret (Some ErrInvalidType)
    | Some v =>
        let* '(txn, err) := GetTransaction in
        match err with
        | Some e => ret (Some e)
        | None =>
            let* b := self in
            let* '(_, err) :=
              on_tx txn (fun tx =>
                sql.Tx_Exec tx (Queries.Put (queries b))
                  [sql.Text (Key_String key); sql.Blob v]) in
            match err with
            | Some e => ret (Some e)
            | None => ret None
            end
        end
    end.

Definition Delete (key : Key) : M S (option error) :=
  deferred_rollback
    (let* '(txn, err) := GetTransaction in
     match err with
     | Some e => ret (Some e)
     | None =>
         let* b := self in
         let* '(_, err) :=
           on_tx txn (fun tx =>
             sql.Tx_Exec tx (Queries.Delete (queries b)) [sql.Text (Key_String key)]) in
         match err with
         | Some e => ret (Some e)
         | None => ret err
         end
     end).

Definition Commit : M S (option error) :=
  let* b := self in
  match txn b with
  | None => ret None
  | Some tx =>
      let* err := lift (sql.Tx_Commit tx) in
      match err with
      | Some e =>
          let* _ := lift (sql.Tx_Rollback tx) in
          ret (Some e)
      | None => ret None
      end
  end.

End batch.

(** ** type Datastore *)
Module Datastore.

Record t : Type := Build { db : sql.DB; queries : Queries.t }.

Definition W : Type := sql.World.

Definition Batch (d : t) : batch.t * option error :=
  (batch.Build (db d) (queries d) None, None).

Definition Delete (d : t) (key : Key) : M W (option error) :=
  let* '(result, err) :=
    sql.DB_Exec (Queries.Delete (queries d)) [sql.Text (Key_String key)] in
  match err with
  | Some e => ret (Some e)
  | None =>
      let '(rows, err) := sql.RowsAffected result in
      match err with
      | Some e => ret (Some e)
      | None => if rows =? 0 then ret (Some ErrNotFound) else ret None
      end
  end.

Definition Get (d : t) (key : Key) : M W (GoBytes * option error) :=
  let* row := sql.DB_QueryRow (Queries.Get (queries d)) [sql.Text (Key_String key)] in
  match sql.Scan sql.to_bytes None row with
  | (_, Some ErrNoRows) => ret (None, Some ErrNotFound)
  | (out, None) => ret (out, None)
  | (_, Some err) => ret (None, Some err)
  end.

Definition Has (d : t) (key : Key) : M W (bool * option error) :=
  let* row := sql.DB_QueryRow (Queries.Exists (queries d)) [sql.Text (Key_String key)] in
  match sql.Scan sql.to_bool false row with
  | (exists_, Some ErrNoRows) => ret (exists_, None)
  | (exists_, None) => ret (exists_, None)
  | (exists_, Some err) => ret (exists_, Some err)
  end.

Definition Put (d : t) (key : Key) (value : GoBytes) : M W (option error) :=
  match value with
  | None => ret (Some ErrInvalidType)
  | Some v =>
      let* '(_, err) :=
        sql.DB_Exec (Queries.Put (queries d)) [sql.Text (Key_String key); sql.Blob v] in
      match err with
      | Some e => ret (Some e)
      | None => ret None
      end
  end.

Definition nonempty (s : string) : bool :=
  match s with EmptyString => false | String _ _ => true end.

(** [QueryWithParams] applies prefix, limit, and offset params in pg
    query.  (A function of the package, not a method.) *)
Definition QueryWithParams (d : t) (q : dsq.Query) : M W (list sql.row * option error) :=
  let qNew := Queries.Query (queries d) in
  let qNew :=
    if nonempty (dsq.Prefix q)
    then qNew +:+ fmt.Sprintf (Queries.Prefix (queries d)) (fmt.OfString (dsq.Prefix q))
    else qNew in
  let qNew :=
    if negb (dsq.Limit q =? 0)
    then qNew +:+ fmt.Sprintf (Queries.Limit (queries d)) (fmt.OfInt (dsq.Limit q))
    else qNew in
  let qNew :=
    if negb (dsq.Offset q =? 0)
    then qNew +:+ fmt.Sprintf (Queries.Offset (queries d)) (fmt.OfInt (dsq.Offset q))
    else qNew in
  sql.DB_Query qNew.

(** [rows.Scan(&key, &out)] on one row of the cursor. *)
Definition Scan2 (r : sql.row) : option (string * GoBytes) :=
  match r with
  | [c1; c2] =>
      match sql.to_string c1, sql.to_bytes c2 with
      | Some key, Some out => Some (key, out)
      | _, _ => None
      end
  | _ => None
  end.

(** The loop [for rows.Next() { ... }]; a row that cannot be scanned ends
    the process through [log.Fatal]. *)
Fixpoint scan_rows (rows : list sql.row) (entries : list dsq.Entry)
    : M W (list dsq.Entry) :=
  match rows with
  | [] => ret entries
  | r :: rest =>
      match Scan2 r with
      | None => exit 1
      | Some (key, out) => scan_rows rest (entries ++ [dsq.MkEntry key out])
      end
  end.

(** [defer rows.Close()] has no counterpart: a cursor is the list of its
    rows and holds no resource. *)
Definition RawQuery (d : t) (q : dsq.Query) : M W (option dsq.Results * option error) :=
  let* '(rows, err) :=
    (if nonempty (dsq.Prefix q)
     then QueryWithParams d q
     else sql.DB_Query (Queries.Query (queries d))) in
  match err with
  | Some e => ret (None, Some e)
  | None =>
      let* entries := scan_rows rows [] in
      ret (Some (dsq.ResultsWithEntries q entries), None)
  end.

Definition Query (d : t) (q : dsq.Query) : M W (option dsq.Results * option error) :=
  let* '(raw, err) := RawQuery d q in
  match err with
  | Some e => ret (None, Some e)
  | None =>
      match raw with
      | None => panic "invalid memory address or nil pointer dereference"
      | Some raw =>
          let raw := fold_left dsq.NaiveFilter (dsq.Filters q) raw in
          let raw := dsq.NaiveOrder raw (dsq.Orders q) in
          ret (Some raw, None)
      end
  end.

Definition GetSize (d : t) (key : Key) : M W (Z * option error) :=
  let* row := sql.DB_QueryRow (Queries.GetSize (queries d)) [sql.Text (Key_String key)] in
  match sql.Scan sql.to_int 0 row with
  | (_, Some ErrNoRows) => ret (-1, Some ErrNotFound)
  | (size, None) => ret (size, None)
  | (_, Some err) => ret (0, Some err)
  end.

(** For SQL, sync is a no-op. *)
Definition Sync (d : t) (prefix : Key) : option error := None.

End Datastore.

Definition NewDatastore (db : sql.DB) (queries : Queries.t) : Datastore.t :=
  Datastore.Build db queries.

(** ** type Options *)
Module Options.

Record t : Type := Build {
  Host : string;
  Port : string;
  User : string;
  Password : string;
  Database : string;
  Table : string
}.

Definition is_empty (s : string) : bool :=
  match s with EmptyString => true | String _ _ => false end.

(** [setDefaults] has a pointer receiver: the options it is called on are
    the ones it returns here. *)
Definition setDefaults (opts : t) : t :=
  let opts :=
    if is_empty (Table opts)
    then Build (Host opts) (Port opts) (User opts) (Password opts) (Database opts) "kv"
    else opts in
  let opts :=
    if is_empty (Host opts)
    then Build "postgres" (Port opts) (User opts) (Password opts) (Database opts) (Table opts)
    else opts in
  let opts :=
    if is_empty (Port opts)
    then Build (Host opts) "5432" (User opts) (Password opts) (Database opts) (Table opts)
    else opts in
  let opts :=
    if is_empty (User opts)
    then Build (Host opts) (Port opts) "postgres" (Password opts) (Database opts) (Table opts)
    else opts in
  let opts :=
    if is_empty (Database opts)
    then Build (Host opts) (Port opts) (User opts) (Password opts) "datastore" (Table opts)
    else opts in
  opts.

End Options.

(** ** Vocabulary of the properties *)

(** The next [n] server round trips are answered: none of them is
    scripted to fail or to crash. *)
Fixpoint proceeds (n : nat) (fs : list sql.outcome) : bool :=
  match n, fs with
  | O, _ => true
  | S _, [] => true
  | S n', sql.Proceed :: fs' => proceeds n' fs'
  | S _, _ :: _ => false
  end.

(** No server round trip is scripted to crash. *)
Definition no_crash (fs : list sql.outcome) : bool :=
  forallb (fun o => match o with sql.Crash _ => false | _ => true end) fs.

(** The datastore [CreatePostgres] builds for the table of the backend. *)
Definition store_of (w : sql.World) : Datastore.t :=
  NewDatastore sql.Pool (queries.as_Queries (newQueries (sql.tbl_name w))).

(** The transaction is done: committed or rolled back. *)
Definition is_done (tx : nat) (w : sql.World) : bool :=
  match sql.txs w !! tx with
  | Some t => sql.tx_done t
  | None => false
  end.

(** The contract [compose(baseQuery, prefix?, limit?, offset?)] of the
    statement composer, in the words of the specification: the prefix
    clause if a non-empty prefix is given, then the limit clause if a
    non-zero limit is given, then the offset clause if a non-zero offset
    is given. *)
Definition clause (template : string) (x : option fmt.operand) : string :=
  match x with
  | Some a => fmt.Sprintf template a
  | None => EmptyString
  end.

Definition compose (p : Queries.t) (prefix : option string) (limit offset : option Z)
    : string :=
  Queries.Query p
    +:+ (clause (Queries.Prefix p) (option_map fmt.OfString prefix)
    +:+ (clause (Queries.Limit p) (option_map fmt.OfInt limit)
    +:+ clause (Queries.Offset p) (option_map fmt.OfInt offset))).

Definition given_prefix (q : dsq.Query) : option string :=
  match dsq.Prefix q with
  | EmptyString => None
  | p => Some p
  end.

Definition given (n : Z) : option Z := if Z.eq_dec n 0 then None else Some n.

(** The window a limit and an offset select from a sequence (zero means
    not given): [offset] entries are skipped, then [limit] are kept. *)
Definition window (limit offset : Z) (l : list dsq.Entry) : list dsq.Entry :=
  let skipped := if offset =? 0 then l else skipn (Z.to_nat offset) l in
  if limit =? 0 then skipped else firstn (Z.to_nat limit) skipped.

(** The entries of a successful query. *)
Definition entries_of (r : result (option dsq.Results * option error) * sql.World)
    : option (list dsq.Entry) :=
  match fst r with
  | Val (Some res, None) => Some (dsq.Rest res)
  | _ => None
  end.

Definition entry (k v : string) : dsq.Entry :=
  dsq.MkEntry k (Some (list_byte_of_string v)).

(** The entry scanned from a row of the table. *)
Definition row_entry (r : string * bytes) : dsq.Entry :=
  dsq.MkEntry (fst r) (Some (snd r)).

(** The client-side stage on plain lists: every filter in turn, then the
    sort when orders are given. *)
Definition client_side (fs : list dsq.Filter) (os : list dsq.Order)
    (l : list dsq.Entry) : list dsq.Entry :=
  let kept := fold_left (fun l f => List.filter f l) fs l in
  match os with
  | [] => kept
  | _ => fold_right (dsq.insert_by os) [] kept
  end.

(** The store of the pushdown example. *)
Definition example_rows : sql.table :=
  [("a/1", list_byte_of_string "v1");
   ("a/2", list_byte_of_string "v2");
   ("b/1", list_byte_of_string "v3")].

(** What the backend keeps across a call: the transactions that were done
    stay done, and handles stay valid. *)
Definition grows (w w' : sql.World) : Prop :=
  (forall tx, is_done tx w = true -> is_done tx w' = true)
  /\ (length (sql.txs w) <= length (sql.txs w'))%nat.

(** The transaction of the batch, if any, is one the backend knows. *)
Definition known (s : batch.S) : Prop :=
  match batch.txn (fst s) with
  | Some tx => (tx < length (sql.txs (snd s)))%nat
  | None => True
  end.

(** The batch holds no open transaction: it has none, or the one it has
    is done. *)
Definition settled (s : batch.S) : Prop :=
  match batch.txn (fst s) with
  | Some tx => is_done tx (snd s) = true
  | None => True
  end.

(** The operations a caller can invoke on a batch, and the results of a
    sequence of invocations on the same batch. *)
Inductive batch_op : Type :=
| OpPut (key : Key) (val : GoBytes)
| OpDelete (key : Key)
| OpCommit.

Definition invoke (o : batch_op) : M batch.S (option error) :=
  match o with
  | OpPut key val => batch.Put key val
  | OpDelete key => batch.Delete key
  | OpCommit => batch.Commit
  end.

Fixpoint invoke_all (ops : list batch_op) (s : batch.S) : list (result (option error)) :=
  match ops with
  | [] => []
  | o :: rest => let (r, s') := invoke o s in r :: invoke_all rest s'
  end.

(** A datastore on an empty table, and a batch of it after one put: the
    batch holds an open transaction with that write. *)
Definition example_store : Datastore.t :=
  NewDatastore sql.Pool (queries.as_Queries (newQueries "kv")).

Definition empty_world : sql.World := sql.MkWorld "kv" [] [] [] [].

Definition open_batch : batch.S :=
  snd (batch.Put (RawKey "/a") (Some (list_byte_of_string "x"))
         (fst (Datastore.Batch example_store), empty_world)).

(** The same state with a script for the server. *)
Definition scripted (fs : list sql.outcome) (s : batch.S) : batch.S :=
  (fst s, sql.MkWorld (sql.tbl_name (snd s)) (sql.rows (snd s)) (sql.txs (snd s)) fs
            (sql.trace (snd s))).

(** The state a batch and the backend are in after a sequence of
    invocations. *)
Fixpoint state_after (ops : list batch_op) (s : batch.S) : batch.S :=
  match ops with
  | [] => s
  | o :: rest => state_after rest (snd (invoke o s))
  end.

(** The write an invocation asks for: a put of a value that is present,
    or a delete. *)
Definition write_of (o : batch_op) : option sql.write :=
  match o with
  | OpPut key (Some v) => Some (sql.WPut (Key_String key) v)
  | OpPut _ None => None
  | OpDelete key => Some (sql.WDelete (Key_String key))
  | OpCommit => None
  end.

Definition is_write (o : batch_op) : bool :=
  match write_of o with Some _ => true | None => false end.

Fixpoint writes_of (ops : list batch_op) : list sql.write :=
  match ops with
  | [] => []
  | o :: rest =>
      match write_of o with
      | Some x => x :: writes_of rest
      | None => writes_of rest
      end
  end.

(** The statement the provider sends for a write, with its parameters. *)
Definition sent (tbl : string) (x : sql.write) : sql.pending :=
  match x with
  | sql.WPut k v => (queries.Put (newQueries tbl), [sql.Text k; sql.Blob v])
  | sql.WDelete k => (queries.Delete (newQueries tbl), [sql.Text k])
  end.

(** A prefix without the characters the statement or [LIKE] give a
    meaning to: the single quote, the two wildcards and the escape. *)
Definition plain_char (c : ascii) : bool :=
  negb (Ascii.eqb c "'" || Ascii.eqb c "%" || Ascii.eqb c "_" || Ascii.eqb c "\")%bool.

Fixpoint plain (p : string) : bool :=
  match p with
  | EmptyString => true
  | String c p' => (plain_char c && plain p')%bool
  end.

(** A prefix without single quote: it stays inside the string literal
    of the composed statement. *)
Fixpoint quote_free (p : string) : bool :=
  match p with
  | EmptyString => true
  | String c p' => (negb (Ascii.eqb c "'") && quote_free p')%bool
  end.

(** The rows whose key matches a [LIKE] pattern, in key order, as
    entries. *)
Definition matching (pattern : string) (t : sql.table) : list dsq.Entry :=
  map row_entry (sql.order_by_key (List.filter (fun r => sql.like pattern (fst r)) t)).

(** The rows whose key starts with a prefix, in key order, as entries. *)
Definition with_prefix (p : string) (t : sql.table) : list dsq.Entry :=
  map row_entry
    (sql.order_by_key (List.filter (fun r => strings.HasPrefix (fst r) p) t)).

(** The calls that open a transaction. *)
Definition is_begin (c : sql.call) : bool :=
  match c with sql.CallBegin => true | _ => false end.

(** The statements of the PostgreSQL provider, as the server reads
    them. *)
Definition by_key : sql.cond :=
  sql.CSimple (sql.SCmp sql.OpEq (sql.OCol sql.ColKey) (sql.OParam 1)).

Definition all_columns : list sql.item :=
  [sql.IOperand (sql.OCol sql.ColKey); sql.IOperand (sql.OCol sql.ColData)].

Definition st_Put : sql.statement :=
  sql.StInsert [sql.ColKey; sql.ColData]
    (sql.Selected
       (sql.MkSelect [sql.IOperand (sql.OParam 1); sql.IOperand (sql.OParam 2)] false
          (Some (sql.CExists true
                   (sql.MkSub [sql.OCol sql.ColKey]
                      (Some (sql.SCmp sql.OpEq (sql.OCol sql.ColKey) (sql.OParam 1))))))
          None None None))
    sql.Abort.

Definition st_Delete : sql.statement := sql.StDelete (Some by_key).

Definition st_Get : sql.statement :=
  sql.StSelect
    (sql.MkSelect [sql.IOperand (sql.OCol sql.ColData)] true (Some by_key) None None None).

Definition st_Exists : sql.statement :=
  sql.StSelect
    (sql.MkSelect
       [sql.IExists false
          (sql.MkSub [sql.OInt 1]
             (Some (sql.SCmp sql.OpEq (sql.OCol sql.ColKey) (sql.OParam 1))))]
       false None None None None).

Definition st_GetSize : sql.statement :=
  sql.StSelect
    (sql.MkSelect [sql.IOperand (sql.OLength sql.ColData)] true (Some by_key) None None None).

(** The select of the provider with the clauses the composer adds: a
    [LIKE] pattern together with [ORDER BY key], a limit, an offset. *)
Definition sel_Query (pattern : option string) (limit offset : option Z) : sql.selection :=
  sql.MkSelect all_columns true
    (option_map (fun p => sql.CSimple (sql.SLike (sql.OCol sql.ColKey) p)) pattern)
    (match pattern with Some _ => Some sql.ColKey | None => None end)
    limit offset.

(** The rows of a table that match a pattern, in key order, or all its
    rows in the order it stores them when there is no pattern; then
    the offset is skipped and the limit kept. *)
Definition select_rows (pattern : option string) (limit offset : option Z)
    (t : sql.table) : option sql.table :=
  sql.slice limit offset
    match pattern with
    | Some p => sql.order_by_key (List.filter (fun r => sql.like p (fst r)) t)
    | None => t
    end.

(** A row of the table as the cells of [SELECT key, data]. *)
Definition cells (r : string * bytes) : sql.row := [sql.CText (fst r); sql.CBlob (snd r)].

(** A computation keeps an invariant [I] of the state and relates the
    state it starts in to the state it ends in by [R], whatever its
    outcome. *)
Definition keeps {S A : Type} (I : S -> Prop) (R : S -> S -> Prop) (m : M S A) : Prop :=
  forall s, I s -> I (snd (m s)) /\ R s (snd (m s)).

(** Unfolds the methods of a batch down to the calls on the backend. *)
Ltac run :=
  repeat (unfold batch.Put, batch.Delete, batch.Commit, batch.deferred_rollback, defer,
            batch.rollbackTxn, batch.GetTransaction, batch.on_tx, batch.lift,
            batch.self, batch.set_txn, bind, ret, panic, recover; simpl).

(** ** Reading the statements of the provider *)

Lemma append_cons (c : ascii) (a b : string) : String c a +:+ b = String c (a +:+ b).
Proof. reflexivity. Qed.

Lemma append_nil (b : string) : EmptyString +:+ b = b.
Proof. reflexivity. Qed.

Lemma strip_app (p s : string) : sql.strip p (p +:+ s) = Some s.
Proof.
  induction p as [|c p IH]; [reflexivity|].
  rewrite append_cons. simpl. now rewrite Ascii.eqb_refl.
Qed.

Lemma append_assoc (a b c : string) : (a +:+ b) +:+ c = a +:+ (b +:+ c).
Proof.
  induction a as [|x a IH]; [reflexivity|].
  rewrite !append_cons. now rewrite IH.
Qed.

Lemma append_empty (a : string) : a +:+ EmptyString = a.
Proof.
  induction a as [|x a IH]; [reflexivity|].
  rewrite append_cons. now rewrite IH.
Qed.

(** Runs the parser over a text in which the table name is a variable. *)
Ltac read_text :=
  rewrite ?append_cons, ?append_nil;
  repeat first
    [ rewrite strip_app
    | progress cbn
    | progress unfold sql.parse_statement, sql.parse_insert, sql.parse_delete,
        sql.parse_source, sql.parse_selection, sql.parse_clauses, sql.parse_where,
        sql.parse_cond, sql.parse_item, sql.parse_exists, sql.parse_subselect,
        sql.parse_from, sql.parse_conflict, sql.parse_order, sql.parse_count,
        sql.parse_simple_cond, sql.parse_operand, sql.parse_column, sql.width ].

Lemma parse_single (tbl s : string) (st : sql.statement) :
  sql.parse_statement tbl s = Some (st, EmptyString) -> sql.parse tbl s = Some [st].
Proof.
  intros H. unfold sql.parse, sql.width, sql.parse_script. now rewrite H.
Qed.

Section Provider.

Variable tbl : string.

Lemma parse_Put : sql.parse tbl (queries.Put (newQueries tbl)) = Some [st_Put].
Proof.
  apply parse_single. unfold queries.Put, newQueries. cbn [queries.tableName].
  read_text. reflexivity.
Qed.

Lemma parse_Delete : sql.parse tbl (queries.Delete (newQueries tbl)) = Some [st_Delete].
Proof.
  apply parse_single. unfold queries.Delete, newQueries. cbn [queries.tableName].
  read_text. reflexivity.
Qed.

Lemma parse_Get : sql.parse tbl (queries.Get (newQueries tbl)) = Some [st_Get].
Proof.
  apply parse_single. unfold queries.Get, newQueries. cbn [queries.tableName].
  read_text. reflexivity.
Qed.

Lemma parse_Exists : sql.parse tbl (queries.Exists (newQueries tbl)) = Some [st_Exists].
Proof.
  apply parse_single. unfold queries.Exists, newQueries. cbn [queries.tableName].
  read_text. reflexivity.
Qed.

Lemma parse_GetSize : sql.parse tbl (queries.GetSize (newQueries tbl)) = Some [st_GetSize].
Proof.
  apply parse_single. unfold queries.GetSize, newQueries. cbn [queries.tableName].
  read_text. reflexivity.
Qed.

(** A text that extends the select of the provider is that select with
    the clauses of the extension. *)
Lemma parse_select (tail : string) :
  sql.parse_statement tbl (queries.Query (newQueries tbl) +:+ tail)
  = match sql.parse_clauses tbl all_columns true tail with
    | Some (q, r) => Some (sql.StSelect q, r)
    | None => None
    end.
Proof.
  unfold queries.Query, newQueries. cbn [queries.tableName].
  rewrite !append_assoc.
  unfold sql.parse_statement. rewrite ?append_cons, ?append_nil. cbn.
  unfold sql.parse_selection, sql.width. cbn. rewrite strip_app.
  reflexivity.
Qed.

End Provider.

(** ** The server's script *)

Lemma next_outcome_proceeds (n : nat) (w : sql.World) :
  proceeds (S n) (sql.faults w) = true ->
  sql.next_outcome w = (sql.Proceed, snd (sql.next_outcome w))
  /\ proceeds n (sql.faults (snd (sql.next_outcome w))) = true.
Proof.
  unfold sql.next_outcome. destruct w as [tbl t txs fs tr]; simpl.
  destruct fs as [|[| |] fs]; simpl; try discriminate.
  - intros _. split; [reflexivity|]. now destruct n.
  - intros H. split; [reflexivity|exact H].
Qed.

Lemma next_outcome_keeps (w : sql.World) :
  let w' := snd (sql.next_outcome w) in
  sql.tbl_name w' = sql.tbl_name w /\ sql.rows w' = sql.rows w
  /\ sql.txs w' = sql.txs w /\ sql.trace w' = sql.trace w.
Proof.
  unfold sql.next_outcome. destruct (sql.faults w); simpl; auto.
Qed.

Lemma proceeds_weaken (n : nat) (fs : list sql.outcome) :
  proceeds (S n) fs = true -> proceeds n fs = true.
Proof.
  revert fs. induction n as [|n IH]; intros fs H; [reflexivity|].
  destruct fs as [|[| |] fs]; simpl in *; try discriminate; auto.
Qed.

(** ** The statements of the provider, run by the server *)

Lemma keep_total {A : Type} (f : A -> option bool) (g : A -> bool) (l : list A) :
  (forall a, f a = Some (g a)) -> sql.keep f l = Some (List.filter g l).
Proof.
  intros H. induction l as [|a l IH]; [reflexivity|].
  simpl. rewrite H, IH. now destruct (g a).
Qed.

Lemma traverse_total {A B : Type} (f : A -> option B) (g : A -> B) (l : list A) :
  (forall a, f a = Some (g a)) -> sql.traverse f l = Some (map g l).
Proof.
  intros H. induction l as [|a l IH]; [reflexivity|].
  simpl. now rewrite H, IH.
Qed.

(** The first row with a given key holds the value of the key. *)
Lemma lookup_filter (k : string) (t : sql.table) :
  option_map snd (head (List.filter (fun r => String.eqb (fst r) k) t)) = sql.lookup k t.
Proof.
  induction t as [|[k' v'] t IH]; [reflexivity|].
  simpl. rewrite (String.eqb_sym k' k). now destruct (String.eqb k k').
Qed.

(** [WHERE key = $1], with the key as first parameter. *)
Lemma by_key_holds (k : string) (rest : list sql.arg) (r : string * bytes) (t : sql.table) :
  sql.eval_cond (sql.Text k :: rest) (Some r) t by_key = Some (String.eqb (fst r) k).
Proof. reflexivity. Qed.

Lemma rows_with_key (k : string) (rest : list sql.arg) (t : sql.table) :
  sql.keep (fun r => sql.eval_cond (sql.Text k :: rest) (Some r) t by_key) t
  = Some (List.filter (fun r => String.eqb (fst r) k) t).
Proof. now apply keep_total. Qed.

(** The insert of the provider is an insert-if-absent: [WHERE NOT
    EXISTS] leaves nothing to insert when the key has a row. *)
Lemma exec_Put (k : string) (v : bytes) (t : sql.table) :
  sql.exec [sql.Text k; sql.Blob v] st_Put t
  = Some (fst (sql.insert_if_absent k v t), [], snd (sql.insert_if_absent k v t)).
Proof.
  unfold sql.exec, st_Put, sql.eval_source, sql.eval_selection, sql.eval_cond,
    sql.eval_exists, sql.eval_subselect.
  cbn [sql.sel_from sql.sel_where sql.sel_order sql.sel_limit sql.sel_offset
       sql.sel_items sql.sub_where sql.sub_items].
  rewrite (keep_total _ (fun r => String.eqb (fst r) k)) by reflexivity.
  rewrite (traverse_total _ (fun r : string * bytes => [sql.CText (fst r)])) by reflexivity.
  pose proof (lookup_filter k t) as L. unfold sql.insert_if_absent.
  destruct (List.filter (fun r => String.eqb (fst r) k) t) as [|r l];
    simpl in L; rewrite <- L; simpl; [|reflexivity].
  unfold sql.insert_row. simpl fst. now rewrite <- L.
Qed.

(** The delete of the provider removes the rows of the key and counts
    them. *)
Lemma exec_Delete (k : string) (t : sql.table) :
  sql.exec [sql.Text k] st_Delete t
  = Some (fst (sql.delete_key k t), [], snd (sql.delete_key k t)).
Proof.
  unfold sql.exec, st_Delete.
  rewrite rows_with_key.
  rewrite (keep_total _ (fun r => negb (String.eqb (fst r) k))) by reflexivity.
  unfold sql.delete_key. simpl.
  rewrite (List.filter_ext (fun r : string * bytes => negb (String.eqb (fst r) k))
             (fun r => negb (String.eqb k (fst r))))
    by (intros r; now rewrite String.eqb_sym).
  rewrite (List.filter_ext (fun r : string * bytes => String.eqb (fst r) k)
             (fun r => String.eqb k (fst r)))
    by (intros r; now rewrite String.eqb_sym).
  reflexivity.
Qed.

(** The three reads of the provider: the first row with the key, as
    its data, as whether there is one, and as the length of its data. *)
Lemma exec_Get (k : string) (t : sql.table) :
  option_map (fun x => (fst (fst x), head (snd (fst x)))) (sql.exec [sql.Text k] st_Get t)
  = Some (t, option_map (fun v => [sql.CBlob v]) (sql.lookup k t)).
Proof.
  unfold sql.exec, st_Get, sql.eval_selection.
  cbn [sql.sel_from sql.sel_where sql.sel_order sql.sel_limit sql.sel_offset sql.sel_items].
  rewrite rows_with_key. cbn [sql.slice].
  rewrite (traverse_total _ (fun r : string * bytes => [sql.CBlob (snd r)])) by reflexivity.
  rewrite <- (lookup_filter k t).
  now destruct (List.filter (fun r => String.eqb (fst r) k) t).
Qed.

Lemma exec_GetSize (k : string) (t : sql.table) :
  option_map (fun x => (fst (fst x), head (snd (fst x)))) (sql.exec [sql.Text k] st_GetSize t)
  = Some (t, option_map (fun v => [sql.CInt (Z.of_nat (length v))]) (sql.lookup k t)).
Proof.
  unfold sql.exec, st_GetSize, sql.eval_selection.
  cbn [sql.sel_from sql.sel_where sql.sel_order sql.sel_limit sql.sel_offset sql.sel_items].
  rewrite rows_with_key. cbn [sql.slice].
  rewrite (traverse_total _ (fun r : string * bytes => [sql.CInt (Z.of_nat (length (snd r)))]))
    by reflexivity.
  rewrite <- (lookup_filter k t).
  now destruct (List.filter (fun r => String.eqb (fst r) k) t).
Qed.

Lemma exec_Exists (k : string) (t : sql.table) :
  option_map (fun x => (fst (fst x), head (snd (fst x)))) (sql.exec [sql.Text k] st_Exists t)
  = Some (t, Some [sql.CBool (match sql.lookup k t with Some _ => true | None => false end)]).
Proof.
  unfold sql.exec, st_Exists, sql.eval_selection, sql.eval_item, sql.eval_exists,
    sql.eval_subselect.
  cbn [sql.sel_from sql.sel_where sql.sel_order sql.sel_limit sql.sel_offset
       sql.sel_items sql.sub_where sql.sub_items sql.slice sql.traverse].
  rewrite (keep_total _ (fun r => String.eqb (fst r) k)) by reflexivity.
  rewrite (traverse_total _ (fun r : string * bytes => [sql.CInt 1])) by reflexivity.
  rewrite <- (lookup_filter k t).
  now destruct (List.filter (fun r => String.eqb (fst r) k) t).
Qed.

Lemma run_one (tbl stmt : string) (st : sql.statement) (args : list sql.arg)
    (t : sql.table) :
  sql.parse tbl stmt = Some [st] -> sql.run tbl stmt args t = sql.exec args st t.
Proof. intros H. unfold sql.run. now rewrite H. Qed.

Lemma run_write_Put (tbl k : string) (v : bytes) (t : sql.table) :
  sql.run_write tbl (queries.Put (newQueries tbl)) [sql.Text k; sql.Blob v] t
  = Some (sql.insert_if_absent k v t).
Proof.
  unfold sql.run_write. rewrite (run_one _ _ _ _ _ (parse_Put tbl)), exec_Put.
  now destruct (sql.insert_if_absent k v t).
Qed.

Lemma run_write_Delete (tbl k : string) (t : sql.table) :
  sql.run_write tbl (queries.Delete (newQueries tbl)) [sql.Text k] t
  = Some (sql.delete_key k t).
Proof.
  unfold sql.run_write. rewrite (run_one _ _ _ _ _ (parse_Delete tbl)), exec_Delete.
  now destruct (sql.delete_key k t).
Qed.

Lemma run_read_exec (tbl stmt : string) (st : sql.statement) (args : list sql.arg)
    (t : sql.table) :
  sql.parse tbl stmt = Some [st] ->
  sql.run_read tbl stmt args t
  = option_map (fun x => (fst (fst x), head (snd (fst x)))) (sql.exec args st t).
Proof.
  intros H. unfold sql.run_read. rewrite (run_one _ _ _ _ _ H).
  now destruct (sql.exec args st t) as [[[t' rs] n]|].
Qed.

Lemma run_read_Get (tbl k : string) (t : sql.table) :
  sql.run_read tbl (queries.Get (newQueries tbl)) [sql.Text k] t
  = Some (t, option_map (fun v => [sql.CBlob v]) (sql.lookup k t)).
Proof. rewrite (run_read_exec _ _ _ _ _ (parse_Get tbl)). apply exec_Get. Qed.

Lemma run_read_GetSize (tbl k : string) (t : sql.table) :
  sql.run_read tbl (queries.GetSize (newQueries tbl)) [sql.Text k] t
  = Some (t, option_map (fun v => [sql.CInt (Z.of_nat (length v))]) (sql.lookup k t)).
Proof. rewrite (run_read_exec _ _ _ _ _ (parse_GetSize tbl)). apply exec_GetSize. Qed.

Lemma run_read_Exists (tbl k : string) (t : sql.table) :
  sql.run_read tbl (queries.Exists (newQueries tbl)) [sql.Text k] t
  = Some (t, Some [sql.CBool (match sql.lookup k t with Some _ => true | None => false end)]).
Proof. rewrite (run_read_exec _ _ _ _ _ (parse_Exists tbl)). apply exec_Exists. Qed.

Lemma lookup_app_absent (k : string) (v : bytes) (t : sql.table) :
  sql.lookup k t = None -> sql.lookup k (t ++ [(k, v)]) = Some v.
Proof.
  induction t as [|[k' v'] t IH]; simpl.
  - now rewrite String.eqb_refl.
  - destruct (String.eqb k k'); [discriminate|exact IH].
Qed.

Lemma with_rows_same (w : sql.World) : sql.with_rows (sql.rows w) w = w.
Proof. now destruct w. Qed.

(** ** The facade, one answered round trip at a time *)

Section Facade.

Variable w : sql.World.
Variable key : Key.
Hypothesis answered : proceeds 1 (sql.faults w) = true.

(** A put on an answering server inserts the row unless the key is
    there, and returns nil either way. *)
Lemma Put_answered (v : bytes) :
  exists w',
    Datastore.Put (store_of w) key (Some v) w = (Val None, w')
    /\ sql.tbl_name w' = sql.tbl_name w
    /\ sql.faults w' = tl (sql.faults w)
    /\ sql.rows w' = fst (sql.insert_if_absent (Key_String key) v (sql.rows w)).
Proof.
  unfold Datastore.Put, bind, sql.DB_Exec, store_of. simpl.
  destruct w as [tbl t txs fs tr]; simpl in *.
  unfold sql.next_outcome; simpl.
  destruct fs as [|[| |] fs]; simpl in *; try discriminate;
    rewrite run_write_Put; destruct (sql.insert_if_absent _ v t) as [t' n];
    eexists; simpl; repeat split.
Qed.

Lemma Get_answered :
  exists w',
    Datastore.Get (store_of w) key w
    = (Val match sql.lookup (Key_String key) (sql.rows w) with
           | Some v => (Some v, None)
           | None => (None, Some ErrNotFound)
           end, w')
    /\ sql.tbl_name w' = sql.tbl_name w
    /\ sql.faults w' = tl (sql.faults w)
    /\ sql.rows w' = sql.rows w.
Proof.
  unfold Datastore.Get, bind, sql.DB_QueryRow, store_of. simpl.
  destruct w as [tbl t txs fs tr]; simpl in *.
  unfold sql.next_outcome; simpl.
  destruct fs as [|[| |] fs]; simpl in *; try discriminate;
    rewrite run_read_Get; destruct (sql.lookup _ t) as [v|];
    eexists; simpl; repeat split.
Qed.

Lemma GetSize_answered :
  exists w',
    Datastore.GetSize (store_of w) key w
    = (Val match sql.lookup (Key_String key) (sql.rows w) with
           | Some v => (Z.of_nat (length v), None)
           | None => (-1, Some ErrNotFound)
           end, w')
    /\ sql.tbl_name w' = sql.tbl_name w
    /\ sql.faults w' = tl (sql.faults w)
    /\ sql.rows w' = sql.rows w.
Proof.
  unfold Datastore.GetSize, bind, sql.DB_QueryRow, store_of. simpl.
  destruct w as [tbl t txs fs tr]; simpl in *.
  unfold sql.next_outcome; simpl.
  destruct fs as [|[| |] fs]; simpl in *; try discriminate;
    rewrite run_read_GetSize; destruct (sql.lookup _ t) as [v|];
    eexists; simpl; repeat split.
Qed.

End Facade.

Lemma store_of_table (w w' : sql.World) :
  sql.tbl_name w' = sql.tbl_name w -> store_of w' = store_of w.
Proof. unfold store_of. now intros ->. Qed.

Lemma proceeds_tl (n : nat) (fs : list sql.outcome) :
  proceeds (S n) fs = true -> proceeds n (tl fs) = true.
Proof.
  destruct fs as [|[| |] fs]; simpl; try discriminate; auto.
  now destruct n.
Qed.

(** A put of a key that is there changes no row. *)
Lemma Put_present_keeps (w : sql.World) (key : Key) (v0 v : bytes) :
  proceeds 1 (sql.faults w) = true ->
  sql.lookup (Key_String key) (sql.rows w) = Some v0 ->
  exists w',
    Datastore.Put (store_of w) key (Some v) w = (Val None, w')
    /\ sql.rows w' = sql.rows w.
Proof.
  intros Hp Hk.
  destruct (Put_answered w key Hp v) as (w' & HP & _ & _ & Hr).
  exists w'. split; [exact HP|].
  rewrite Hr. unfold sql.insert_if_absent. now rewrite Hk.
Qed.

(** ** Insert-if-absent *)

(** C1, as the code has it.  Put is insert-if-absent, the first write
    wins: on a server that answers, a put of [v1] returns nil; a
    second put of any [v2] under that key returns nil as well and
    changes no row; and a get of the key then returns [v1] when the
    key had no row before the first put, and the value it held
    before when it had one. *)
Theorem C1_put_first_write_wins (w : sql.World) (key : Key) (v1 v2 : bytes) :
  proceeds 3 (sql.faults w) = true ->
  exists w1 w2 w3,
    Datastore.Put (store_of w) key (Some v1) w = (Val None, w1)
    /\ Datastore.Put (store_of w) key (Some v2) w1 = (Val None, w2)
    /\ sql.rows w2 = sql.rows w1
    /\ Datastore.Get (store_of w) key w2
       = (Val (Some match sql.lookup (Key_String key) (sql.rows w) with
                    | Some v0 => v0
                    | None => v1
                    end, None), w3).
Proof.
  intros Hp.
  assert (Hp1 : proceeds 1 (sql.faults w) = true)
    by now apply proceeds_weaken, proceeds_weaken.
  destruct (Put_answered w key Hp1 v1) as (w1 & HP1 & Ht1 & Hf1 & Hr1).
  set (held := match sql.lookup (Key_String key) (sql.rows w) with
               | Some v0 => v0
               | None => v1
               end).
  assert (Hk1 : sql.lookup (Key_String key) (sql.rows w1) = Some held).
  { rewrite Hr1. unfold sql.insert_if_absent, held.
    destruct (sql.lookup (Key_String key) (sql.rows w)) as [v0|] eqn:Hk; simpl.
    - exact Hk.
    - now apply lookup_app_absent. }
  assert (Hp2 : proceeds 2 (sql.faults w1) = true)
    by (rewrite Hf1; now apply proceeds_tl).
  destruct (Put_answered w1 key (proceeds_weaken _ _ Hp2) v2)
    as (w2 & HP2 & Ht2 & Hf2 & Hr2).
  unfold sql.insert_if_absent in Hr2. rewrite Hk1 in Hr2. simpl in Hr2.
  assert (Hp3 : proceeds 1 (sql.faults w2) = true)
    by (rewrite Hf2; now apply proceeds_tl).
  destruct (Get_answered w2 key Hp3) as (w3 & HG & _).
  rewrite Hr2, Hk1 in HG.
  rewrite (store_of_table w w1 Ht1) in HP2.
  rewrite (store_of_table w w2) in HG by congruence.
  exists w1, w2, w3. auto.
Qed.

Lemma C1_witness :
  let w := sql.MkWorld "kv" [("/j", list_byte_of_string "other")] []
             [sql.Proceed; sql.Proceed; sql.Proceed; sql.Fail "connection lost"] [] in
  let key := RawKey "/k" in
  let v1 := list_byte_of_string "first" in
  let v2 := list_byte_of_string "second" in
  proceeds 3 (sql.faults w) = true
  /\ exists w1 w2 w3,
       Datastore.Put (store_of w) key (Some v1) w = (Val None, w1)
       /\ Datastore.Put (store_of w) key (Some v2) w1 = (Val None, w2)
       /\ sql.rows w2 = sql.rows w1
       /\ Datastore.Get (store_of w) key w2 = (Val (Some v1, None), w3).
Proof.
  split; [reflexivity|].
  exact (C1_put_first_write_wins
           (sql.MkWorld "kv" [("/j", list_byte_of_string "other")] []
              [sql.Proceed; sql.Proceed; sql.Proceed; sql.Fail "connection lost"] [])
           (RawKey "/k") (list_byte_of_string "first") (list_byte_of_string "second")
           eq_refl).
Defined.

(** C1 as claimed fails for a key that holds a value already: both puts
    return nil, and the get returns neither [v1] nor [v2] but the
    value the key held. *)
Lemma C1_counterexample :
  let w := sql.MkWorld "kv" [("/k", list_byte_of_string "zero")] [] [] [] in
  let key := RawKey "/k" in
  let v1 := list_byte_of_string "first" in
  let v2 := list_byte_of_string "second" in
  v1 <> v2
  /\ exists w1 w2 w3 got,
       Datastore.Put (store_of w) key (Some v1) w = (Val None, w1)
       /\ Datastore.Put (store_of w) key (Some v2) w1 = (Val None, w2)
       /\ Datastore.Get (store_of w) key w2 = (Val (Some got, None), w3)
       /\ got = list_byte_of_string "zero"
       /\ got <> v1.
Proof.
  split; [discriminate|].
  eexists _, _, _, _.
  split; [reflexivity|]. split; [reflexivity|]. split; [reflexivity|].
  split; [reflexivity|discriminate].
Qed.

(** ** Size of a stored value *)

(** C9. On a server that answers, [GetSize] of a key holding [v] returns
    the byte length of [v] and no error; of a key without a row it
    returns the size -1 together with [ErrNotFound]. *)
Theorem C9_GetSize_length_or_NotFound (w : sql.World) (key : Key) :
  proceeds 1 (sql.faults w) = true ->
  (forall v : bytes,
      sql.lookup (Key_String key) (sql.rows w) = Some v ->
      fst (Datastore.GetSize (store_of w) key w) = Val (Z.of_nat (length v), None))
  /\ (sql.lookup (Key_String key) (sql.rows w) = None ->
      fst (Datastore.GetSize (store_of w) key w) = Val (-1, Some ErrNotFound)).
Proof.
  intros Hp.
  destruct (GetSize_answered w key Hp) as (w' & HG & _).
  rewrite HG; simpl.
  split; [intros v Hv|intros Hv]; now rewrite Hv.
Qed.

Lemma C9_witness :
  let w := sql.MkWorld "kv" [("/k", list_byte_of_string "hello")] [] [] [] in
  proceeds 1 (sql.faults w) = true
  /\ fst (Datastore.GetSize (store_of w) (RawKey "/k") w) = Val (5, None)
  /\ fst (Datastore.GetSize (store_of w) (RawKey "/none") w) = Val (-1, Some ErrNotFound).
Proof.
  pose (w := sql.MkWorld "kv" [("/k", list_byte_of_string "hello")] [] [] []).
  split; [reflexivity|]. split.
  - apply (proj1 (C9_GetSize_length_or_NotFound w (RawKey "/k") eq_refl)
             (list_byte_of_string "hello")).
    reflexivity.
  - apply (proj2 (C9_GetSize_length_or_NotFound w (RawKey "/none") eq_refl)).
    reflexivity.
Defined.

(** ** The empty batch *)

Lemma Commit_without_transaction (b : batch.t) (w : sql.World) :
  batch.txn b = None -> batch.Commit (b, w) = (Val None, (b, w)).
Proof.
  intros H. unfold batch.Commit, bind, batch.self. simpl. now rewrite H.
Qed.

(** C7. [Batch] returns a batch without transaction and no error, and
    touches no backend; [Commit] on that batch returns nil and leaves the
    batch and the backend exactly as they were: no call is received, no
    transaction is opened, no row changes. *)
Theorem C7_empty_batch_commit_is_noop (d : Datastore.t) (w : sql.World) :
  snd (Datastore.Batch d) = None
  /\ batch.txn (fst (Datastore.Batch d)) = None
  /\ batch.Commit (fst (Datastore.Batch d), w) = (Val None, (fst (Datastore.Batch d), w)).
Proof.
  split; [reflexivity|]. split; [reflexivity|].
  now apply Commit_without_transaction.
Qed.

(** ** The statement composer *)

Lemma DB_Query_trace (stmt : string) (w : sql.World) :
  sql.trace (snd (sql.DB_Query stmt w)) = sql.trace w ++ [sql.CallQuery stmt].
Proof.
  unfold sql.DB_Query, sql.next_outcome, sql.received. simpl.
  destruct (sql.faults w) as [|[| |] fs]; simpl; try reflexivity;
    destruct (sql.run_select _ _ _) as [[t rs]|]; reflexivity.
Qed.

Lemma scan_rows_pure (rows : list sql.row) (entries : list dsq.Entry) (w : sql.World) :
  snd (Datastore.scan_rows rows entries w) = w.
Proof.
  revert entries. induction rows as [|r rows IH]; intros entries; simpl; [reflexivity|].
  destruct (Datastore.Scan2 r) as [[key out]|]; [apply IH|reflexivity].
Qed.

Lemma QueryWithParams_statement (d : Datastore.t) (q : dsq.Query) :
  Datastore.QueryWithParams d q
  = sql.DB_Query (compose (Datastore.queries d) (given_prefix q)
                    (given (dsq.Limit q)) (given (dsq.Offset q))).
Proof.
  unfold Datastore.QueryWithParams, compose, given_prefix, given, clause.
  f_equal.
  destruct (dsq.Prefix q) as [|c p]; simpl Datastore.nonempty; cbv iota;
    destruct (Z.eq_dec (dsq.Limit q) 0) as [->|Hl];
    destruct (Z.eq_dec (dsq.Offset q) 0) as [->|Ho];
    rewrite ?Z.eqb_refl;
    try (apply Z.eqb_neq in Hl; rewrite Hl);
    try (apply Z.eqb_neq in Ho; rewrite Ho);
    simpl negb; cbv iota; simpl option_map; cbv iota;
    rewrite ?append_assoc; change (EmptyString +:+ ?x) with x;
    rewrite ?append_empty; reflexivity.
Qed.

(** C5. [QueryWithParams] sends the base query followed by the prefix
    clause exactly when the prefix is not empty, then the limit clause
    exactly when the limit is not zero, then the offset clause exactly
    when the offset is not zero.  [RawQuery] sends that composed statement
    only when a prefix is given, and the bare base query otherwise; either
    way it is the one call the backend receives. *)
Theorem C5_statement_composition (d : Datastore.t) (q : dsq.Query) (w : sql.World) :
  let composed :=
    compose (Datastore.queries d) (given_prefix q)
      (given (dsq.Limit q)) (given (dsq.Offset q)) in
  sql.trace (snd (Datastore.QueryWithParams d q w))
  = sql.trace w ++ [sql.CallQuery composed]
  /\ sql.trace (snd (Datastore.RawQuery d q w))
     = sql.trace w
         ++ [sql.CallQuery match given_prefix q with
                           | Some _ => composed
                           | None => Queries.Query (Datastore.queries d)
                           end].
Proof.
  intros composed. split.
  - rewrite QueryWithParams_statement. apply DB_Query_trace.
  - unfold Datastore.RawQuery, bind.
    rewrite QueryWithParams_statement. fold composed.
    set (m := if Datastore.nonempty (dsq.Prefix q) then _ else _).
    assert (Ht : sql.trace (snd (m w))
                 = sql.trace w
                     ++ [sql.CallQuery match given_prefix q with
                                       | Some _ => composed
                                       | None => Queries.Query (Datastore.queries d)
                                       end]).
    { subst m. unfold given_prefix.
      destruct (dsq.Prefix q) as [|c p]; simpl Datastore.nonempty; cbv iota;
        apply DB_Query_trace. }
    destruct (m w) as [[[rows [e|]]|v|c] w']; simpl in Ht |- *; try exact Ht.
    unfold ret.
    pose proof (scan_rows_pure rows [] w') as Hs.
    destruct (Datastore.scan_rows rows [] w') as [[es|v|c] w'']; simpl in Hs |- *;
      subst w''; exact Ht.
Qed.

(** The composed statement in the PostgreSQL dialect. *)
Lemma compose_postgres (tbl p : string) (l o : Z) :
  compose (queries.as_Queries (newQueries tbl)) (Some p) (Some l) (Some o)
  = "SELECT key, data FROM " +:+ tbl
      +:+ " WHERE key LIKE '" +:+ p +:+ "%' ORDER BY key"
      +:+ " LIMIT " +:+ fmt.itoa l
      +:+ " OFFSET " +:+ fmt.itoa o.
Proof.
  unfold compose, clause, fmt.Sprintf. simpl.
  unfold queries.Query. simpl.
  repeat rewrite ?append_cons, ?append_assoc, ?append_empty, ?append_nil.
  reflexivity.
Qed.

(** ** Transactions on the server *)

Lemma is_open_finish (tx : nat) (w : sql.World) : sql.is_open tx (sql.finish tx w) = false.
Proof.
  unfold sql.finish, sql.is_open.
  destruct (sql.txs w !! tx) as [t|] eqn:E; simpl.
  - rewrite list_lookup_insert_eq; [reflexivity|].
    now apply lookup_lt_Some in E.
  - now rewrite E.
Qed.

Lemma finish_keeps (tx : nat) (w : sql.World) :
  sql.trace (sql.finish tx w) = sql.trace w
  /\ sql.rows (sql.finish tx w) = sql.rows w
  /\ sql.tbl_name (sql.finish tx w) = sql.tbl_name w
  /\ sql.faults (sql.finish tx w) = sql.faults w
  /\ length (sql.txs (sql.finish tx w)) = length (sql.txs w).
Proof.
  unfold sql.finish. destruct (sql.txs w !! tx); simpl; repeat split.
  apply length_insert.
Qed.

Lemma is_done_finish (tx : nat) (w : sql.World) :
  (tx < length (sql.txs w))%nat -> is_done tx (sql.finish tx w) = true.
Proof.
  intros H. unfold sql.finish, is_done.
  destruct (sql.txs w !! tx) as [t|] eqn:E; simpl.
  - now rewrite list_lookup_insert_eq.
  - apply lookup_ge_None in E. lia.
Qed.

Lemma is_done_finish_mono (tx tx' : nat) (w : sql.World) :
  is_done tx' w = true -> is_done tx' (sql.finish tx w) = true.
Proof.
  unfold sql.finish, is_done.
  destruct (sql.txs w !! tx) as [t|] eqn:E; simpl; [|auto].
  destruct (decide (tx = tx')) as [->|Hne].
  - now rewrite list_lookup_insert_eq by (now apply lookup_lt_Some in E).
  - now rewrite list_lookup_insert_ne.
Qed.

Lemma is_done_add_write (tx tx' : nat) (x : sql.pending) (w : sql.World) :
  is_done tx' (sql.add_write tx x w) = is_done tx' w.
Proof.
  unfold sql.add_write, is_done.
  destruct (sql.txs w !! tx) as [t|] eqn:E; simpl; [|reflexivity].
  destruct (decide (tx = tx')) as [->|Hne].
  - rewrite list_lookup_insert_eq by (now apply lookup_lt_Some in E).
    now rewrite E.
  - now rewrite list_lookup_insert_ne.
Qed.

Lemma add_write_keeps (tx : nat) (x : sql.pending) (w : sql.World) :
  sql.rows (sql.add_write tx x w) = sql.rows w
  /\ length (sql.txs (sql.add_write tx x w)) = length (sql.txs w).
Proof.
  unfold sql.add_write. destruct (sql.txs w !! tx); simpl; repeat split.
  apply length_insert.
Qed.

Lemma is_done_not_open (tx : nat) (w : sql.World) :
  is_done tx w = true -> sql.is_open tx w = false.
Proof.
  unfold is_done, sql.is_open. destruct (sql.txs w !! tx) as [t|]; [|discriminate].
  now intros ->.
Qed.

Lemma not_open_is_done (tx : nat) (w : sql.World) :
  (tx < length (sql.txs w))%nat -> sql.is_open tx w = false -> is_done tx w = true.
Proof.
  unfold is_done, sql.is_open. intros Hlt.
  destruct (sql.txs w !! tx) as [t|] eqn:E.
  - now destruct (sql.tx_done t).
  - apply lookup_ge_None in E. lia.
Qed.


Lemma grows_refl (w : sql.World) : grows w w.
Proof. split; auto. Qed.

Lemma grows_trans (w1 w2 w3 : sql.World) : grows w1 w2 -> grows w2 w3 -> grows w1 w3.
Proof. intros [H1 L1] [H2 L2]. split; [auto|lia]. Qed.

Lemma grows_finish (tx : nat) (w : sql.World) : grows w (sql.finish tx w).
Proof.
  split; [intros tx'; apply is_done_finish_mono|].
  destruct (finish_keeps tx w) as (_ & _ & _ & _ & ->). lia.
Qed.

Lemma grows_same_txs (w w' : sql.World) : sql.txs w' = sql.txs w -> grows w w'.
Proof. intros H. unfold grows, is_done. rewrite H. auto. Qed.

Lemma next_outcome_txs (w : sql.World) : sql.txs (snd (sql.next_outcome w)) = sql.txs w.
Proof. unfold sql.next_outcome. now destruct (sql.faults w). Qed.

Lemma next_outcome_split (w : sql.World) :
  sql.next_outcome w = (fst (sql.next_outcome w), snd (sql.next_outcome w)).
Proof. now destruct (sql.next_outcome w). Qed.

Lemma Tx_Rollback_grows (tx : nat) (w : sql.World) : grows w (snd (sql.Tx_Rollback tx w)).
Proof.
  unfold sql.Tx_Rollback.
  destruct (sql.is_open tx _); [|now apply grows_same_txs].
  rewrite next_outcome_split.
  set (w1 := snd (sql.next_outcome _)).
  assert (G : grows w w1) by (apply grows_same_txs; subst w1; now rewrite next_outcome_txs).
  destruct (fst (sql.next_outcome _)); simpl; auto;
    eapply grows_trans; eauto using grows_finish.
Qed.

Lemma Tx_Rollback_finishes (tx : nat) (w : sql.World) (r : option error) :
  (tx < length (sql.txs w))%nat ->
  fst (sql.Tx_Rollback tx w) = Val r -> is_done tx (snd (sql.Tx_Rollback tx w)) = true.
Proof.
  intros Hlt. unfold sql.Tx_Rollback.
  destruct (sql.is_open tx _) eqn:Ho.
  - rewrite next_outcome_split.
    set (w1 := snd (sql.next_outcome _)).
    assert (L : (tx < length (sql.txs w1))%nat)
      by (subst w1; now rewrite next_outcome_txs).
    destruct (fst (sql.next_outcome _)); simpl; try discriminate;
      intros _; now apply is_done_finish.
  - intros _. simpl. now apply not_open_is_done.
Qed.

Lemma finish_rows (tx : nat) (w : sql.World) : sql.rows (sql.finish tx w) = sql.rows w.
Proof. apply finish_keeps. Qed.

Lemma finish_trace (tx : nat) (w : sql.World) : sql.trace (sql.finish tx w) = sql.trace w.
Proof. apply finish_keeps. Qed.

Lemma next_outcome_rows (w : sql.World) : sql.rows (snd (sql.next_outcome w)) = sql.rows w.
Proof. apply next_outcome_keeps. Qed.

Lemma next_outcome_trace (w : sql.World) : sql.trace (snd (sql.next_outcome w)) = sql.trace w.
Proof. apply next_outcome_keeps. Qed.

Lemma Tx_Rollback_rows (tx : nat) (w : sql.World) :
  sql.rows (snd (sql.Tx_Rollback tx w)) = sql.rows w.
Proof.
  unfold sql.Tx_Rollback.
  destruct (sql.is_open tx _); [|reflexivity].
  rewrite next_outcome_split.
  destruct (fst (sql.next_outcome _)); simpl;
    now rewrite ?finish_rows, next_outcome_rows.
Qed.

Lemma Tx_Rollback_trace (tx : nat) (w : sql.World) :
  sql.trace (snd (sql.Tx_Rollback tx w)) = sql.trace w ++ [sql.CallTxRollback tx].
Proof.
  unfold sql.Tx_Rollback.
  destruct (sql.is_open tx _); [|reflexivity].
  rewrite next_outcome_split.
  destruct (fst (sql.next_outcome _)); simpl;
    now rewrite ?finish_trace, next_outcome_trace.
Qed.

(** A rollback returns unless the server is scripted to crash on it. *)
Lemma Tx_Rollback_result (tx : nat) (w : sql.World) :
  (exists r, fst (sql.Tx_Rollback tx w) = Val r)
  \/ (exists v fs, sql.faults w = sql.Crash v :: fs
                   /\ fst (sql.Tx_Rollback tx w) = Panicked v).
Proof.
  unfold sql.Tx_Rollback, sql.next_outcome.
  destruct (sql.is_open tx _); [|left; eauto].
  simpl. destruct (sql.faults w) as [|[| |] fs]; simpl; eauto.
Qed.

Lemma Tx_Commit_grows (tx : nat) (w : sql.World) : grows w (snd (sql.Tx_Commit tx w)).
Proof.
  unfold sql.Tx_Commit.
  destruct (sql.is_open tx _); [|now apply grows_same_txs].
  rewrite next_outcome_split.
  set (w1 := snd (sql.next_outcome _)).
  assert (G : grows w w1) by (apply grows_same_txs; subst w1; now rewrite next_outcome_txs).
  destruct (fst (sql.next_outcome _)); simpl; auto.
  - eapply grows_trans; [exact G|].
    eapply grows_trans; [|apply grows_finish]. now apply grows_same_txs.
  - eapply grows_trans; eauto using grows_finish.
  - eapply grows_trans; eauto using grows_finish.
Qed.

Lemma Tx_Commit_finishes (tx : nat) (w : sql.World) (r : option error) :
  (tx < length (sql.txs w))%nat ->
  fst (sql.Tx_Commit tx w) = Val r -> is_done tx (snd (sql.Tx_Commit tx w)) = true.
Proof.
  intros Hlt. unfold sql.Tx_Commit.
  destruct (sql.is_open tx _) eqn:Ho.
  - rewrite next_outcome_split.
    set (w1 := snd (sql.next_outcome _)).
    assert (L : (tx < length (sql.txs w1))%nat)
      by (subst w1; now rewrite next_outcome_txs).
    destruct (fst (sql.next_outcome _)); simpl; try discriminate;
      intros _; now apply is_done_finish.
  - intros _. simpl. now apply not_open_is_done.
Qed.

Lemma Tx_Exec_grows (tx : nat) (stmt : string) (args : list sql.arg) (w : sql.World) :
  grows w (snd (sql.Tx_Exec tx stmt args w)).
Proof.
  unfold sql.Tx_Exec.
  destruct (sql.is_open tx _); [|now apply grows_same_txs].
  rewrite next_outcome_split.
  set (w1 := snd (sql.next_outcome _)).
  assert (G : grows w w1) by (apply grows_same_txs; subst w1; now rewrite next_outcome_txs).
  destruct (fst (sql.next_outcome _)); simpl; auto.
  destruct (sql.run_write _ _ _ _) as [[t n]|]; simpl; auto.
  eapply grows_trans; [exact G|]. split.
  - intros tx'. now rewrite is_done_add_write.
  - destruct (add_write_keeps tx (stmt, args) w1) as [_ ->]. lia.
Qed.

Lemma Tx_Exec_rows (tx : nat) (stmt : string) (args : list sql.arg) (w : sql.World) :
  sql.rows (snd (sql.Tx_Exec tx stmt args w)) = sql.rows w.
Proof.
  unfold sql.Tx_Exec.
  destruct (sql.is_open tx _); [|reflexivity].
  rewrite next_outcome_split.
  set (w1 := snd (sql.next_outcome _)).
  assert (G : sql.rows w1 = sql.rows w) by (subst w1; now rewrite next_outcome_rows).
  destruct (fst (sql.next_outcome _)); simpl; auto.
  destruct (sql.run_write _ _ _ _) as [[t n]|]; simpl; auto.
  now destruct (add_write_keeps tx (stmt, args) w1) as [-> _].
Qed.

(** [Begin] panics, fails without a transaction, or returns the next
    handle, which the backend then knows. *)
Lemma DB_Begin_result (w : sql.World) :
  grows w (snd (sql.DB_Begin w))
  /\ sql.rows (snd (sql.DB_Begin w)) = sql.rows w
  /\ ((exists v, fst (sql.DB_Begin w) = Panicked v)
      \/ (exists msg, fst (sql.DB_Begin w) = Val (None, Some (ErrBackend msg)))
      \/ (exists tx, fst (sql.DB_Begin w) = Val (Some tx, None)
                     /\ (tx < length (sql.txs (snd (sql.DB_Begin w))))%nat)).
Proof.
  unfold sql.DB_Begin, sql.next_outcome. simpl.
  destruct w as [tbl t txs fs tr]; simpl.
  destruct fs as [|[| |] fs]; simpl; (split; [|split; [reflexivity|]]);
    try (now apply grows_same_txs); eauto.
  all: try (right; right; eexists; split; [reflexivity|]; rewrite length_app; simpl; lia).
  all: split; simpl; [|rewrite length_app; simpl; lia];
    intros tx'; unfold is_done; simpl; intros H;
    destruct (txs !! tx') as [x|] eqn:E; try discriminate;
    now rewrite (lookup_app_l_Some _ _ _ _ E).
Qed.

(** The errors of the server are not the package's own. *)
Lemma Tx_Exec_error (tx : nat) (stmt : string) (args : list sql.arg) (w : sql.World)
    (n : Z) (e : error) :
  fst (sql.Tx_Exec tx stmt args w) = Val (n, Some e) -> e <> ErrInvalidType.
Proof.
  unfold sql.Tx_Exec.
  destruct (sql.is_open tx _); [|simpl; now intros [= _ <-]].
  rewrite next_outcome_split.
  destruct (fst (sql.next_outcome _)); simpl; try discriminate.
  - destruct (sql.run_write _ _ _ _) as [[t k]|]; simpl; [discriminate|now intros [= _ <-]].
  - now intros [= _ <-].
Qed.

Lemma DB_Exec_error (stmt : string) (args : list sql.arg) (w : sql.World)
    (n : Z) (e : error) :
  fst (sql.DB_Exec stmt args w) = Val (n, Some e) -> e <> ErrInvalidType.
Proof.
  unfold sql.DB_Exec.
  rewrite next_outcome_split.
  destruct (fst (sql.next_outcome _)); simpl; try discriminate.
  - destruct (sql.run_write _ _ _ _) as [[t k]|]; simpl; [discriminate|now intros [= _ <-]].
  - now intros [= _ <-].
Qed.

(** Without a scripted crash the calls of a transaction return. *)
Lemma no_crash_next (w : sql.World) :
  no_crash (sql.faults w) = true ->
  (forall v, fst (sql.next_outcome w) <> sql.Crash v)
  /\ no_crash (sql.faults (snd (sql.next_outcome w))) = true.
Proof.
  unfold sql.next_outcome. destruct (sql.faults w) as [|o fs] eqn:E; simpl.
  - intros _. split; [discriminate|now rewrite E].
  - destruct o; try discriminate; intros H; split; auto; discriminate.
Qed.

Lemma Tx_Rollback_returns (tx : nat) (w : sql.World) :
  no_crash (sql.faults w) = true -> exists r, fst (sql.Tx_Rollback tx w) = Val r.
Proof.
  intros H. destruct (Tx_Rollback_result tx w) as [Hr|(v & fs & Hf & _)]; [exact Hr|].
  rewrite Hf in H. discriminate.
Qed.

(** ** The batch *)

Lemma is_open_received (tx : nat) (c : sql.call) (w : sql.World) :
  sql.is_open tx (sql.received c w) = sql.is_open tx w.
Proof. reflexivity. Qed.

Lemma Tx_Exec_done (tx : nat) (stmt : string) (args : list sql.arg) (w : sql.World) :
  sql.is_open tx w = false ->
  sql.Tx_Exec tx stmt args w
  = (Val (0, Some ErrTxDone), sql.received (sql.CallTxExec tx stmt args) w).
Proof. intros H. unfold sql.Tx_Exec. now rewrite is_open_received, H. Qed.

Lemma Tx_Commit_done (tx : nat) (w : sql.World) :
  sql.is_open tx w = false ->
  sql.Tx_Commit tx w = (Val (Some ErrTxDone), sql.received (sql.CallTxCommit tx) w).
Proof. intros H. unfold sql.Tx_Commit. now rewrite is_open_received, H. Qed.

Lemma Tx_Rollback_done (tx : nat) (w : sql.World) :
  sql.is_open tx w = false ->
  sql.Tx_Rollback tx w = (Val (Some ErrTxDone), sql.received (sql.CallTxRollback tx) w).
Proof. intros H. unfold sql.Tx_Rollback. now rewrite is_open_received, H. Qed.

(** The deferred rollback after a body that returned [err], on a batch
    that holds a transaction. *)
Lemma rollbackTxn_returning (b : batch.t) (tx : nat) (w : sql.World) (e : error) :
  batch.txn b = Some tx ->
  batch.rollbackTxn false None (Some e) (b, w)
  = (match fst (sql.Tx_Rollback tx w) with
     | Val _ => Val None
     | Panicked v => Panicked v
     | Exited c => Exited c
     end, (b, snd (sql.Tx_Rollback tx w))).
Proof.
  intros Hb. run. rewrite Hb. run.
  now destruct (sql.Tx_Rollback tx w) as [[r|v|c] w'].
Qed.

Lemma rollbackTxn_nil (b : batch.t) (w : sql.World) (p : option panic_value) :
  batch.rollbackTxn false p None (b, w) = (Val p, (b, w)).
Proof. run. now destruct (batch.txn b). Qed.

Lemma rollbackTxn_no_transaction (b : batch.t) (w : sql.World)
    (p : option panic_value) (err : option error) :
  batch.txn b = None ->
  batch.rollbackTxn false p err (b, w) = (Val p, (b, w)).
Proof. intros Hb. run. now rewrite Hb. Qed.

(** A function with the deferred rollback that returns an error leaves
    the batch settled. *)
Lemma deferred_rollback_failure (body : M batch.S (option error)) (s s' : batch.S)
    (e : error) :
  (forall a s1, body s = (Val a, s1) -> known s1) ->
  batch.deferred_rollback body s = (Val (Some e), s') -> settled s' /\ known s'.
Proof.
  intros Hk. unfold batch.deferred_rollback, defer.
  destruct (body s) as [[[e1|]|v|c] [b1 w1]] eqn:Hbody.
  - specialize (Hk _ _ eq_refl). unfold known in Hk. simpl in Hk.
    destruct (batch.txn b1) as [tx|] eqn:Hb.
    + rewrite (rollbackTxn_returning b1 tx w1 _ Hb).
      pose proof (Tx_Rollback_finishes tx w1) as Hf.
      pose proof (Tx_Rollback_grows tx w1) as [_ Hg].
      destruct (sql.Tx_Rollback tx w1) as [[r|v|c] w2]; simpl in *; try discriminate.
      intros [= <- <-]. unfold settled, known. simpl. rewrite Hb.
      split; [eapply Hf; eauto|lia].
    + rewrite rollbackTxn_no_transaction by exact Hb.
      intros [= <- <-]. unfold settled, known. simpl. now rewrite Hb.
  - rewrite rollbackTxn_nil. discriminate.
  - rewrite rollbackTxn_nil. discriminate.
  - discriminate.
Qed.

Lemma GetTransaction_shape (s : batch.S) :
  sql.rows (snd (snd (batch.GetTransaction s))) = sql.rows (snd s)
  /\ match fst (batch.GetTransaction s) with
     | Val (Some tx, None) => batch.txn (fst (snd (batch.GetTransaction s))) = Some tx
     | Val (None, Some e) =>
         e <> ErrInvalidType /\ batch.txn (fst (snd (batch.GetTransaction s))) = None
     | Val _ => False
     | _ => True
     end.
Proof.
  destruct s as [b w]. simpl.
  run. destruct (batch.txn b) as [tx|] eqn:Hb; run.
  - rewrite Hb. auto.
  - destruct (DB_Begin_result w) as (_ & Hr & [[v Hv]|[[e He]|[tx [Htx Hlt]]]]);
      destruct (sql.DB_Begin w) as [r w1]; simpl in *; subst r; run; rewrite ?Hb; auto.
Qed.

Lemma GetTransaction_known (s : batch.S) :
  known s -> known (snd (batch.GetTransaction s)).
Proof.
  destruct s as [b w]. unfold known. simpl. intros Hk.
  run. destruct (batch.txn b) as [tx|] eqn:Hb; run.
  - now rewrite Hb.
  - destruct (DB_Begin_result w) as (_ & Hr & [[v Hv]|[[e He]|[tx [Htx Hlt]]]]);
      destruct (sql.DB_Begin w) as [r w1]; simpl in *; subst r; run; rewrite ?Hb; auto.
Qed.

(** The bodies of [Put] and [Delete]: what they return and where they
    leave the batch. *)
Lemma Put_body (key : Key) (val : GoBytes) (s s1 : batch.S) (a : option error) :
  match val with
  | None => ret (Some ErrInvalidType)
  | Some v =>
      let* '(txn, err) := batch.GetTransaction in
      match err with
      | Some e => ret (Some e)
      | None =>
          let* b := batch.self in
          let* '(_, err) :=
            batch.on_tx txn (fun tx =>
              sql.Tx_Exec tx (Queries.Put (batch.queries b))
                [sql.Text (Key_String key); sql.Blob v]) in
          match err with
          | Some e => ret (Some e)
          | None => ret None
          end
      end
  end s = (Val a, s1) ->
  (known s -> known s1)
  /\ (a = Some ErrInvalidType -> val = None)
  /\ sql.rows (snd s1) = sql.rows (snd s).
Proof.
  destruct val as [v|].
  - unfold bind at 1.
    pose proof (GetTransaction_known s) as Hk1.
    destruct (GetTransaction_shape s) as (Hrows & Hr).
    destruct (batch.GetTransaction s) as [[[[tx|] [e|]]|p|c] [b1 w1]]; simpl in *;
      try contradiction; try (intros; discriminate).
    + run.
      pose proof (Tx_Exec_grows tx (Queries.Put (batch.queries b1))
                    [sql.Text (Key_String key); sql.Blob v] w1) as [_ Hg].
      pose proof (Tx_Exec_error tx (Queries.Put (batch.queries b1))
                    [sql.Text (Key_String key); sql.Blob v] w1) as He.
      pose proof (Tx_Exec_rows tx (Queries.Put (batch.queries b1))
                    [sql.Text (Key_String key); sql.Blob v] w1) as Hx.
      destruct (sql.Tx_Exec tx _ _ w1) as [[[n [e|]]|p|c] w2]; simpl in *;
        try discriminate; intros [= <- <-]; unfold known in *; simpl in *;
        rewrite Hr in *; (split; [intros K; specialize (Hk1 K); lia|]);
        (split; [|congruence]); try discriminate.
      intros [= ->]. now destruct (He n ErrInvalidType eq_refl).
    + destruct Hr as [Hne Hb]. unfold ret. intros [= <- <-].
      split; [exact Hk1|]. split; [now intros [= ->]|exact Hrows].
  - unfold ret. intros [= <- <-]. auto.
Qed.

Lemma Delete_body (key : Key) (s s1 : batch.S) (a : option error) :
  (let* '(txn, err) := batch.GetTransaction in
   match err with
   | Some e => ret (Some e)
   | None =>
       let* b := batch.self in
       let* '(_, err) :=
         batch.on_tx txn (fun tx =>
           sql.Tx_Exec tx (Queries.Delete (batch.queries b)) [sql.Text (Key_String key)]) in
       match err with
       | Some e => ret (Some e)
       | None => ret err
       end
   end) s = (Val a, s1) ->
  (known s -> known s1) /\ sql.rows (snd s1) = sql.rows (snd s).
Proof.
  unfold bind at 1.
  pose proof (GetTransaction_known s) as Hk1.
  destruct (GetTransaction_shape s) as (Hrows & Hr).
  destruct (batch.GetTransaction s) as [[[[tx|] [e|]]|p|c] [b1 w1]]; simpl in *;
    try contradiction; try (intros; discriminate).
  - run.
    pose proof (Tx_Exec_grows tx (Queries.Delete (batch.queries b1))
                  [sql.Text (Key_String key)] w1) as [_ Hg].
    pose proof (Tx_Exec_rows tx (Queries.Delete (batch.queries b1))
                  [sql.Text (Key_String key)] w1) as Hx.
    destruct (sql.Tx_Exec tx _ _ w1) as [[[n [e|]]|p|c] w2]; simpl in *;
      try discriminate; intros [= <- <-]; unfold known in *; simpl in *;
      rewrite Hr in *; (split; [intros K; specialize (Hk1 K); lia|congruence]).
  - unfold ret. intros [= <- <-]. split; [exact Hk1|exact Hrows].
Qed.

(** What the deferred rollback lets through: a value the body returned. *)
Lemma deferred_rollback_returns (body : M batch.S (option error)) (s s' : batch.S)
    (a : option error) :
  batch.deferred_rollback body s = (Val a, s') -> exists s1, body s = (Val a, s1).
Proof.
  unfold batch.deferred_rollback, defer.
  destruct (body s) as [[[e1|]|v|c] [b1 w1]] eqn:Hbody.
  - destruct (batch.txn b1) as [tx|] eqn:Hb.
    + rewrite (rollbackTxn_returning b1 tx w1 _ Hb).
      destruct (sql.Tx_Rollback tx w1) as [[r|v|c] w2]; simpl; try discriminate.
      intros [= <- <-]. eauto.
    + rewrite rollbackTxn_no_transaction by exact Hb. intros [= <- <-]. eauto.
  - rewrite rollbackTxn_nil. intros [= <- <-]. eauto.
  - rewrite rollbackTxn_nil. discriminate.
  - discriminate.
Qed.

(** Rollback on failure: a batch operation that returns an error leaves
    the batch without an open transaction. *)
Lemma failure_settles (o : batch_op) (s s' : batch.S) (e : error) :
  known s -> invoke o s = (Val (Some e), s') -> settled s' /\ known s'.
Proof.
  intros Hk. destruct o as [key val|key|]; simpl.
  - unfold batch.Put. intros H.
    eapply deferred_rollback_failure; [|exact H].
    intros a s1 Hb. now apply (Put_body _ _ _ _ _ Hb).
  - unfold batch.Delete. intros H.
    eapply deferred_rollback_failure; [|exact H].
    intros a s1 Hb. now apply (Delete_body _ _ _ _ Hb).
  - destruct s as [b w]. unfold known, settled in *. simpl in Hk.
    run. destruct (batch.txn b) as [tx|] eqn:Hb; run; [|discriminate].
    pose proof (Tx_Commit_finishes tx w) as Hf.
    pose proof (Tx_Commit_grows tx w) as [_ Hg].
    destruct (sql.Tx_Commit tx w) as [[[e1|]|v|c] w1]; simpl in *; try discriminate.
    pose proof (Tx_Rollback_grows tx w1) as [Hd Hg2].
    destruct (sql.Tx_Rollback tx w1) as [[r|v|c] w2]; simpl in *; try discriminate.
    intros [= <- <-]. simpl. rewrite Hb. split; [|lia].
    apply Hd. eapply Hf; eauto.
Qed.

(** A commit that returns, with or without error, leaves the batch
    settled. *)
Lemma Commit_settles (s s' : batch.S) (r : option error) :
  known s -> batch.Commit s = (Val r, s') -> settled s' /\ known s'.
Proof.
  intros Hk. destruct r as [e|]; [apply (failure_settles OpCommit); exact Hk|].
  destruct s as [b w]. unfold known, settled in *. simpl in Hk.
  run. destruct (batch.txn b) as [tx|] eqn:Hb; run.
  - pose proof (Tx_Commit_finishes tx w) as Hf.
    pose proof (Tx_Commit_grows tx w) as [_ Hg].
    destruct (sql.Tx_Commit tx w) as [[[e1|]|v|c] w1]; simpl in *; try discriminate.
    + destruct (sql.Tx_Rollback tx w1) as [[r|v|c] w2]; simpl in *; discriminate.
    + intros [= <-]. simpl. rewrite Hb. split; [eapply Hf; eauto|lia].
  - intros [= <-]. simpl. now rewrite Hb.
Qed.

(** On a batch whose transaction is done, every operation returns an
    error and changes neither the batch nor a row. *)
Lemma invoke_done (o : batch_op) (b : batch.t) (tx : nat) (w : sql.World) :
  batch.txn b = Some tx -> sql.is_open tx w = false ->
  exists e w', invoke o (b, w) = (Val (Some e), (b, w'))
    /\ sql.txs w' = sql.txs w /\ sql.rows w' = sql.rows w.
Proof.
  intros Hb Ho. destruct o as [key [v|]|key|]; simpl; run; rewrite Hb; run.
  - rewrite Tx_Exec_done by exact Ho. run. rewrite Hb; run.
    rewrite Tx_Rollback_done by exact Ho. run. eauto.
  - rewrite Tx_Rollback_done by exact Ho. run. eauto.
  - rewrite Tx_Exec_done by exact Ho. run. rewrite Hb; run.
    rewrite Tx_Rollback_done by exact Ho. run. eauto.
  - rewrite Tx_Commit_done by exact Ho. run.
    rewrite Tx_Rollback_done by exact Ho. run. eauto.
Qed.

(** C8. Once the transaction of a batch is done, committed or rolled back,
    every later [Put], [Delete] and [Commit] on that batch returns an
    error, however many follow and in whatever order. *)
Theorem C8_finished_batch_rejects (b : batch.t) (tx : nat) (w : sql.World)
    (ops : list batch_op) :
  batch.txn b = Some tx ->
  is_done tx w = true ->
  Forall (fun r => exists e, r = Val (Some e)) (invoke_all ops (b, w)).
Proof.
  intros Hb. revert w. induction ops as [|o ops IH]; intros w Hd; simpl; [constructor|].
  destruct (invoke_done o b tx w Hb (is_done_not_open _ _ Hd)) as (e & w' & Hi & Ht & _).
  rewrite Hi. constructor; [eauto|].
  apply IH. unfold is_done in *. now rewrite Ht.
Qed.

Lemma C8_witness :
  let s := snd (batch.Commit open_batch) in
  let ops := [OpPut (RawKey "/b") (Some (list_byte_of_string "y"));
              OpDelete (RawKey "/a"); OpCommit; OpPut (RawKey "/c") None] in
  batch.txn (fst s) = Some 0%nat
  /\ is_done 0 (snd s) = true
  /\ Forall (fun r => exists e, r = Val (Some e)) (invoke_all ops s).
Proof.
  split; [reflexivity|]. split; [reflexivity|].
  exact (C8_finished_batch_rejects (fst (snd (batch.Commit open_batch))) 0
           (snd (snd (batch.Commit open_batch))) _ eq_refl eq_refl).
Defined.

(** ** Absent values *)


Lemma Datastore_Put_present (d : Datastore.t) (key : Key) (v : bytes) (w : sql.World) :
  fst (Datastore.Put d key (Some v) w) <> Val (Some ErrInvalidType).
Proof.
  unfold Datastore.Put, bind.
  pose proof (DB_Exec_error (Queries.Put (Datastore.queries d))
                [sql.Text (Key_String key); sql.Blob v] w) as He.
  destruct (sql.DB_Exec _ _ w) as [[[n [e|]]|p|c] w1]; simpl in *; try discriminate.
  intros [= ->]. now destruct (He n ErrInvalidType eq_refl).
Qed.

Lemma batch_Put_absent (b : batch.t) (key : Key) (w : sql.World) :
  match batch.txn b with
  | None => batch.Put key None (b, w) = (Val (Some ErrInvalidType), (b, w))
  | Some tx =>
      exists r w',
        batch.Put key None (b, w) = (r, (b, w'))
        /\ sql.rows w' = sql.rows w
        /\ sql.trace w' = sql.trace w ++ [sql.CallTxRollback tx]
        /\ (r = Val (Some ErrInvalidType)
            \/ exists v fs, sql.faults w = sql.Crash v :: fs /\ r = Panicked v)
  end.
Proof.
  destruct (batch.txn b) as [tx|] eqn:Hb.
  - unfold batch.Put, batch.deferred_rollback, defer. unfold ret at 1.
    rewrite (rollbackTxn_returning b tx w _ Hb).
    pose proof (Tx_Rollback_rows tx w) as Hr.
    pose proof (Tx_Rollback_trace tx w) as Ht.
    destruct (Tx_Rollback_result tx w) as [[r Hv]|(v & fs & Hf & Hv)];
      destruct (sql.Tx_Rollback tx w) as [r' w1]; simpl in *; subst r';
      eexists _, w1; (split; [reflexivity|]); eauto 8.
  - unfold batch.Put, batch.deferred_rollback, defer. unfold ret at 1.
    now rewrite rollbackTxn_no_transaction by exact Hb.
Qed.



Lemma DB_Begin_answered (n : nat) (w : sql.World) :
  proceeds (S n) (sql.faults w) = true ->
  exists w',
    sql.DB_Begin w = (Val (Some (length (sql.txs w)), None), w')
    /\ sql.is_open (length (sql.txs w)) w' = true
    /\ proceeds n (sql.faults w') = true
    /\ sql.tbl_name w' = sql.tbl_name w.
Proof.
  unfold sql.DB_Begin, sql.next_outcome, sql.is_open.
  destruct w as [tbl t txs fs tr]; simpl.
  destruct fs as [|[| |] fs]; simpl; try discriminate; intros Hp;
    eexists; (split; [reflexivity|]); simpl;
    rewrite list_lookup_middle by reflexivity; simpl; repeat split; auto.
  now destruct n.
Qed.

Lemma Tx_Exec_Put_answered (tx : nat) (k : string) (v : bytes) (w : sql.World) :
  sql.is_open tx w = true ->
  proceeds 1 (sql.faults w) = true ->
  exists n w',
    sql.Tx_Exec tx (queries.Put (newQueries (sql.tbl_name w))) [sql.Text k; sql.Blob v] w
    = (Val (n, None), w').
Proof.
  intros Ho Hp. unfold sql.Tx_Exec. rewrite is_open_received, Ho.
  unfold sql.next_outcome.
  destruct w as [tbl t txs fs tr]; simpl in *.
  destruct fs as [|[| |] fs]; simpl in *; try discriminate;
    rewrite run_write_Put;
    destruct (sql.insert_if_absent _ _ _) as [t' n]; eauto.
Qed.

(** C10. Both puts return [ErrInvalidType] exactly when the value is nil
    (for the batch: on a server not scripted to crash, so that the
    deferred rollback returns).  An empty, non-nil value is a valid write:
    on a server that answers, the facade stores it under a key not yet
    there and returns nil, and so does a fresh batch, which records the
    write in its transaction. *)
Theorem C10_InvalidValue_iff_nil (d : Datastore.t) (b : batch.t) (key : Key)
    (val : GoBytes) (w : sql.World) :
  no_crash (sql.faults w) = true ->
  (fst (Datastore.Put d key val w) = Val (Some ErrInvalidType) <-> val = None)
  /\ (fst (batch.Put key val (b, w)) = Val (Some ErrInvalidType) <-> val = None)
  /\ (proceeds 2 (sql.faults w) = true ->
      sql.lookup (Key_String key) (sql.rows w) = None ->
      (exists w', Datastore.Put (store_of w) key (Some []) w = (Val None, w')
                  /\ sql.lookup (Key_String key) (sql.rows w') = Some [])
      /\ (exists s', batch.Put key (Some []) (fst (Datastore.Batch (store_of w)), w)
                     = (Val None, s'))).
Proof.
  intros Hnc. split; [|split].
  - split.
    + destruct val as [v|]; [|reflexivity].
      intros H. now destruct (Datastore_Put_present d key v w).
    + intros ->. reflexivity.
  - split.
    + intros H.
      destruct (batch.Put key val (b, w)) as [r s'] eqn:HP. simpl in H. subst r.
      unfold batch.Put in HP. apply deferred_rollback_returns in HP as [s1 HP].
      now apply (Put_body _ _ _ _ _ HP).
    + intros ->.
      pose proof (batch_Put_absent b key w) as H.
      destruct (batch.txn b) as [tx|]; [|now rewrite H].
      destruct H as (r & w' & -> & _ & _ & [->|(v & fs & Hf & _)]); [reflexivity|].
      rewrite Hf in Hnc. discriminate.
  - intros Hp Hk. split.
    + destruct (Put_answered w key (proceeds_weaken _ _ Hp) []) as (w' & HP & _ & _ & Hr).
      exists w'. split; [exact HP|].
      rewrite Hr. unfold sql.insert_if_absent. rewrite Hk. simpl.
      now apply lookup_app_absent.
    + destruct (DB_Begin_answered 1 w Hp) as (w1 & HB & Ho & Hp1 & Ht).
      destruct (Tx_Exec_Put_answered (length (sql.txs w)) (Key_String key) [] w1 Ho Hp1)
        as (n & w2 & HE).
      rewrite Ht in HE.
      run. rewrite HB. run. rewrite HE. run. eauto.
Qed.

Lemma C10_witness :
  let w := sql.MkWorld "kv" [] [] [sql.Proceed; sql.Fail "connection lost"] [] in
  let b := fst (Datastore.Batch (store_of w)) in
  no_crash (sql.faults w) = true
  /\ fst (Datastore.Put (store_of w) (RawKey "/k") (Some []) w) <> Val (Some ErrInvalidType)
  /\ fst (batch.Put (RawKey "/k") None (b, w)) = Val (Some ErrInvalidType).
Proof.
  pose (w := sql.MkWorld "kv" [] [] [sql.Proceed; sql.Fail "connection lost"] []).
  pose (b := fst (Datastore.Batch (store_of w))).
  split; [reflexivity|]. split.
  - intros H.
    apply (proj1 (C10_InvalidValue_iff_nil (store_of w) b (RawKey "/k") (Some []) w eq_refl))
      in H.
    discriminate.
  - now apply (proj1 (proj2 (C10_InvalidValue_iff_nil (store_of w) b (RawKey "/k") None w
                               eq_refl))).
Defined.

(** ** Panics in a batch *)

(** C3, where the code departs from it.  The batch holds an open
    transaction and the server crashes while the put is executed: the
    panic reaches the caller unchanged, but [recover], called from
    [rollbackTxn] and not from the deferred function itself, yields nil,
    so no rollback is issued and the transaction stays open. *)
Theorem C3_panic_leaves_transaction_open :
  let s := scripted [sql.Crash "driver panic"] open_batch in
  exists s',
    batch.Put (RawKey "/b") (Some (list_byte_of_string "y")) s = (Panicked "driver panic", s')
    /\ batch.txn (fst s') = Some 0%nat
    /\ sql.is_open 0 (snd s') = true
    /\ sql.trace (snd s')
       = sql.trace (snd s)
           ++ [sql.CallTxExec 0 (Queries.Put (batch.queries (fst s)))
                 [sql.Text "/b"; sql.Blob (list_byte_of_string "y")]].
Proof.
  eexists. repeat split; reflexivity.
Qed.

(** Had [rollbackTxn] been the deferred function itself, the same panic
    would have been recovered, the transaction rolled back, and the panic
    raised again. *)
Lemma rollbackTxn_when_deferred_directly :
  let s := scripted [sql.Crash "driver panic"] open_batch in
  let body := batch.on_tx (Some 0%nat) (fun tx =>
                sql.Tx_Exec tx (Queries.Put (batch.queries (fst s)))
                  [sql.Text "/b"; sql.Blob (list_byte_of_string "y")]) in
  exists s',
    defer (0, None) (fun panicking r => batch.rollbackTxn true panicking (snd r)) body s
    = (Panicked "driver panic", s')
    /\ is_done 0 (snd s') = true.
Proof.
  eexists. split; reflexivity.
Qed.


(** ** Queries *)

Lemma scan_rows_table (t : sql.table) (acc : list dsq.Entry) (w : sql.World) :
  Datastore.scan_rows (map cells t) acc w
  = (Val (acc ++ map row_entry t), w).
Proof.
  revert acc. induction t as [|[k v] t IH]; intros acc; simpl.
  - now rewrite app_nil_r.
  - rewrite IH. now rewrite <- app_assoc.
Qed.

Lemma client_side_Rest (fs : list dsq.Filter) (os : list dsq.Order) (q : dsq.Query)
    (l : list dsq.Entry) :
  dsq.Rest (dsq.NaiveOrder (fold_left dsq.NaiveFilter fs (dsq.MkResults q l)) os)
  = client_side fs os l.
Proof.
  assert (H : forall l, fold_left dsq.NaiveFilter fs (dsq.MkResults q l)
                        = dsq.MkResults q (fold_left (fun l f => List.filter f l) fs l)).
  { induction fs as [|f fs IH]; intros l'; simpl; [reflexivity|].
    unfold dsq.NaiveFilter at 2. simpl. apply IH. }
  rewrite H. unfold client_side, dsq.NaiveOrder. now destruct os.
Qed.

(** The select of the provider with its clauses, on a table. *)
Lemma eval_Query (pat : option string) (lim off : option Z) (t : sql.table) :
  sql.eval_selection [] (sel_Query pat lim off) t
  = option_map (map cells) (select_rows pat lim off t).
Proof.
  unfold sql.eval_selection, sel_Query, select_rows.
  cbn [sql.sel_from sql.sel_where sql.sel_order sql.sel_limit sql.sel_offset sql.sel_items].
  destruct pat as [p|]; cbn [option_map].
  - rewrite (keep_total _ (fun r => sql.like p (fst r))) by reflexivity.
    cbn [sql.order_by].
    destruct (sql.slice lim off _) as [cut|]; [|reflexivity].
    now rewrite (traverse_total _ cells).
  - rewrite (keep_total _ (fun _ => true)) by reflexivity.
    rewrite forallb_filter_id by now apply forallb_forall.
    destruct (sql.slice lim off _) as [cut|]; [|reflexivity].
    now rewrite (traverse_total _ cells).
Qed.

Lemma run_select_Query (tbl tail : string) (pat : option string) (lim off : option Z)
    (t : sql.table) :
  sql.parse_clauses tbl all_columns true tail = Some (sel_Query pat lim off, EmptyString) ->
  sql.run_select tbl (queries.Query (newQueries tbl) +:+ tail) t
  = option_map (fun u => (t, map cells u)) (select_rows pat lim off t).
Proof.
  intros Hparse. unfold sql.run_select.
  rewrite (run_one _ _ (sql.StSelect (sel_Query pat lim off)))
    by (apply parse_single; now rewrite parse_select, Hparse).
  unfold sql.exec. rewrite eval_Query.
  now destruct (select_rows pat lim off t).
Qed.

(** A select the server accepts, on a server that answers. *)
Lemma DB_Query_select (w : sql.World) (tail : string)
    (pat : option string) (lim off : option Z) (t : sql.table) :
  proceeds 1 (sql.faults w) = true ->
  sql.parse_clauses (sql.tbl_name w) all_columns true tail
  = Some (sel_Query pat lim off, EmptyString) ->
  select_rows pat lim off (sql.rows w) = Some t ->
  exists w',
    sql.DB_Query (queries.Query (newQueries (sql.tbl_name w)) +:+ tail) w
    = (Val (map cells t, None), w')
    /\ sql.rows w' = sql.rows w.
Proof.
  intros Hp Hparse Hsel. unfold sql.DB_Query, sql.next_outcome.
  destruct w as [tbl rows txs fs tr]; simpl in *.
  destruct fs as [|[| |] fs]; simpl in *; try discriminate;
    rewrite (run_select_Query _ _ _ _ _ _ Hparse), Hsel; simpl; eauto.
Qed.

(** Without a prefix the query is the full scan followed by the
    client-side stage; the limit and the offset of the descriptor take no
    part in it. *)
Lemma Query_full_scan (w : sql.World) (q : dsq.Query) :
  proceeds 1 (sql.faults w) = true ->
  dsq.Prefix q = EmptyString ->
  entries_of (Datastore.Query (store_of w) q w)
  = Some (client_side (dsq.Filters q) (dsq.Orders q) (map row_entry (sql.rows w))).
Proof.
  intros Hp Hq.
  destruct (DB_Query_select w EmptyString None None None (sql.rows w) Hp eq_refl eq_refl)
    as (w' & HQ & _).
  rewrite append_empty in HQ.
  unfold entries_of, Datastore.Query, Datastore.RawQuery, bind. rewrite Hq. simpl.
  rewrite HQ. rewrite scan_rows_table. simpl.
  unfold dsq.ResultsWithEntries. now rewrite client_side_Rest.
Qed.

(** With the prefix ["a/"] alone the query is pushed down. *)
Lemma Query_pushdown_example (w : sql.World) :
  proceeds 1 (sql.faults w) = true ->
  entries_of (Datastore.Query (store_of w) (dsq.MkQuery "a/" [] [] 0 0) w)
  = Some (map row_entry
            (sql.order_by_key (List.filter (fun r => sql.like "a/%" (fst r)) (sql.rows w)))).
Proof.
  intros Hp.
  destruct (DB_Query_select w " WHERE key LIKE 'a/%' ORDER BY key" (Some "a/%") None None
              _ Hp eq_refl eq_refl) as (w' & HQ & _).
  unfold entries_of, Datastore.Query, Datastore.RawQuery, Datastore.QueryWithParams, bind.
  simpl.
  change (fmt.Sprintf _ _) with " WHERE key LIKE 'a/%' ORDER BY key".
  rewrite HQ. rewrite scan_rows_table. reflexivity.
Qed.

Lemma example_rows_orders (t : sql.table) :
  Permutation t example_rows ->
  exists x y z, t = [x; y; z] /\ In x example_rows /\ In y example_rows /\ In z example_rows
                /\ x <> y /\ x <> z /\ y <> z.
Proof.
  intros H.
  pose proof (Permutation_length H) as Hl.
  destruct t as [|x [|y [|z [|? ?]]]]; try discriminate.
  assert (Hnd : List.NoDup [x; y; z]).
  { apply (Permutation.Permutation_NoDup (Permutation_sym H)).
    unfold example_rows. repeat constructor; simpl; intuition discriminate. }
  exists x, y, z. split; [reflexivity|].
  repeat split; try (apply (Permutation_in _ H); simpl; auto).
  all: inversion Hnd as [|? ? Hx Hyz]; inversion Hyz as [|? ? Hy Hz]; subst;
    simpl in *; intuition congruence.
Qed.

(** C4. A table holding exactly the rows a/1:v1, a/2:v2 and b/1:v3, in
    any physical order, on a server that answers: the query with prefix
    ["a/"], which is pushed down through the composed [LIKE] statement,
    returns exactly a/1:v1 and a/2:v2; the full scan followed by the
    client-side prefix filter returns the same entries, in the order the
    table stores them, which is the same sequence when the rows are
    stored in key order. *)
Theorem C4_prefix_query_paths_agree (w : sql.World) :
  proceeds 1 (sql.faults w) = true ->
  Permutation (sql.rows w) example_rows ->
  let expected := [entry "a/1" "v1"; entry "a/2" "v2"] in
  entries_of (Datastore.Query (store_of w) (dsq.MkQuery "a/" [] [] 0 0) w) = Some expected
  /\ exists scanned,
       entries_of (Datastore.Query (store_of w)
                     (dsq.MkQuery EmptyString [dsq.FilterKeyPrefix "a/"] [] 0 0) w)
       = Some scanned
       /\ Permutation scanned expected
       /\ (sql.rows w = example_rows -> scanned = expected).
Proof.
  intros Hp Hperm expected.
  rewrite (Query_pushdown_example w Hp).
  rewrite (Query_full_scan w (dsq.MkQuery EmptyString [dsq.FilterKeyPrefix "a/"] [] 0 0)
             Hp eq_refl).
  simpl dsq.Filters. simpl dsq.Orders.
  destruct (example_rows_orders _ Hperm) as (x & y & z & -> & Hx & Hy & Hz & Hxy & Hxz & Hyz).
  unfold example_rows in Hx, Hy, Hz. simpl in Hx, Hy, Hz.
  destruct Hx as [<-|[<-|[<-|[]]]]; destruct Hy as [<-|[<-|[<-|[]]]];
    try congruence;
    destruct Hz as [<-|[<-|[<-|[]]]]; try congruence;
    (split; [reflexivity|]); eexists; (split; [reflexivity|]);
    (split; [|try reflexivity; discriminate]);
    first [ apply Permutation_refl | apply perm_swap ].
Qed.

Lemma C4_witness :
  let w := sql.MkWorld "kv"
             [("b/1", list_byte_of_string "v3");
              ("a/2", list_byte_of_string "v2");
              ("a/1", list_byte_of_string "v1")] [] [] [] in
  let expected := [entry "a/1" "v1"; entry "a/2" "v2"] in
  proceeds 1 (sql.faults w) = true
  /\ Permutation (sql.rows w) example_rows
  /\ entries_of (Datastore.Query (store_of w) (dsq.MkQuery "a/" [] [] 0 0) w) = Some expected
  /\ exists scanned,
       entries_of (Datastore.Query (store_of w)
                     (dsq.MkQuery EmptyString [dsq.FilterKeyPrefix "a/"] [] 0 0) w)
       = Some scanned
       /\ Permutation scanned expected
       /\ (sql.rows w = example_rows -> scanned = expected).
Proof.
  assert (Hperm : Permutation
                    [("b/1", list_byte_of_string "v3");
                     ("a/2", list_byte_of_string "v2");
                     ("a/1", list_byte_of_string "v1")] example_rows).
  { unfold example_rows.
    eapply perm_trans; [apply perm_swap|].
    eapply perm_trans; [apply perm_skip, perm_swap|].
    eapply perm_trans; [apply perm_swap|]. apply Permutation_refl. }
  split; [reflexivity|]. split; [exact Hperm|].
  exact (C4_prefix_query_paths_agree
           (sql.MkWorld "kv"
              [("b/1", list_byte_of_string "v3");
               ("a/2", list_byte_of_string "v2");
               ("a/1", list_byte_of_string "v1")] [] [] []) eq_refl Hperm).
Defined.

(** ** Limit and offset without a prefix *)

(** On the path without prefix the limit and the offset of the descriptor
    change nothing in the entries returned. *)
Lemma Query_without_prefix_ignores_window (w : sql.World) (fs : list dsq.Filter)
    (os : list dsq.Order) (limit offset : Z) :
  proceeds 1 (sql.faults w) = true ->
  entries_of (Datastore.Query (store_of w) (dsq.MkQuery EmptyString fs os limit offset) w)
  = entries_of (Datastore.Query (store_of w) (dsq.MkQuery EmptyString fs os 0 0) w).
Proof.
  intros Hp.
  rewrite (Query_full_scan w (dsq.MkQuery EmptyString fs os limit offset) Hp eq_refl).
  now rewrite (Query_full_scan w (dsq.MkQuery EmptyString fs os 0 0) Hp eq_refl).
Qed.

(** C2, where the code departs from it.  On the table of the example,
    stored in key order, the query without prefix and with limit 1 returns
    all three entries: the window of the descriptor would keep the first
    one only.  The same limit with a prefix is pushed down and honoured. *)
Theorem C2_limit_dropped_without_prefix :
  let w := sql.MkWorld "kv" example_rows [] [] [] in
  let q := dsq.MkQuery EmptyString [] [] 1 0 in
  let all := [entry "a/1" "v1"; entry "a/2" "v2"; entry "b/1" "v3"] in
  entries_of (Datastore.Query (store_of w) q w) = Some all
  /\ window (dsq.Limit q) (dsq.Offset q) all = [entry "a/1" "v1"]
  /\ sql.trace (snd (Datastore.Query (store_of w) q w))
     = [sql.CallQuery "SELECT key, data FROM kv"]
  /\ entries_of (Datastore.Query (store_of w) (dsq.MkQuery "a/" [] [] 1 0) w)
     = Some [entry "a/1" "v1"].
Proof.
  repeat split; reflexivity.
Qed.

(** The same with an offset: nothing is skipped. *)
Lemma offset_dropped_without_prefix :
  let w := sql.MkWorld "kv" example_rows [] [] [] in
  let q := dsq.MkQuery EmptyString [] [] 0 2 in
  let all := [entry "a/1" "v1"; entry "a/2" "v2"; entry "b/1" "v3"] in
  entries_of (Datastore.Query (store_of w) q w) = Some all
  /\ window (dsq.Limit q) (dsq.Offset q) all = [entry "b/1" "v3"].
Proof.
  split; reflexivity.
Qed.

(** * Further properties of the code *)

(** ** The table *)

Lemma lookup_app (k : string) (t u : sql.table) :
  sql.lookup k (t ++ u)
  = match sql.lookup k t with Some v => Some v | None => sql.lookup k u end.
Proof.
  induction t as [|[k' v] t IH]; simpl; [reflexivity|].
  now destruct (String.eqb k k').
Qed.

Lemma lookup_delete_same (k : string) (t : sql.table) :
  sql.lookup k (fst (sql.delete_key k t)) = None.
Proof.
  simpl. induction t as [|[k' v] t IH]; simpl; [reflexivity|].
  destruct (String.eqb k k') eqn:E; simpl; [exact IH|]. now rewrite E.
Qed.

Lemma lookup_delete_other (k k' : string) (t : sql.table) :
  k' <> k -> sql.lookup k' (fst (sql.delete_key k t)) = sql.lookup k' t.
Proof.
  intros Hne. simpl. induction t as [|[k0 v] t IH]; simpl; [reflexivity|].
  destruct (String.eqb_spec k k0) as [<-|Hk]; simpl.
  - destruct (String.eqb_spec k' k); [congruence|exact IH].
  - now rewrite IH.
Qed.

Lemma delete_absent (k : string) (t : sql.table) :
  sql.lookup k t = None -> sql.delete_key k t = (t, 0).
Proof.
  intros H. unfold sql.delete_key.
  assert (E : List.filter (fun r => String.eqb k (fst r)) t = []
              /\ List.filter (fun r => negb (String.eqb k (fst r))) t = t).
  { induction t as [|[k' v] t IH]; simpl in *; [auto|].
    destruct (String.eqb k k'); [discriminate|]. simpl.
    destruct (IH H) as [-> ->]. auto. }
  destruct E as [-> ->]. reflexivity.
Qed.

Lemma delete_present (k : string) (v : bytes) (t : sql.table) :
  sql.lookup k t = Some v -> 0 < snd (sql.delete_key k t).
Proof.
  unfold sql.delete_key. simpl.
  induction t as [|[k' v'] t IH]; simpl; [discriminate|].
  destruct (String.eqb k k'); simpl; [lia|exact IH].
Qed.

(** ** The facade on a server that answers *)

Lemma Delete_answered (w : sql.World) (key : Key) :
  proceeds 1 (sql.faults w) = true ->
  exists w',
    Datastore.Delete (store_of w) key w
    = (Val (if snd (sql.delete_key (Key_String key) (sql.rows w)) =? 0
            then Some ErrNotFound else None), w')
    /\ sql.rows w' = fst (sql.delete_key (Key_String key) (sql.rows w)).
Proof.
  unfold Datastore.Delete, bind, sql.DB_Exec, store_of. simpl.
  destruct w as [tbl t txs fs tr]; simpl.
  unfold sql.next_outcome; simpl.
  destruct fs as [|[| |] fs]; simpl; try discriminate; intros _;
    rewrite run_write_Delete; unfold sql.RowsAffected; simpl;
    destruct (_ =? 0); eexists; split; reflexivity.
Qed.

Lemma Has_answered (w : sql.World) (key : Key) :
  proceeds 1 (sql.faults w) = true ->
  fst (Datastore.Has (store_of w) key w)
  = Val (match sql.lookup (Key_String key) (sql.rows w) with
         | Some _ => true
         | None => false
         end, None).
Proof.
  unfold Datastore.Has, bind, sql.DB_QueryRow, store_of. simpl.
  destruct w as [tbl t txs fs tr]; simpl.
  unfold sql.next_outcome; simpl.
  destruct fs as [|[| |] fs]; simpl; try discriminate; intros _;
    rewrite run_read_Exists; simpl; now destruct (sql.lookup _ t).
Qed.

(** X1. [Delete] on a server that answers: a key that has a row loses it
    and nil is returned; a key without a row gives [ErrNotFound] and the
    table is left as it was; the rows of every other key stay. *)
Theorem Delete_removes_the_key_only (w : sql.World) (key : Key) :
  proceeds 1 (sql.faults w) = true ->
  exists r w',
    Datastore.Delete (store_of w) key w = (Val r, w')
    /\ sql.lookup (Key_String key) (sql.rows w') = None
    /\ (forall k, k <> Key_String key -> sql.lookup k (sql.rows w') = sql.lookup k (sql.rows w))
    /\ match sql.lookup (Key_String key) (sql.rows w) with
       | Some _ => r = None
       | None => r = Some ErrNotFound /\ sql.rows w' = sql.rows w
       end.
Proof.
  intros Hp. destruct (Delete_answered w key Hp) as (w' & HD & Hr).
  eexists _, w'. split; [exact HD|]. rewrite Hr.
  split; [apply lookup_delete_same|].
  split; [intros k Hk; now apply lookup_delete_other|].
  destruct (sql.lookup (Key_String key) (sql.rows w)) as [v|] eqn:E.
  - pose proof (delete_present _ _ _ E) as Hn.
    destruct (Z.eqb_spec (snd (sql.delete_key (Key_String key) (sql.rows w))) 0); [lia|reflexivity].
  - rewrite (delete_absent _ _ E). auto.
Qed.

Lemma Delete_removes_witness :
  let w := sql.MkWorld "kv" example_rows [] [] [] in
  proceeds 1 (sql.faults w) = true
  /\ exists r w',
       Datastore.Delete (store_of w) (RawKey "a/2") w = (Val r, w')
       /\ sql.lookup "a/2" (sql.rows w') = None
       /\ r = None.
Proof.
  split; [reflexivity|].
  destruct (Delete_removes_the_key_only (sql.MkWorld "kv" example_rows [] [] [])
              (RawKey "a/2") eq_refl) as (r & w' & HD & Hgone & _ & Hr).
  exists r, w'. auto.
Defined.

(** X2. On a server that answers the three reads agree on whether a key
    is there: [Has] returns true, [Get] the value and [GetSize] its
    length when the key has a row; when it has none, [Has] returns false
    without error while [Get] and [GetSize] return [ErrNotFound]. *)
Theorem reads_agree (w : sql.World) (key : Key) :
  proceeds 1 (sql.faults w) = true ->
  match sql.lookup (Key_String key) (sql.rows w) with
  | Some v =>
      fst (Datastore.Has (store_of w) key w) = Val (true, None)
      /\ fst (Datastore.Get (store_of w) key w) = Val (Some v, None)
      /\ fst (Datastore.GetSize (store_of w) key w) = Val (Z.of_nat (length v), None)
  | None =>
      fst (Datastore.Has (store_of w) key w) = Val (false, None)
      /\ fst (Datastore.Get (store_of w) key w) = Val (None, Some ErrNotFound)
      /\ fst (Datastore.GetSize (store_of w) key w) = Val (-1, Some ErrNotFound)
  end.
Proof.
  intros Hp.
  pose proof (Has_answered w key Hp) as HH.
  destruct (Get_answered w key Hp) as (w1 & HG & _).
  destruct (GetSize_answered w key Hp) as (w2 & HS & _).
  rewrite HH, HG, HS. simpl.
  now destruct (sql.lookup (Key_String key) (sql.rows w)).
Qed.

Lemma reads_agree_witness :
  let w := sql.MkWorld "kv" example_rows [] [sql.Proceed; sql.Fail "gone"] [] in
  proceeds 1 (sql.faults w) = true
  /\ fst (Datastore.Has (store_of w) (RawKey "zz") w) = Val (false, None)
  /\ fst (Datastore.Get (store_of w) (RawKey "zz") w) = Val (None, Some ErrNotFound)
  /\ fst (Datastore.GetSize (store_of w) (RawKey "zz") w) = Val (-1, Some ErrNotFound).
Proof.
  split; [reflexivity|].
  exact (reads_agree (sql.MkWorld "kv" example_rows [] [sql.Proceed; sql.Fail "gone"] [])
           (RawKey "zz") eq_refl).
Defined.

(** ** The facade under any script of the server *)

Lemma lookup_snoc_other (k k' : string) (v : bytes) (t : sql.table) :
  k' <> k -> sql.lookup k' (t ++ [(k, v)]) = sql.lookup k' t.
Proof.
  intros Hne. rewrite lookup_app. simpl.
  destruct (String.eqb_spec k' k); [congruence|].
  now destruct (sql.lookup k' t).
Qed.

Lemma Put_rows (w : sql.World) (key : Key) (val : GoBytes) :
  sql.rows (snd (Datastore.Put (store_of w) key val w)) = sql.rows w
  \/ exists v, sql.rows (snd (Datastore.Put (store_of w) key val w))
               = fst (sql.insert_if_absent (Key_String key) v (sql.rows w)).
Proof.
  destruct val as [v|]; [|now left].
  unfold Datastore.Put, bind, sql.DB_Exec, store_of, sql.next_outcome. simpl.
  destruct w as [tbl t txs fs tr]; simpl.
  destruct fs as [|[| |] fs]; simpl; auto;
    rewrite run_write_Put; destruct (sql.insert_if_absent _ v t) as [t' n] eqn:E;
    right; exists v; simpl; now rewrite E.
Qed.

(** X3. Whatever the server does, a [Put] through the facade changes the
    value of no key that has one and touches no key but its own: all it
    can do to the table is add the row of a key that had none. *)
Theorem Put_never_overwrites (w : sql.World) (key : Key) (val : GoBytes) :
  let t' := sql.rows (snd (Datastore.Put (store_of w) key val w)) in
  (forall k v0, sql.lookup k (sql.rows w) = Some v0 -> sql.lookup k t' = Some v0)
  /\ (forall k, k <> Key_String key -> sql.lookup k t' = sql.lookup k (sql.rows w)).
Proof.
  intros t'. subst t'.
  destruct (Put_rows w key val) as [->|[v ->]]; [auto|].
  unfold sql.insert_if_absent.
  destruct (sql.lookup (Key_String key) (sql.rows w)) eqn:E; simpl; [auto|].
  split.
  - intros k v0 H. rewrite lookup_app. now rewrite H.
  - intros k Hk. now apply lookup_snoc_other.
Qed.

(** X4. A failure of the server reaches the caller unchanged, with the
    zero result of each method, and no row is written: this holds for
    every provider and for every method of the facade that calls the
    server. *)
Theorem backend_failure_propagates (d : Datastore.t) (key : Key) (v : bytes)
    (q : dsq.Query) (msg : string) (fs : list sql.outcome) (w : sql.World) :
  sql.faults w = sql.Fail msg :: fs ->
  let e := Some (ErrBackend msg) in
  fst (Datastore.Put d key (Some v) w) = Val e
  /\ sql.rows (snd (Datastore.Put d key (Some v) w)) = sql.rows w
  /\ fst (Datastore.Delete d key w) = Val e
  /\ sql.rows (snd (Datastore.Delete d key w)) = sql.rows w
  /\ fst (Datastore.Get d key w) = Val (None, e)
  /\ fst (Datastore.Has d key w) = Val (false, e)
  /\ fst (Datastore.GetSize d key w) = Val (0, e)
  /\ fst (Datastore.Query d q w) = Val (None, e).
Proof.
  intros Hf e.
  destruct w as [tbl t txs fs' tr]; simpl in Hf; subst fs'.
  unfold Datastore.Put, Datastore.Delete, Datastore.Get, Datastore.Has,
    Datastore.GetSize, Datastore.Query, Datastore.RawQuery, Datastore.QueryWithParams,
    bind, sql.DB_Exec, sql.DB_QueryRow, sql.DB_Query, sql.next_outcome.
  simpl. repeat split; try reflexivity.
  destruct (Datastore.nonempty (dsq.Prefix q)); reflexivity.
Qed.

Lemma backend_failure_witness :
  let w := sql.MkWorld "kv" example_rows [] [sql.Fail "connection lost"] [] in
  sql.faults w = [sql.Fail "connection lost"]
  /\ fst (Datastore.Get (store_of w) (RawKey "a/1") w)
     = Val (None, Some (ErrBackend "connection lost"))
  /\ fst (Datastore.Put (store_of w) (RawKey "c") (Some []) w)
     = Val (Some (ErrBackend "connection lost")).
Proof.
  pose (w := sql.MkWorld "kv" example_rows [] [sql.Fail "connection lost"] []).
  destruct (backend_failure_propagates (store_of w) (RawKey "a/1") []
              (dsq.MkQuery EmptyString [] [] 0 0) "connection lost" [] w eq_refl)
    as (_ & _ & _ & _ & HG & _).
  destruct (backend_failure_propagates (store_of w) (RawKey "c") []
              (dsq.MkQuery EmptyString [] [] 0 0) "connection lost" [] w eq_refl)
    as (HP & _).
  split; [reflexivity|]. split; [exact HG|exact HP].
Defined.

(** ** Invariants of the batch, by composition *)

Section Keeps.

Context {S : Type} (I : S -> Prop) (R : S -> S -> Prop).
Hypothesis R_refl : forall s, R s s.
Hypothesis R_trans : forall s1 s2 s3, R s1 s2 -> R s2 s3 -> R s1 s3.

Lemma keeps_ret {A : Type} (a : A) : keeps I R (ret a).
Proof. intros s Hs. simpl. auto. Qed.

Lemma keeps_panic {A : Type} (v : panic_value) : keeps I R (@panic S A v).
Proof. intros s Hs. simpl. auto. Qed.

Lemma keeps_bind {A B : Type} (m : M S A) (k : A -> M S B) :
  keeps I R m -> (forall a, keeps I R (k a)) -> keeps I R (bind m k).
Proof.
  intros Hm Hk s Hs. unfold bind.
  destruct (Hm s Hs) as [Hi Hr].
  destruct (m s) as [[a|v|c] s1]; simpl in *; auto.
  destruct (Hk a s1 Hi) as [Hi2 Hr2]. split; [exact Hi2|eauto].
Qed.

Lemma keeps_defer {A : Type} (zero : A)
    (d : option panic_value -> A -> M S (option panic_value)) (body : M S A) :
  keeps I R body -> (forall p a, keeps I R (d p a)) -> keeps I R (defer zero d body).
Proof.
  intros Hb Hd s Hs. unfold defer.
  destruct (Hb s Hs) as [Hi Hr].
  destruct (body s) as [[a|v|c] s1]; simpl in *; auto.
  - destruct (Hd None a s1 Hi) as [Hi2 Hr2].
    destruct (d None a s1) as [[[v|]|v|c] s2]; simpl in *; eauto.
  - destruct (Hd (Some v) zero s1 Hi) as [Hi2 Hr2].
    destruct (d (Some v) zero s1) as [[[v'|]|v'|c] s2]; simpl in *; eauto.
Qed.

End Keeps.

Section KeepsBatch.

Context (I : batch.S -> Prop) (R : batch.S -> batch.S -> Prop).
Hypothesis R_refl : forall s, R s s.
Hypothesis R_trans : forall s1 s2 s3, R s1 s2 -> R s2 s3 -> R s1 s3.
Hypothesis GetTransaction_keeps : keeps I R batch.GetTransaction.
Hypothesis Exec_keeps :
  forall tx stmt args, keeps I R (batch.lift (sql.Tx_Exec tx stmt args)).
Hypothesis Rollback_keeps : forall tx, keeps I R (batch.lift (sql.Tx_Rollback tx)).
Hypothesis Commit_keeps : forall tx, keeps I R (batch.lift (sql.Tx_Commit tx)).

Lemma keeps_self : keeps I R batch.self.
Proof. intros s Hs. simpl. auto. Qed.

Lemma keeps_rollbackTxn (direct : bool) (p : option panic_value) (err : option error) :
  keeps I R (batch.rollbackTxn direct p err).
Proof.
  unfold batch.rollbackTxn. apply keeps_bind; [exact R_trans|apply keeps_self|].
  intros b. destruct (batch.txn b) as [tx|]; [|now apply keeps_ret].
  apply keeps_bind; [exact R_trans| |].
  - destruct err; [apply Rollback_keeps|now apply keeps_ret].
  - intros _. destruct (recover direct p) as [[r|] still].
    + apply keeps_bind; [exact R_trans|apply Rollback_keeps|].
      intros _. now apply keeps_panic.
    + now apply keeps_ret.
Qed.

Lemma keeps_on_tx {A : Type} (x : option nat) (m : nat -> M sql.World A) :
  (forall tx, keeps I R (batch.lift (m tx))) -> keeps I R (batch.on_tx x m).
Proof.
  intros H. destruct x as [tx|]; simpl; [apply H|now apply keeps_panic].
Qed.

Lemma keeps_Put (key : Key) (val : GoBytes) : keeps I R (batch.Put key val).
Proof.
  unfold batch.Put, batch.deferred_rollback.
  apply keeps_defer; [exact R_trans| |intros p a; apply keeps_rollbackTxn].
  destruct val as [v|]; [|now apply keeps_ret].
  apply keeps_bind; [exact R_trans|exact GetTransaction_keeps|].
  intros [txn [e|]]; [now apply keeps_ret|].
  apply keeps_bind; [exact R_trans|apply keeps_self|]. intros b.
  apply keeps_bind; [exact R_trans|apply keeps_on_tx; intros tx; apply Exec_keeps|].
  intros [n [e|]]; now apply keeps_ret.
Qed.

Lemma keeps_Delete (key : Key) : keeps I R (batch.Delete key).
Proof.
  unfold batch.Delete, batch.deferred_rollback.
  apply keeps_defer; [exact R_trans| |intros p a; apply keeps_rollbackTxn].
  apply keeps_bind; [exact R_trans|exact GetTransaction_keeps|].
  intros [txn [e|]]; [now apply keeps_ret|].
  apply keeps_bind; [exact R_trans|apply keeps_self|]. intros b.
  apply keeps_bind; [exact R_trans|apply keeps_on_tx; intros tx; apply Exec_keeps|].
  intros [n [e|]]; now apply keeps_ret.
Qed.

Lemma keeps_Commit : keeps I R batch.Commit.
Proof.
  unfold batch.Commit. apply keeps_bind; [exact R_trans|apply keeps_self|].
  intros b. destruct (batch.txn b) as [tx|]; [|now apply keeps_ret].
  apply keeps_bind; [exact R_trans|apply Commit_keeps|].
  intros [e|]; [|now apply keeps_ret].
  apply keeps_bind; [exact R_trans|apply Rollback_keeps|].
  intros _. now apply keeps_ret.
Qed.

End KeepsBatch.

Lemma keeps_state_after (I : batch.S -> Prop) (R : batch.S -> batch.S -> Prop)
    (ops : list batch_op) :
  (forall s, R s s) ->
  (forall s1 s2 s3, R s1 s2 -> R s2 s3 -> R s1 s3) ->
  (forall o, In o ops -> keeps I R (invoke o)) ->
  forall s, I s -> I (state_after ops s) /\ R s (state_after ops s).
Proof.
  intros Hrefl Htrans. induction ops as [|o ops IH]; intros Hk s Hs; simpl; [auto|].
  destruct (Hk o (or_introl eq_refl) s Hs) as [Hi Hr].
  destruct (IH (fun o' H => Hk o' (or_intror H)) _ Hi) as [Hi2 Hr2].
  eauto.
Qed.

Lemma lift_state {A : Type} (m : M sql.World A) (s : batch.S) :
  snd (batch.lift m s) = (fst s, snd (m (snd s))).
Proof. unfold batch.lift. now destruct (m (snd s)). Qed.

Lemma Tx_Exec_trace (tx : nat) (stmt : string) (args : list sql.arg) (w : sql.World) :
  sql.trace (snd (sql.Tx_Exec tx stmt args w))
  = sql.trace w ++ [sql.CallTxExec tx stmt args].
Proof.
  unfold sql.Tx_Exec.
  destruct (sql.is_open tx _); [|reflexivity].
  rewrite next_outcome_split.
  set (w1 := snd (sql.next_outcome _)).
  assert (G : sql.trace w1 = sql.trace w ++ [sql.CallTxExec tx stmt args])
    by (subst w1; now rewrite next_outcome_trace).
  destruct (fst (sql.next_outcome _)); simpl; auto.
  destruct (sql.run_write _ _ _ _) as [[t n]|]; simpl; auto.
  unfold sql.add_write. now destruct (sql.txs w1 !! tx).
Qed.

Lemma Tx_Commit_trace (tx : nat) (w : sql.World) :
  sql.trace (snd (sql.Tx_Commit tx w)) = sql.trace w ++ [sql.CallTxCommit tx].
Proof.
  unfold sql.Tx_Commit.
  destruct (sql.is_open tx _); [|reflexivity].
  rewrite next_outcome_split.
  destruct (fst (sql.next_outcome _)); simpl;
    rewrite ?finish_trace; simpl; now rewrite next_outcome_trace.
Qed.

Lemma Tx_Commit_error_rows (tx : nat) (w : sql.World) (e : error) :
  fst (sql.Tx_Commit tx w) = Val (Some e) ->
  sql.rows (snd (sql.Tx_Commit tx w)) = sql.rows w.
Proof.
  unfold sql.Tx_Commit.
  destruct (sql.is_open tx _); [|reflexivity].
  rewrite next_outcome_split.
  destruct (fst (sql.next_outcome _)); simpl; try discriminate.
  intros _. now rewrite finish_rows, next_outcome_rows.
Qed.

(** *** Nothing is visible before the commit *)

Lemma Put_Delete_keep_rows (o : batch_op) :
  o <> OpCommit ->
  keeps (fun _ => True) (fun s s' => sql.rows (snd s') = sql.rows (snd s)) (invoke o).
Proof.
  intros Ho.
  assert (Hrefl : forall s : batch.S, sql.rows (snd s) = sql.rows (snd s)) by reflexivity.
  assert (Htrans : forall s1 s2 s3 : batch.S,
             sql.rows (snd s2) = sql.rows (snd s1) ->
             sql.rows (snd s3) = sql.rows (snd s2) ->
             sql.rows (snd s3) = sql.rows (snd s1)) by (intros; congruence).
  assert (HG : keeps (fun _ => True) (fun s s' => sql.rows (snd s') = sql.rows (snd s))
                 batch.GetTransaction)
    by (intros s _; split; [exact I|apply GetTransaction_shape]).
  assert (HE : forall tx stmt args,
             keeps (fun _ => True) (fun s s' => sql.rows (snd s') = sql.rows (snd s))
               (batch.lift (sql.Tx_Exec tx stmt args)))
    by (intros tx stmt args s _; rewrite lift_state; split; [exact I|apply Tx_Exec_rows]).
  assert (HR : forall tx,
             keeps (fun _ => True) (fun s s' => sql.rows (snd s') = sql.rows (snd s))
               (batch.lift (sql.Tx_Rollback tx)))
    by (intros tx s _; rewrite lift_state; split; [exact I|apply Tx_Rollback_rows]).
  destruct o as [key val|key|]; simpl; [| |congruence].
  - now apply keeps_Put.
  - now apply keeps_Delete.
Qed.

(** X8. Whatever the provider and whatever the server does, the puts and
    deletes of a batch change no row of the table: a sequence of them,
    failed or not, leaves the table as it was, so that nothing of a batch
    is visible before its commit. *)
Theorem batch_writes_invisible_before_commit (ops : list batch_op) (s : batch.S) :
  ~ In OpCommit ops ->
  sql.rows (snd (state_after ops s)) = sql.rows (snd s).
Proof.
  intros Hc.
  apply (keeps_state_after (fun _ => True)
           (fun s s' => sql.rows (snd s') = sql.rows (snd s)) ops);
    [reflexivity|intros; congruence| |exact I].
  intros o Ho. apply Put_Delete_keep_rows. intros ->. contradiction.
Qed.

Lemma batch_writes_invisible_witness :
  let w := sql.MkWorld "kv" example_rows [] [sql.Proceed; sql.Fail "deadlock"] [] in
  let s := (fst (Datastore.Batch (store_of w)), w) in
  let ops := [OpPut (RawKey "c") (Some []); OpDelete (RawKey "a/1"); OpPut (RawKey "d") None] in
  ~ In OpCommit ops
  /\ sql.rows (snd (state_after ops s)) = example_rows.
Proof.
  assert (H : ~ In OpCommit
                [OpPut (RawKey "c") (Some []); OpDelete (RawKey "a/1"); OpPut (RawKey "d") None])
    by (simpl; intuition discriminate).
  split; [exact H|].
  exact (batch_writes_invisible_before_commit _
           (fst (Datastore.Batch (store_of
              (sql.MkWorld "kv" example_rows [] [sql.Proceed; sql.Fail "deadlock"] []))),
            sql.MkWorld "kv" example_rows [] [sql.Proceed; sql.Fail "deadlock"] []) H).
Defined.

(** *** One transaction for the life of the batch *)

Lemma invoke_keeps_transaction (tx : nat) (o : batch_op) :
  keeps (fun s => batch.txn (fst s) = Some tx)
    (fun s s' => exists l, sql.trace (snd s') = sql.trace (snd s) ++ l
                           /\ forallb (fun c => negb (is_begin c)) l = true)
    (invoke o).
Proof.
  set (I := fun s : batch.S => batch.txn (fst s) = Some tx).
  set (R := fun s s' : batch.S =>
              exists l, sql.trace (snd s') = sql.trace (snd s) ++ l
                        /\ forallb (fun c => negb (is_begin c)) l = true).
  assert (Hrefl : forall s, R s s) by (intros s; exists []; now rewrite app_nil_r).
  assert (Htrans : forall s1 s2 s3, R s1 s2 -> R s2 s3 -> R s1 s3).
  { intros s1 s2 s3 (l1 & H1 & F1) (l2 & H2 & F2). exists (l1 ++ l2).
    rewrite H2, H1, <- app_assoc. split; [reflexivity|].
    rewrite forallb_app, F1, F2. reflexivity. }
  assert (HG : keeps I R batch.GetTransaction).
  { intros [b w] Hs. unfold I in Hs. simpl in Hs.
    unfold batch.GetTransaction, bind, batch.self. simpl. rewrite Hs. simpl. auto. }
  assert (HE : forall t stmt args, keeps I R (batch.lift (sql.Tx_Exec t stmt args))).
  { intros t stmt args s Hs. rewrite lift_state. split; [exact Hs|].
    eexists. split; [apply Tx_Exec_trace|reflexivity]. }
  assert (HR : forall t, keeps I R (batch.lift (sql.Tx_Rollback t))).
  { intros t s Hs. rewrite lift_state. split; [exact Hs|].
    eexists. split; [apply Tx_Rollback_trace|reflexivity]. }
  assert (HC : forall t, keeps I R (batch.lift (sql.Tx_Commit t))).
  { intros t s Hs. rewrite lift_state. split; [exact Hs|].
    eexists. split; [apply Tx_Commit_trace|reflexivity]. }
  destruct o as [key val|key|]; simpl.
  - now apply keeps_Put.
  - now apply keeps_Delete.
  - now apply keeps_Commit.
Qed.

(** X10. A batch that holds a transaction keeps that very transaction
    through every later operation, done or not, and never asks the backend
    to begin another one. *)
Theorem batch_keeps_its_transaction (tx : nat) (ops : list batch_op) (s : batch.S) :
  batch.txn (fst s) = Some tx ->
  batch.txn (fst (state_after ops s)) = Some tx
  /\ exists l, sql.trace (snd (state_after ops s)) = sql.trace (snd s) ++ l
               /\ forallb (fun c => negb (is_begin c)) l = true.
Proof.
  intros Hs.
  apply (keeps_state_after (fun s => batch.txn (fst s) = Some tx)
           (fun s s' => exists l, sql.trace (snd s') = sql.trace (snd s) ++ l
                                  /\ forallb (fun c => negb (is_begin c)) l = true) ops);
    [| | |exact Hs].
  - intros s0. exists []. now rewrite app_nil_r.
  - intros s1 s2 s3 (l1 & H1 & F1) (l2 & H2 & F2). exists (l1 ++ l2).
    rewrite H2, H1, <- app_assoc. split; [reflexivity|].
    rewrite forallb_app, F1, F2. reflexivity.
  - intros o _. apply invoke_keeps_transaction.
Qed.

Lemma batch_keeps_its_transaction_witness :
  let ops := [OpCommit; OpPut (RawKey "/b") (Some []); OpDelete (RawKey "/a"); OpCommit] in
  batch.txn (fst open_batch) = Some 0%nat
  /\ batch.txn (fst (state_after ops open_batch)) = Some 0%nat
  /\ exists l, sql.trace (snd (state_after ops open_batch)) = sql.trace (snd open_batch) ++ l
               /\ forallb (fun c => negb (is_begin c)) l = true.
Proof.
  split; [reflexivity|].
  exact (batch_keeps_its_transaction 0
           [OpCommit; OpPut (RawKey "/b") (Some []); OpDelete (RawKey "/a"); OpCommit]
           open_batch eq_refl).
Defined.

(** *** A failed batch stays failed *)

Lemma done_batch_changes_nothing (b : batch.t) (tx : nat) (ops : list batch_op)
    (w : sql.World) :
  batch.txn b = Some tx -> is_done tx w = true ->
  Forall (fun r => exists e, r = Val (Some e)) (invoke_all ops (b, w))
  /\ sql.rows (snd (state_after ops (b, w))) = sql.rows w.
Proof.
  intros Hb. revert w. induction ops as [|o ops IH]; intros w Hd; simpl; [auto|].
  destruct (invoke_done o b tx w Hb (is_done_not_open _ _ Hd)) as (e & w' & Hi & Ht & Hr).
  rewrite Hi. simpl.
  assert (Hd' : is_done tx w' = true) by (unfold is_done in *; now rewrite Ht).
  destruct (IH w' Hd') as [HF HR]. split; [constructor; eauto|congruence].
Qed.

Lemma failed_invoke_rows (o : batch_op) (s s' : batch.S) (e : error) :
  invoke o s = (Val (Some e), s') -> sql.rows (snd s') = sql.rows (snd s).
Proof.
  intros H. destruct o as [key val|key|].
  - destruct (Put_Delete_keep_rows (OpPut key val) ltac:(discriminate) s I) as [_ Hr].
    now rewrite H in Hr.
  - destruct (Put_Delete_keep_rows (OpDelete key) ltac:(discriminate) s I) as [_ Hr].
    now rewrite H in Hr.
  - destruct s as [b w]. simpl in H. revert H. run.
    destruct (batch.txn b) as [tx|]; run; [|discriminate].
    pose proof (Tx_Commit_error_rows tx w) as Hc.
    destruct (sql.Tx_Commit tx w) as [[[e1|]|v|c] w1]; simpl in *; try discriminate.
    pose proof (Tx_Rollback_rows tx w1) as Hr.
    destruct (sql.Tx_Rollback tx w1) as [[r|v|c] w2]; simpl in *; try discriminate.
    intros [= _ <-]. simpl. rewrite Hr. eapply Hc. reflexivity.
Qed.

(** X9. When an operation of a batch returns an error and the batch holds
    a transaction, the batch is finished for good: every later operation
    returns an error, a later commit included, and the table stays as it
    was before the failed operation. *)
Theorem failed_batch_stays_failed (o : batch_op) (ops : list batch_op)
    (s s' : batch.S) (e : error) (tx : nat) :
  known s ->
  invoke o s = (Val (Some e), s') ->
  batch.txn (fst s') = Some tx ->
  Forall (fun r => exists e', r = Val (Some e')) (invoke_all ops s')
  /\ sql.rows (snd (state_after ops s')) = sql.rows (snd s).
Proof.
  intros Hk Hi Htx.
  destruct (failure_settles o s s' e Hk Hi) as [Hs _].
  unfold settled in Hs. rewrite Htx in Hs.
  rewrite <- (failed_invoke_rows o s s' e Hi).
  destruct s' as [b' w']. simpl in *.
  now apply (done_batch_changes_nothing b' tx).
Qed.

Lemma failed_batch_witness :
  let s := scripted [sql.Fail "constraint"] open_batch in
  let o := OpPut (RawKey "/b") (Some []) in
  let ops := [OpPut (RawKey "/c") (Some []); OpCommit] in
  known s
  /\ fst (invoke o s) = Val (Some (ErrBackend "constraint"))
  /\ Forall (fun r => exists e', r = Val (Some e')) (invoke_all ops (snd (invoke o s)))
  /\ sql.rows (snd (state_after ops (snd (invoke o s)))) = [].
Proof.
  pose (s := scripted [sql.Fail "constraint"] open_batch).
  pose (o := OpPut (RawKey "/b") (Some [])).
  assert (Hk : known s) by (unfold known; simpl; lia).
  split; [exact Hk|]. split; [reflexivity|].
  exact (failed_batch_stays_failed o [OpPut (RawKey "/c") (Some []); OpCommit]
           s (snd (invoke o s)) (ErrBackend "constraint") 0 Hk eq_refl eq_refl).
Defined.

(** *** What a commit writes *)

Lemma replay_sent (tbl : string) (x : sql.write) (t : sql.table) :
  sql.replay tbl (sent tbl x) t = sql.apply_write x t.
Proof.
  unfold sql.replay. destruct x as [k v|k]; simpl.
  - rewrite run_write_Put. now destruct (sql.insert_if_absent k v t).
  - now rewrite run_write_Delete.
Qed.

(** Running again the statements sent for a sequence of writes applies
    the writes in order. *)
Lemma replay_all_sent (tbl : string) (ws : list sql.write) (t : sql.table) :
  sql.replay_all tbl (map (sent tbl) ws) t = sql.apply_writes ws t.
Proof.
  unfold sql.replay_all, sql.apply_writes. revert t.
  induction ws as [|x ws IH]; intros t; simpl; [reflexivity|].
  now rewrite replay_sent, IH.
Qed.

Lemma run_write_sent (tbl : string) (x : sql.write) (t : sql.table) :
  exists r, sql.run_write tbl (fst (sent tbl x)) (snd (sent tbl x)) t = Some r.
Proof.
  destruct x as [k v|k]; simpl.
  - rewrite run_write_Put. eauto.
  - rewrite run_write_Delete. eauto.
Qed.

Lemma proceeds_one (n : nat) (fs : list sql.outcome) :
  proceeds (S n) fs = true -> proceeds 1 fs = true.
Proof. destruct fs as [|[| |] fs]; simpl; auto. Qed.

Lemma Tx_Exec_write (tx : nat) (x : sql.write) (ps : list sql.pending) (w : sql.World) :
  sql.txs w !! tx = Some (sql.MkTx false ps) ->
  proceeds 1 (sql.faults w) = true ->
  exists n w',
    sql.Tx_Exec tx (fst (sent (sql.tbl_name w) x)) (snd (sent (sql.tbl_name w) x)) w
    = (Val (n, None), w')
    /\ sql.txs w' !! tx = Some (sql.MkTx false (ps ++ [sent (sql.tbl_name w) x]))
    /\ sql.rows w' = sql.rows w
    /\ sql.faults w' = tl (sql.faults w)
    /\ sql.tbl_name w' = sql.tbl_name w.
Proof.
  intros Htx Hp. unfold sql.Tx_Exec, sql.is_open. simpl. rewrite Htx. simpl.
  unfold sql.next_outcome.
  destruct w as [tbl t txs fs tr]; simpl in *.
  pose proof (fun t0 => run_write_sent tbl x t0) as Hrun.
  destruct fs as [|[| |] fs]; simpl in *; try discriminate;
    match goal with
    | |- context [sql.run_write ?a ?b ?c ?d] => destruct (Hrun d) as [[t' n] ->]
    end;
    eexists _, _; (split; [reflexivity|]);
    unfold sql.add_write; simpl; rewrite Htx; simpl;
    (rewrite list_lookup_insert_eq by (now apply lookup_lt_Some in Htx));
    rewrite <- surjective_pairing; auto.
Qed.

Lemma DB_Begin_fresh (n : nat) (w : sql.World) :
  proceeds (S n) (sql.faults w) = true ->
  exists w',
    sql.DB_Begin w = (Val (Some (length (sql.txs w)), None), w')
    /\ sql.txs w' !! length (sql.txs w) = Some (sql.MkTx false [])
    /\ sql.rows w' = sql.rows w
    /\ sql.faults w' = tl (sql.faults w)
    /\ sql.tbl_name w' = sql.tbl_name w.
Proof.
  unfold sql.DB_Begin, sql.next_outcome.
  destruct w as [tbl t txs fs tr]; simpl.
  destruct fs as [|[| |] fs]; simpl; try discriminate; intros _;
    eexists; (split; [reflexivity|]); simpl;
    rewrite list_lookup_middle by reflexivity; auto.
Qed.

(** What a batch of the provider asks the transaction to execute for a
    write. *)
Lemma invoke_as_sent (o : batch_op) (x : sql.write) (b : batch.t) (tx : nat)
    (w : sql.World) :
  batch.txn b = Some tx ->
  batch.queries b = queries.as_Queries (newQueries (sql.tbl_name w)) ->
  write_of o = Some x ->
  invoke o (b, w)
  = batch.deferred_rollback
      (let* r := batch.lift (sql.Tx_Exec tx (fst (sent (sql.tbl_name w) x))
                               (snd (sent (sql.tbl_name w) x))) in
       ret (snd r)) (b, w).
Proof.
  intros Hb Hq Hx.
  destruct o as [key [v|]|key|]; simpl in Hx; try discriminate; injection Hx as <-;
    simpl; run; rewrite Hb; run; rewrite Hq; simpl;
    match goal with
    | |- context [sql.Tx_Exec ?a ?b ?c ?d] =>
        destruct (sql.Tx_Exec a b c d) as [[[n [e|]]|pv|c0] w1]
    end; run; rewrite ?Hb; reflexivity.
Qed.

(** A batch whose transaction is open on a server that answers: a write
    returns nil and its statement joins those of the transaction. *)
Lemma invoke_write_open (o : batch_op) (x : sql.write) (b : batch.t) (tx : nat)
    (ps : list sql.pending) (w : sql.World) :
  batch.txn b = Some tx ->
  batch.queries b = queries.as_Queries (newQueries (sql.tbl_name w)) ->
  sql.txs w !! tx = Some (sql.MkTx false ps) ->
  proceeds 1 (sql.faults w) = true ->
  write_of o = Some x ->
  exists w',
    invoke o (b, w) = (Val None, (b, w'))
    /\ sql.txs w' !! tx = Some (sql.MkTx false (ps ++ [sent (sql.tbl_name w) x]))
    /\ sql.rows w' = sql.rows w
    /\ sql.faults w' = tl (sql.faults w)
    /\ sql.tbl_name w' = sql.tbl_name w.
Proof.
  intros Hb Hq Htx Hp Hx.
  destruct (Tx_Exec_write tx x ps w Htx Hp) as (n & w' & HE & H).
  exists w'. split; [|exact H].
  rewrite (invoke_as_sent o x b tx w Hb Hq Hx).
  run. rewrite HE. run. now rewrite Hb.
Qed.

(** The first write of a batch begins the transaction. *)
Lemma invoke_first_write (o : batch_op) (x : sql.write) (w : sql.World) :
  proceeds 2 (sql.faults w) = true ->
  write_of o = Some x ->
  exists b1 w',
    invoke o (fst (Datastore.Batch (store_of w)), w) = (Val None, (b1, w'))
    /\ batch.txn b1 = Some (length (sql.txs w))
    /\ batch.queries b1 = queries.as_Queries (newQueries (sql.tbl_name w))
    /\ sql.txs w' !! length (sql.txs w) = Some (sql.MkTx false [sent (sql.tbl_name w) x])
    /\ sql.rows w' = sql.rows w
    /\ sql.faults w' = tl (tl (sql.faults w))
    /\ sql.tbl_name w' = sql.tbl_name w.
Proof.
  intros Hp Hx.
  destruct (DB_Begin_fresh _ w Hp) as (w1 & HB & Htx1 & Hr1 & Hf1 & Ht1).
  assert (Hp1 : proceeds 1 (sql.faults w1) = true)
    by (rewrite Hf1; now apply proceeds_tl).
  destruct (Tx_Exec_write (length (sql.txs w)) x [] w1 Htx1 Hp1)
    as (n & w' & HE & Htx & Hr & Hf & Ht).
  rewrite Ht1 in HE, Htx.
  destruct o as [key [v|]|key|]; simpl in Hx; try discriminate; injection Hx as <-;
    simpl in HE; eexists _, w'; (split;
      [simpl; run; rewrite HB; run; rewrite HE; run; reflexivity
      |simpl; repeat split; auto; congruence]).
Qed.

Lemma invoke_all_cons (o : batch_op) (ops : list batch_op) (s : batch.S) :
  invoke_all (o :: ops) s = fst (invoke o s) :: invoke_all ops (snd (invoke o s)).
Proof. simpl. now destruct (invoke o s). Qed.

Lemma state_after_cons (o : batch_op) (ops : list batch_op) (s : batch.S) :
  state_after (o :: ops) s = state_after ops (snd (invoke o s)).
Proof. reflexivity. Qed.

Lemma writes_open (ops : list batch_op) (b : batch.t) (tx : nat)
    (ws : list sql.write) (w : sql.World) :
  batch.txn b = Some tx ->
  batch.queries b = queries.as_Queries (newQueries (sql.tbl_name w)) ->
  sql.txs w !! tx = Some (sql.MkTx false (map (sent (sql.tbl_name w)) ws)) ->
  forallb is_write ops = true ->
  proceeds (S (length ops)) (sql.faults w) = true ->
  Forall (fun r => r = Val None) (invoke_all ops (b, w))
  /\ exists w',
       state_after ops (b, w) = (b, w')
       /\ sql.txs w' !! tx
          = Some (sql.MkTx false (map (sent (sql.tbl_name w)) (ws ++ writes_of ops)))
       /\ sql.rows w' = sql.rows w
       /\ sql.tbl_name w' = sql.tbl_name w
       /\ proceeds 1 (sql.faults w') = true.
Proof.
  intros Hb. revert ws w.
  induction ops as [|o ops IH]; intros ws w Hq Htx Hw Hp; simpl.
  - split; [constructor|]. exists w. rewrite app_nil_r. auto.
  - simpl in Hw. apply andb_true_iff in Hw as [Ho Hw].
    unfold is_write in Ho. destruct (write_of o) as [x|] eqn:Hx; [|discriminate].
    destruct (invoke_write_open o x b tx _ w Hb Hq Htx (proceeds_one _ _ Hp) Hx)
      as (w1 & Hi & Htx1 & Hr1 & Hf1 & Ht1).
    rewrite Hi. simpl.
    destruct (IH (ws ++ [x]) w1) as (HF & w' & Hs & Htx' & Hr' & Ht' & Hp');
      [now rewrite Ht1|rewrite Ht1, map_app; exact Htx1|exact Hw
      |rewrite Hf1; now apply proceeds_tl|].
    split; [constructor; auto|].
    exists w'. rewrite <- app_assoc in Htx'. simpl in Htx'. rewrite Ht1 in Htx'.
    repeat split; auto; congruence.
Qed.

Lemma Commit_open (b : batch.t) (tx : nat) (ws : list sql.write) (w : sql.World) :
  batch.txn b = Some tx ->
  sql.txs w !! tx = Some (sql.MkTx false (map (sent (sql.tbl_name w)) ws)) ->
  proceeds 1 (sql.faults w) = true ->
  exists w',
    batch.Commit (b, w) = (Val None, (b, w'))
    /\ sql.rows w' = sql.apply_writes ws (sql.rows w).
Proof.
  intros Hb Htx Hp. run. rewrite Hb. run.
  unfold sql.Tx_Commit, sql.is_open, sql.next_outcome. simpl. rewrite Htx. simpl.
  destruct w as [tbl t txs fs tr]; simpl in *.
  destruct fs as [|[| |] fs]; simpl in *; try discriminate;
    eexists; (split; [reflexivity|]); rewrite finish_rows; simpl;
    unfold sql.view; simpl; rewrite Htx; simpl; apply replay_all_sent.
Qed.

(** X7. On a server that answers, a fresh batch accepts any sequence of
    puts of present values and deletes, each returning nil (a delete of a
    key without a row included, which the facade answers with
    [ErrNotFound]), and its commit returns nil and leaves the table that
    results from applying those writes in order: insert-if-absent for a
    put, removal for a delete. *)
Theorem committed_batch_applies_its_writes (ops : list batch_op) (w : sql.World) :
  forallb is_write ops = true ->
  proceeds (2 + length ops) (sql.faults w) = true ->
  let s0 := (fst (Datastore.Batch (store_of w)), w) in
  Forall (fun r => r = Val None) (invoke_all ops s0)
  /\ exists s',
       batch.Commit (state_after ops s0) = (Val None, s')
       /\ sql.rows (snd s') = sql.apply_writes (writes_of ops) (sql.rows w).
Proof.
  intros Hw Hp s0. subst s0.
  destruct ops as [|o ops].
  - simpl. split; [constructor|]. eexists. split; reflexivity.
  - simpl in Hw. apply andb_true_iff in Hw as [Ho Hw].
    unfold is_write in Ho. destruct (write_of o) as [x|] eqn:Hx; [|discriminate].
    simpl length in Hp.
    assert (Hp2 : proceeds 2 (sql.faults w) = true).
    { clear - Hp. destruct (sql.faults w) as [|[| |] [|[| |] fs]]; simpl in *; auto. }
    destruct (invoke_first_write o x w Hp2 Hx)
      as (b1 & w2 & Hfirst & Hb1 & Hq1 & Htx2 & Hr2 & Hf2 & Ht2).
    rewrite invoke_all_cons, state_after_cons, Hfirst. cbn [fst snd].
    destruct (writes_open ops b1 _ [x] w2 Hb1) as (HF & w' & Hs & Htx' & Hr' & Ht' & Hp');
      [now rewrite Ht2|rewrite Ht2; exact Htx2|exact Hw| |].
    { rewrite Hf2. apply proceeds_tl. now apply proceeds_tl. }
    split; [constructor; auto|].
    rewrite Hs.
    rewrite <- Ht' in Htx'.
    destruct (Commit_open b1 _ _ w' Hb1 Htx' Hp') as (w'' & HC & Hrows).
    exists (b1, w''). split; [exact HC|].
    cbn [fst snd writes_of]. rewrite Hrows, Hr', Hr2, Hx. reflexivity.
Qed.

Lemma committed_batch_witness :
  let w := sql.MkWorld "kv" example_rows [] [] [] in
  let ops := [OpPut (RawKey "a/1") (Some []); OpDelete (RawKey "b/1");
              OpPut (RawKey "c") (Some (list_byte_of_string "v4")); OpDelete (RawKey "zz")] in
  let s0 := (fst (Datastore.Batch (store_of w)), w) in
  forallb is_write ops = true
  /\ proceeds (2 + length ops) (sql.faults w) = true
  /\ Forall (fun r => r = Val None) (invoke_all ops s0)
  /\ exists s',
       batch.Commit (state_after ops s0) = (Val None, s')
       /\ sql.rows (snd s')
          = [("a/1", list_byte_of_string "v1"); ("a/2", list_byte_of_string "v2");
             ("c", list_byte_of_string "v4")].
Proof.
  split; [reflexivity|]. split; [reflexivity|].
  exact (committed_batch_applies_its_writes
           [OpPut (RawKey "a/1") (Some []); OpDelete (RawKey "b/1");
            OpPut (RawKey "c") (Some (list_byte_of_string "v4")); OpDelete (RawKey "zz")]
           (sql.MkWorld "kv" example_rows [] [] []) eq_refl eq_refl).
Defined.

(** ** Options *)

(** X11. [setDefaults] fills the table, host, port, user and database
    that are empty and keeps the ones that are given; it never touches
    the password, which has no default; afterwards none of the five is
    empty, and a second call changes nothing. *)
Theorem setDefaults_fills_what_is_empty (opts : Options.t) :
  let opts' := Options.setDefaults opts in
  let filled (given default : string) :=
    if Options.is_empty given then default else given in
  opts' = Options.Build (filled (Options.Host opts) "postgres")
            (filled (Options.Port opts) "5432")
            (filled (Options.User opts) "postgres")
            (Options.Password opts)
            (filled (Options.Database opts) "datastore")
            (filled (Options.Table opts) "kv")
  /\ Options.is_empty (Options.Host opts') = false
  /\ Options.is_empty (Options.Port opts') = false
  /\ Options.is_empty (Options.User opts') = false
  /\ Options.is_empty (Options.Database opts') = false
  /\ Options.is_empty (Options.Table opts') = false
  /\ Options.setDefaults opts' = opts'.
Proof.
  destruct opts as [h p u pw d t].
  destruct h, p, u, d, t; simpl; repeat split; reflexivity.
Qed.

(** ** The composed statement, read back by the server *)

(** *** Numbers *)

Lemma to_int_not_nil (n : Z) :
  Z.to_int n <> Decimal.Pos Decimal.Nil /\ Z.to_int n <> Decimal.Neg Decimal.Nil.
Proof.
  destruct n as [|p|p]; simpl; split; try discriminate;
    intros [= H]; now apply (DecimalPos.Unsigned.to_uint_nonnil p).
Qed.

Lemma atoi_itoa (n : Z) : sql.atoi (fmt.itoa n) = Some n.
Proof.
  unfold sql.atoi, fmt.itoa.
  destruct (to_int_not_nil n) as [H1 H2].
  rewrite NilZero.isi by assumption. simpl. now rewrite DecimalZ.of_to.
Qed.

(** The text that may follow a number: nothing, or something that does
    not start with a digit. *)
Lemma span_digits_uint (d : Decimal.uint) (rest : string) :
  match rest with EmptyString => True | String c _ => sql.is_digit c = false end ->
  sql.span_digits (NilEmpty.string_of_uint d +:+ rest) = (NilEmpty.string_of_uint d, rest).
Proof.
  intros Hrest. induction d as [|d IH|d IH|d IH|d IH|d IH|d IH|d IH|d IH|d IH|d IH];
    simpl NilEmpty.string_of_uint; rewrite ?append_cons, ?append_nil.
  - destruct rest as [|c r]; [reflexivity|]. simpl. now rewrite Hrest.
  - simpl. now rewrite IH.
  - simpl. now rewrite IH.
  - simpl. now rewrite IH.
  - simpl. now rewrite IH.
  - simpl. now rewrite IH.
  - simpl. now rewrite IH.
  - simpl. now rewrite IH.
  - simpl. now rewrite IH.
  - simpl. now rewrite IH.
  - simpl. now rewrite IH.
Qed.

Lemma span_digits_uint_zero (d : Decimal.uint) (rest : string) :
  match rest with EmptyString => True | String c _ => sql.is_digit c = false end ->
  sql.span_digits (NilZero.string_of_uint d +:+ rest) = (NilZero.string_of_uint d, rest).
Proof.
  intros Hrest. destruct d; try apply (span_digits_uint _ rest Hrest).
  change (NilZero.string_of_uint Decimal.Nil) with (NilEmpty.string_of_uint (Decimal.D0 Decimal.Nil)).
  now apply span_digits_uint.
Qed.

Lemma span_number_itoa (n : Z) (rest : string) :
  match rest with EmptyString => True | String c _ => sql.is_digit c = false end ->
  sql.span_number (fmt.itoa n +:+ rest) = (fmt.itoa n, rest).
Proof.
  intros Hrest. unfold fmt.itoa.
  destruct (Z.to_int n) as [d|d] eqn:E; simpl NilZero.string_of_int.
  - pose proof (span_digits_uint_zero d rest Hrest) as H.
    unfold sql.span_number.
    destruct d; simpl NilZero.string_of_uint in *; rewrite ?append_cons in *; exact H.
  - rewrite append_cons. unfold sql.span_number.
    now rewrite (span_digits_uint_zero d rest Hrest).
Qed.

Lemma parse_number_itoa (n : Z) (rest : string) :
  match rest with EmptyString => True | String c _ => sql.is_digit c = false end ->
  sql.parse_number (fmt.itoa n +:+ rest) = Some (n, rest).
Proof.
  intros Hrest. unfold sql.parse_number.
  rewrite (span_number_itoa n rest Hrest). now rewrite atoi_itoa.
Qed.

(** A number does not start with a blank. *)
Lemma spaces_itoa (n : Z) (rest : string) :
  sql.spaces (fmt.itoa n +:+ rest) = fmt.itoa n +:+ rest.
Proof.
  unfold fmt.itoa. destruct (Z.to_int n) as [d|d]; [destruct d|]; reflexivity.
Qed.

Lemma parse_limit (n : Z) (rest : string) :
  match rest with EmptyString => True | String c _ => sql.is_digit c = false end ->
  sql.parse_count "LIMIT" (" LIMIT " +:+ fmt.itoa n +:+ rest) = Some (Some n, rest).
Proof.
  intros Hrest. unfold sql.parse_count. rewrite !append_cons, append_nil. cbn.
  now rewrite spaces_itoa, (parse_number_itoa n rest Hrest).
Qed.

Lemma parse_offset (n : Z) (rest : string) :
  match rest with EmptyString => True | String c _ => sql.is_digit c = false end ->
  sql.parse_count "OFFSET" (" OFFSET " +:+ fmt.itoa n +:+ rest) = Some (Some n, rest).
Proof.
  intros Hrest. unfold sql.parse_count. rewrite !append_cons, append_nil. cbn.
  now rewrite spaces_itoa, (parse_number_itoa n rest Hrest).
Qed.

(** *** Patterns *)

Lemma like_any (s : string) : sql.like "%" s = true.
Proof.
  induction s as [|c s IH]; [reflexivity|].
  change (sql.like "%" (String c s)) with (sql.like EmptyString (String c s) || sql.like "%" s)%bool.
  now rewrite IH, orb_true_r.
Qed.

Lemma like_plain_char (c : ascii) (p s : string) :
  plain_char c = true ->
  sql.like (String c p) s
  = match s with
    | String d s' => (Ascii.eqb c d && sql.like p s')%bool
    | EmptyString => false
    end.
Proof.
  intros Hc.
  destruct c as [[] [] [] [] [] [] [] []]; try reflexivity; discriminate.
Qed.

(** For a plain prefix the pattern of the composed statement selects the
    keys that start with the prefix. *)
Lemma like_plain_prefix (p s : string) :
  plain p = true -> sql.like (p +:+ "%") s = strings.HasPrefix s p.
Proof.
  revert s. induction p as [|c p IH]; intros s Hp.
  - rewrite append_nil. rewrite like_any. now destruct s.
  - simpl in Hp. apply andb_true_iff in Hp as [Hc Hp].
    rewrite append_cons, like_plain_char by exact Hc.
    destruct s as [|d s]; [reflexivity|].
    simpl. now rewrite IH.
Qed.

Lemma like_underscore (s : string) : sql.like "_%" s = Datastore.nonempty s.
Proof.
  destruct s as [|c s]; [reflexivity|].
  change (sql.like "_%" (String c s)) with (sql.like "%" s). apply like_any.
Qed.

Lemma plain_quote_free (p : string) : plain p = true -> quote_free p = true.
Proof.
  induction p as [|c p IH]; [reflexivity|]. simpl.
  intros H. apply andb_true_iff in H as [Hc Hp]. rewrite (IH Hp), andb_true_r.
  unfold plain_char in Hc. destruct (Ascii.eqb c "'"); [discriminate|reflexivity].
Qed.

(** A prefix without quote ends with the literal it is pasted into. *)
Lemma literal_pattern (p rest : string) :
  quote_free p = true ->
  sql.literal (p +:+ String "%" (String "'" (String " " rest)))
  = Some (p +:+ "%", String " " rest).
Proof.
  induction p as [|c p IH]; intros Hp; [reflexivity|].
  simpl in Hp. apply andb_true_iff in Hp as [Hc Hp].
  rewrite !append_cons. simpl.
  destruct (Ascii.eqb c "'"); [discriminate|]. now rewrite (IH Hp).
Qed.

(** *** The tail of the composed statement *)

Lemma Sprintf_Prefix (q : queries.t) (p : string) :
  fmt.Sprintf (queries.Prefix q) (fmt.OfString p)
  = " WHERE key LIKE '" +:+ p +:+ "%' ORDER BY key".
Proof.
  unfold fmt.Sprintf, queries.Prefix. simpl.
  repeat rewrite ?append_cons, ?append_assoc, ?append_empty, ?append_nil. reflexivity.
Qed.

Lemma Sprintf_Limit (q : queries.t) (n : Z) :
  fmt.Sprintf (queries.Limit q) (fmt.OfInt n) = " LIMIT " +:+ fmt.itoa n.
Proof.
  unfold fmt.Sprintf, queries.Limit. simpl.
  repeat rewrite ?append_cons, ?append_assoc, ?append_empty, ?append_nil. reflexivity.
Qed.

Lemma Sprintf_Offset (q : queries.t) (n : Z) :
  fmt.Sprintf (queries.Offset q) (fmt.OfInt n) = " OFFSET " +:+ fmt.itoa n.
Proof.
  unfold fmt.Sprintf, queries.Offset. simpl.
  repeat rewrite ?append_cons, ?append_assoc, ?append_empty, ?append_nil. reflexivity.
Qed.

(** The limit and offset clauses the composer adds, [W] below. *)
Lemma window_clauses_parse (l o : Z) :
  exists s2,
    sql.parse_count "LIMIT"
      (clause " LIMIT %d" (option_map fmt.OfInt (given l))
         +:+ clause " OFFSET %d" (option_map fmt.OfInt (given o)))
    = Some (given l, s2)
    /\ sql.parse_count "OFFSET" s2 = Some (given o, EmptyString).
Proof.
  pose (q := newQueries EmptyString).
  unfold given.
  destruct (Z.eq_dec l 0) as [->|Hl]; destruct (Z.eq_dec o 0) as [->|Ho]; simpl option_map;
    unfold clause;
    rewrite ?(Sprintf_Limit q), ?(Sprintf_Offset q), ?append_nil, ?append_empty.
  - exists EmptyString. split; reflexivity.
  - exists (" OFFSET " +:+ fmt.itoa o). split; [reflexivity|].
    rewrite <- (append_empty (fmt.itoa o)). now apply parse_offset.
  - exists EmptyString. split; [|reflexivity].
    rewrite <- (append_empty (fmt.itoa l)). now apply parse_limit.
  - exists (" OFFSET " +:+ fmt.itoa o). split.
    + rewrite append_assoc. now apply parse_limit.
    + rewrite <- (append_empty (fmt.itoa o)). now apply parse_offset.
Qed.

(** They are empty or start with a blank, and hold no other clause. *)
Lemma window_clauses_head (l o : Z) :
  let W := clause " LIMIT %d" (option_map fmt.OfInt (given l))
             +:+ clause " OFFSET %d" (option_map fmt.OfInt (given o)) in
  (W = EmptyString \/ exists r, W = String " " r)
  /\ forall tbl, sql.parse_where tbl W = Some (None, W)
  /\ sql.parse_order W = Some (None, W).
Proof.
  pose (q := newQueries EmptyString).
  unfold given.
  destruct (Z.eq_dec l 0) as [->|Hl]; destruct (Z.eq_dec o 0) as [->|Ho]; simpl option_map;
    unfold clause;
    rewrite ?(Sprintf_Limit q), ?(Sprintf_Offset q), ?append_nil, ?append_empty;
    rewrite ?append_cons, ?append_nil;
    (split; [eauto|intros tbl; split; reflexivity]).
Qed.

Lemma parse_order_key (rest : string) :
  rest = EmptyString \/ (exists r, rest = String " " r) ->
  sql.parse_order (" ORDER BY key" +:+ rest) = Some (Some sql.ColKey, rest).
Proof.
  intros [->|[r ->]]; reflexivity.
Qed.

Lemma parse_where_like (tbl p rest : string) :
  quote_free p = true ->
  sql.parse_where tbl (" WHERE key LIKE '" +:+ p +:+ "%'" +:+ String " " rest)
  = Some (Some (sql.CSimple (sql.SLike (sql.OCol sql.ColKey) (p +:+ "%"))), String " " rest).
Proof.
  intros Hp. rewrite !append_cons, append_nil.
  unfold sql.parse_where. cbn.
  unfold sql.parse_cond, sql.parse_exists. cbn.
  unfold sql.parse_simple_cond, sql.parse_operand. cbn.
  rewrite append_nil. now rewrite (literal_pattern p rest Hp).
Qed.

(** The statement composed for a prefix without quote reads as the
    select it was meant to be. *)
Lemma composed_tail_parses (tbl p : string) (l o : Z) :
  quote_free p = true ->
  sql.parse_clauses tbl all_columns true
    (clause " WHERE key LIKE '%s%%' ORDER BY key" (option_map fmt.OfString (Some p))
       +:+ (clause " LIMIT %d" (option_map fmt.OfInt (given l))
       +:+ clause " OFFSET %d" (option_map fmt.OfInt (given o))))
  = Some (sel_Query (Some (p +:+ "%")) (given l) (given o), EmptyString).
Proof.
  intros Hp. unfold sql.parse_clauses.
  simpl option_map. unfold clause at 1.
  rewrite (Sprintf_Prefix (newQueries EmptyString)).
  destruct (window_clauses_head l o) as [Hhead _].
  destruct (window_clauses_parse l o) as (s2 & H1 & H2).
  set (W := clause " LIMIT %d" _ +:+ clause " OFFSET %d" _) in *.
  rewrite !append_assoc.
  change ("%' ORDER BY key" +:+ W) with ("%'" +:+ String " " ("ORDER BY key" +:+ W)).
  rewrite (parse_where_like tbl p _ Hp).
  change (String " " ("ORDER BY key" +:+ W)) with (" ORDER BY key" +:+ W).
  rewrite (parse_order_key W Hhead), H1, H2. reflexivity.
Qed.

Lemma bare_tail_parses (tbl : string) (l o : Z) :
  sql.parse_clauses tbl all_columns true
    (clause " LIMIT %d" (option_map fmt.OfInt (given l))
       +:+ clause " OFFSET %d" (option_map fmt.OfInt (given o)))
  = Some (sel_Query None (given l) (given o), EmptyString).
Proof.
  unfold sql.parse_clauses.
  destruct (window_clauses_head l o) as [_ Hnone].
  destruct (Hnone tbl) as [Hw Ho].
  destruct (window_clauses_parse l o) as (s2 & H1 & H2).
  rewrite Hw, Ho, H1, H2. reflexivity.
Qed.

(** *** The window *)

Lemma select_window (pat : option string) (l o : Z) (t : sql.table) :
  0 <= l -> 0 <= o ->
  option_map (map row_entry) (select_rows pat (given l) (given o) t)
  = Some (window l o
            (map row_entry
               match pat with
               | Some p => sql.order_by_key (List.filter (fun r => sql.like p (fst r)) t)
               | None => t
               end)).
Proof.
  intros Hl Ho. unfold select_rows, sql.slice, window, given.
  set (m := match pat with
            | Some p => sql.order_by_key (List.filter (fun r => sql.like p (fst r)) t)
            | None => t
            end).
  destruct (Z.eq_dec l 0) as [->|Hl0]; destruct (Z.eq_dec o 0) as [->|Ho0]; simpl.
  - reflexivity.
  - destruct (Z.ltb_spec o 0); [lia|]. destruct (Z.eqb_spec o 0); [lia|].
    simpl. now rewrite List.skipn_map.
  - destruct (Z.ltb_spec l 0); [lia|]. destruct (Z.eqb_spec l 0); [lia|].
    simpl. f_equal. symmetry. apply List.firstn_map.
  - destruct (Z.ltb_spec o 0); [lia|]. destruct (Z.ltb_spec l 0); [lia|].
    destruct (Z.eqb_spec o 0); [lia|]. destruct (Z.eqb_spec l 0); [lia|].
    simpl. now rewrite List.skipn_map, List.firstn_map.
Qed.

Lemma given_prefix_nonempty (p : string) (fs : list dsq.Filter) (os : list dsq.Order)
    (l o : Z) :
  Datastore.nonempty p = true -> given_prefix (dsq.MkQuery p fs os l o) = Some p.
Proof. unfold given_prefix. simpl. now destruct p. Qed.

(** The pushed-down query in terms of the pattern the server matches. *)
Lemma pushdown_query_like (w : sql.World) (p : string) (fs : list dsq.Filter)
    (os : list dsq.Order) (l o : Z) :
  proceeds 1 (sql.faults w) = true ->
  Datastore.nonempty p = true ->
  quote_free p = true ->
  0 <= l -> 0 <= o ->
  entries_of (Datastore.Query (store_of w) (dsq.MkQuery p fs os l o) w)
  = Some (client_side fs os (window l o (matching (p +:+ "%") (sql.rows w)))).
Proof.
  intros Hp Hne Hq Hl Ho.
  pose proof (select_window (Some (p +:+ "%")) l o (sql.rows w) Hl Ho) as Hsel.
  destruct (select_rows (Some (p +:+ "%")) (given l) (given o) (sql.rows w)) as [t|] eqn:E;
    [|discriminate].
  simpl in Hsel. injection Hsel as Hsel.
  destruct (DB_Query_select w _ _ _ _ t Hp (composed_tail_parses _ p l o Hq) E)
    as (w' & HQ & _).
  unfold entries_of, Datastore.Query, Datastore.RawQuery, bind.
  change (dsq.Prefix (dsq.MkQuery p fs os l o)) with p. rewrite Hne.
  rewrite QueryWithParams_statement. unfold compose.
  rewrite given_prefix_nonempty by exact Hne.
  cbn [dsq.Limit dsq.Offset store_of NewDatastore Datastore.queries queries.as_Queries
       Queries.Query Queries.Prefix Queries.Limit Queries.Offset].
  unfold queries.Prefix, queries.Limit, queries.Offset.
  rewrite HQ. rewrite scan_rows_table. simpl.
  unfold dsq.ResultsWithEntries. rewrite client_side_Rest. unfold matching.
  now rewrite Hsel.
Qed.

(** X12. Pushdown with a plain prefix, on a server that answers: the
    entries returned are those of the rows whose key starts with the
    prefix, sorted by key (bytewise, the order of PostgreSQL's C
    collation), cut to the window of the offset and the limit (zero
    meaning none), and only then passed through the filters and the
    orders of the descriptor. *)
Theorem pushdown_query_window (w : sql.World) (p : string) (fs : list dsq.Filter)
    (os : list dsq.Order) (l o : Z) :
  proceeds 1 (sql.faults w) = true ->
  Datastore.nonempty p = true ->
  plain p = true ->
  0 <= l -> 0 <= o ->
  entries_of (Datastore.Query (store_of w) (dsq.MkQuery p fs os l o) w)
  = Some (client_side fs os (window l o (with_prefix p (sql.rows w)))).
Proof.
  intros Hp Hne Hpl Hl Ho.
  rewrite (pushdown_query_like w p fs os l o Hp Hne (plain_quote_free p Hpl) Hl Ho).
  unfold matching, with_prefix.
  rewrite (List.filter_ext (fun r => sql.like (p +:+ "%") (fst r))
             (fun r => strings.HasPrefix (fst r) p));
    [reflexivity|intros r; now apply like_plain_prefix].
Qed.

Lemma pushdown_query_window_witness :
  let w := sql.MkWorld "kv"
             [("k/3", []); ("j/1", []); ("k/1", []); ("k/4", []); ("k/2", [])] [] [] [] in
  proceeds 1 (sql.faults w) = true
  /\ Datastore.nonempty "k/" = true
  /\ plain "k/" = true
  /\ 0 <= 2 /\ 0 <= 1
  /\ entries_of (Datastore.Query (store_of w) (dsq.MkQuery "k/" [] [] 2 1) w)
     = Some [dsq.MkEntry "k/2" (Some []); dsq.MkEntry "k/3" (Some [])].
Proof.
  repeat (split; [first [reflexivity | discriminate]|]).
  exact (pushdown_query_window
           (sql.MkWorld "kv"
              [("k/3", []); ("j/1", []); ("k/1", []); ("k/4", []); ("k/2", [])] [] [] [])
           "k/" [] [] 2 1 eq_refl eq_refl eq_refl ltac:(discriminate) ltac:(discriminate)).
Defined.

(** X14. The prefix is put into the [LIKE] pattern as it is: with a
    prefix free of single quotes the rows selected are those whose key
    matches the prefix followed by [%] as a pattern, so that a wildcard in
    the prefix acts as a wildcard. *)
Theorem prefix_is_a_LIKE_pattern (w : sql.World) (p : string) (fs : list dsq.Filter)
    (os : list dsq.Order) :
  proceeds 1 (sql.faults w) = true ->
  Datastore.nonempty p = true ->
  quote_free p = true ->
  entries_of (Datastore.Query (store_of w) (dsq.MkQuery p fs os 0 0) w)
  = Some (client_side fs os (matching (p +:+ "%") (sql.rows w)))
  /\ (p = "_" ->
      matching (p +:+ "%") (sql.rows w)
      = map row_entry
          (sql.order_by_key (List.filter (fun r => Datastore.nonempty (fst r)) (sql.rows w)))).
Proof.
  intros Hp Hne Hq. split.
  - now rewrite (pushdown_query_like w p fs os 0 0 Hp Hne Hq).
  - intros ->. unfold matching.
    rewrite (List.filter_ext (fun r => sql.like ("_" +:+ "%") (fst r))
               (fun r => Datastore.nonempty (fst r)));
      [reflexivity|intros r; apply like_underscore].
Qed.

Lemma prefix_is_a_LIKE_pattern_witness :
  let w := sql.MkWorld "kv" example_rows [] [] [] in
  proceeds 1 (sql.faults w) = true
  /\ Datastore.nonempty "_/" = true
  /\ quote_free "_/" = true
  /\ entries_of (Datastore.Query (store_of w) (dsq.MkQuery "_/" [] [] 0 0) w)
     = Some [entry "a/1" "v1"; entry "a/2" "v2"; entry "b/1" "v3"].
Proof.
  split; [reflexivity|]. split; [reflexivity|]. split; [reflexivity|].
  exact (proj1 (prefix_is_a_LIKE_pattern (sql.MkWorld "kv" example_rows [] [] [])
                  "_/" [] [] eq_refl eq_refl eq_refl)).
Defined.

(** X13. [QueryWithParams] called without a prefix still composes the
    limit and the offset: on a server that answers it returns the rows of
    the table, in the order the server scans them (the statement has no
    [ORDER BY]; the server here scans the table in the order it stores
    the rows), cut to the window. *)
Theorem QueryWithParams_without_prefix_windows (w : sql.World) (fs : list dsq.Filter)
    (os : list dsq.Order) (l o : Z) :
  proceeds 1 (sql.faults w) = true ->
  0 <= l -> 0 <= o ->
  exists rows w',
    Datastore.QueryWithParams (store_of w) (dsq.MkQuery EmptyString fs os l o) w
    = (Val (rows, None), w')
    /\ fst (Datastore.scan_rows rows [] w')
       = Val (window l o (map row_entry (sql.rows w))).
Proof.
  intros Hp Hl Ho.
  pose proof (select_window None l o (sql.rows w) Hl Ho) as Hsel.
  destruct (select_rows None (given l) (given o) (sql.rows w)) as [t|] eqn:E; [|discriminate].
  simpl in Hsel. injection Hsel as Hsel.
  destruct (DB_Query_select w _ _ _ _ t Hp (bare_tail_parses _ l o) E) as (w' & HQ & _).
  eexists _, w'. split.
  - rewrite QueryWithParams_statement. unfold compose, given_prefix.
    cbn [dsq.Prefix dsq.Limit dsq.Offset store_of NewDatastore Datastore.queries
         queries.as_Queries Queries.Query Queries.Prefix Queries.Limit Queries.Offset
         option_map].
    unfold clause at 1. rewrite append_nil.
    unfold queries.Limit, queries.Offset. exact HQ.
  - rewrite scan_rows_table. simpl. now rewrite Hsel.
Qed.

Lemma QueryWithParams_without_prefix_witness :
  let w := sql.MkWorld "kv" example_rows [] [] [] in
  proceeds 1 (sql.faults w) = true /\ 0 <= 1 /\ 0 <= 1
  /\ exists rows w',
       Datastore.QueryWithParams (store_of w) (dsq.MkQuery EmptyString [] [] 1 1) w
       = (Val (rows, None), w')
       /\ fst (Datastore.scan_rows rows [] w') = Val [entry "a/2" "v2"].
Proof.
  split; [reflexivity|]. split; [discriminate|]. split; [discriminate|].
  exact (QueryWithParams_without_prefix_windows (sql.MkWorld "kv" example_rows [] [] [])
           [] [] 1 1 eq_refl ltac:(discriminate) ltac:(discriminate)).
Defined.

Lemma DB_Query_refused (w : sql.World) (tail : string)
    (pat : option string) (lim off : option Z) :
  proceeds 1 (sql.faults w) = true ->
  sql.parse_clauses (sql.tbl_name w) all_columns true tail
  = Some (sel_Query pat lim off, EmptyString) ->
  select_rows pat lim off (sql.rows w) = None ->
  exists w',
    sql.DB_Query (queries.Query (newQueries (sql.tbl_name w)) +:+ tail) w
    = (Val ([], Some sql.rejected), w').
Proof.
  intros Hp Hparse Hsel. unfold sql.DB_Query, sql.next_outcome.
  destruct w as [tbl rows txs fs tr]; simpl in *.
  destruct fs as [|[| |] fs]; simpl in *; try discriminate;
    rewrite (run_select_Query _ _ _ _ _ _ Hparse), Hsel; simpl; eauto.
Qed.

(** X15. A negative limit with a prefix is composed into the statement
    and refused by the server: the query returns no results and the error
    of the backend, where the path without prefix ignores the limit. *)
Theorem negative_limit_is_refused (w : sql.World) (p : string) (fs : list dsq.Filter)
    (os : list dsq.Order) (l o : Z) :
  proceeds 1 (sql.faults w) = true ->
  Datastore.nonempty p = true ->
  quote_free p = true ->
  l < 0 ->
  fst (Datastore.Query (store_of w) (dsq.MkQuery p fs os l o) w)
  = Val (None, Some sql.rejected)
  /\ entries_of (Datastore.Query (store_of w) (dsq.MkQuery EmptyString fs os l o) w)
     = Some (client_side fs os (map row_entry (sql.rows w))).
Proof.
  intros Hp Hne Hq Hl. split.
  - assert (E : select_rows (Some (p +:+ "%")) (given l) (given o) (sql.rows w) = None).
    { unfold select_rows, sql.slice, given. destruct (Z.eq_dec l 0); [lia|].
      destruct (Z.ltb_spec l 0); [|lia].
      destruct (Z.eq_dec o 0); [reflexivity|]. now destruct (o <? 0). }
    unfold Datastore.Query, Datastore.RawQuery, bind.
    change (dsq.Prefix (dsq.MkQuery p fs os l o)) with p. rewrite Hne.
    rewrite QueryWithParams_statement. unfold compose.
    rewrite given_prefix_nonempty by exact Hne.
    cbn [dsq.Limit dsq.Offset store_of NewDatastore Datastore.queries queries.as_Queries
         Queries.Query Queries.Prefix Queries.Limit Queries.Offset].
    unfold queries.Prefix, queries.Limit, queries.Offset.
    destruct (DB_Query_refused w _ _ _ _ Hp (composed_tail_parses _ p l o Hq) E) as (w' & HQ).
    rewrite HQ. reflexivity.
  - now apply Query_full_scan.
Qed.

Lemma negative_limit_witness :
  let w := sql.MkWorld "kv" example_rows [] [] [] in
  proceeds 1 (sql.faults w) = true
  /\ Datastore.nonempty "a/" = true
  /\ quote_free "a/" = true
  /\ -1 < 0
  /\ fst (Datastore.Query (store_of w) (dsq.MkQuery "a/" [] [] (-1) 0) w)
     = Val (None, Some sql.rejected)
  /\ entries_of (Datastore.Query (store_of w) (dsq.MkQuery EmptyString [] [] (-1) 0) w)
     = Some [entry "a/1" "v1"; entry "a/2" "v2"; entry "b/1" "v3"].
Proof.
  split; [reflexivity|]. split; [reflexivity|]. split; [reflexivity|].
  split; [reflexivity|].
  exact (negative_limit_is_refused (sql.MkWorld "kv" example_rows [] [] [])
           "a/" [] [] (-1) 0 eq_refl eq_refl eq_refl eq_refl).
Defined.

(** ** What the reads leave alone *)

Lemma DB_QueryRow_keeps (stmt : string) (args : list sql.arg) (w : sql.World) :
  (forall t t' r, sql.run_read (sql.tbl_name w) stmt args t = Some (t', r) -> t' = t) ->
  sql.rows (snd (sql.DB_QueryRow stmt args w)) = sql.rows w
  /\ sql.txs (snd (sql.DB_QueryRow stmt args w)) = sql.txs w.
Proof.
  intros H. unfold sql.DB_QueryRow, sql.next_outcome. simpl.
  destruct (sql.faults w) as [|[| |] fs]; simpl; auto;
    destruct (sql.run_read _ _ _ _) as [[t r]|] eqn:E; simpl; auto;
    now rewrite (H _ _ _ E).
Qed.

Lemma DB_Query_keeps (stmt : string) (w : sql.World) :
  (forall t t' rs, sql.run_select (sql.tbl_name w) stmt t = Some (t', rs) -> t' = t) ->
  sql.rows (snd (sql.DB_Query stmt w)) = sql.rows w
  /\ sql.txs (snd (sql.DB_Query stmt w)) = sql.txs w.
Proof.
  intros H. unfold sql.DB_Query, sql.next_outcome. simpl.
  destruct (sql.faults w) as [|[| |] fs]; simpl; auto;
    destruct (sql.run_select _ _ _) as [[t rs]|] eqn:E; simpl; auto;
    now rewrite (H _ _ _ E).
Qed.

Lemma run_select_Query_keeps (tbl tail : string) (pat : option string)
    (lim off : option Z) (t t' : sql.table) (rs : list sql.row) :
  sql.parse_clauses tbl all_columns true tail = Some (sel_Query pat lim off, EmptyString) ->
  sql.run_select tbl (queries.Query (newQueries tbl) +:+ tail) t = Some (t', rs) -> t' = t.
Proof.
  intros Hparse. rewrite (run_select_Query _ _ _ _ _ _ Hparse).
  destruct (select_rows pat lim off t); simpl; [|discriminate]. now intros [= <- _].
Qed.

(** X5. The reads of the PostgreSQL provider are read-only, whatever
    the server does: [Get], [Has] and [GetSize] for every key, which
    they pass as a parameter, and [Query] for every descriptor whose
    prefix holds no single quote, leave every row and every
    transaction as they were. *)
Theorem reads_change_nothing (w : sql.World) (key : Key) (q : dsq.Query) :
  quote_free (dsq.Prefix q) = true ->
  let unchanged w' := sql.rows w' = sql.rows w /\ sql.txs w' = sql.txs w in
  unchanged (snd (Datastore.Get (store_of w) key w))
  /\ unchanged (snd (Datastore.Has (store_of w) key w))
  /\ unchanged (snd (Datastore.GetSize (store_of w) key w))
  /\ unchanged (snd (Datastore.Query (store_of w) q w)).
Proof.
  intros Hq unchanged. subst unchanged. cbv beta.
  assert (HGet : forall t t' r,
             sql.run_read (sql.tbl_name w) (Queries.Get (Datastore.queries (store_of w)))
               [sql.Text (Key_String key)] t = Some (t', r) -> t' = t)
    by (intros t t' r; simpl; rewrite run_read_Get; now intros [= <- _]).
  assert (HHas : forall t t' r,
             sql.run_read (sql.tbl_name w) (Queries.Exists (Datastore.queries (store_of w)))
               [sql.Text (Key_String key)] t = Some (t', r) -> t' = t)
    by (intros t t' r; simpl; rewrite run_read_Exists; now intros [= <- _]).
  assert (HSize : forall t t' r,
             sql.run_read (sql.tbl_name w) (Queries.GetSize (Datastore.queries (store_of w)))
               [sql.Text (Key_String key)] t = Some (t', r) -> t' = t)
    by (intros t t' r; simpl; rewrite run_read_GetSize; now intros [= <- _]).
  split; [|split; [|split]].
  - unfold Datastore.Get, bind.
    destruct (DB_QueryRow_keeps _ _ w HGet) as [Hr Ht].
    destruct (sql.DB_QueryRow _ _ w) as [[r|p|c] w1]; simpl in *; auto.
    destruct (sql.Scan sql.to_bytes None r) as [x [[]|]]; simpl; auto.
  - unfold Datastore.Has, bind.
    destruct (DB_QueryRow_keeps _ _ w HHas) as [Hr Ht].
    destruct (sql.DB_QueryRow _ _ w) as [[r|p|c] w1]; simpl in *; auto.
    destruct (sql.Scan sql.to_bool false r) as [x [[]|]]; simpl; auto.
  - unfold Datastore.GetSize, bind.
    destruct (DB_QueryRow_keeps _ _ w HSize) as [Hr Ht].
    destruct (sql.DB_QueryRow _ _ w) as [[r|p|c] w1]; simpl in *; auto.
    destruct (sql.Scan sql.to_int 0 r) as [x [[]|]]; simpl; auto.
  - destruct q as [p fs os l o]. simpl in Hq.
    unfold Datastore.Query, Datastore.RawQuery, bind.
    change (dsq.Prefix (dsq.MkQuery p fs os l o)) with p.
    set (m := if Datastore.nonempty p then _ else _).
    assert (Hk : sql.rows (snd (m w)) = sql.rows w /\ sql.txs (snd (m w)) = sql.txs w).
    { subst m. destruct (Datastore.nonempty p) eqn:Hne.
      - rewrite QueryWithParams_statement. unfold compose.
        rewrite given_prefix_nonempty by exact Hne.
        cbn [dsq.Limit dsq.Offset store_of NewDatastore Datastore.queries
             queries.as_Queries Queries.Query Queries.Prefix Queries.Limit Queries.Offset].
        unfold queries.Prefix, queries.Limit, queries.Offset.
        apply DB_Query_keeps. intros t t' rs.
        apply (run_select_Query_keeps _ _ _ _ _ _ _ _ (composed_tail_parses _ p l o Hq)).
      - cbn [store_of NewDatastore Datastore.queries queries.as_Queries Queries.Query].
        apply DB_Query_keeps. intros t t' rs.
        rewrite <- (append_empty (queries.Query _)).
        now apply (run_select_Query_keeps _ _ None None None). }
    destruct Hk as [Hr Ht].
    destruct (m w) as [[[rows [e|]]|v|c] w1]; simpl in *; auto.
    unfold ret.
    pose proof (scan_rows_pure rows [] w1) as Hs.
    destruct (Datastore.scan_rows rows [] w1) as [[es|v|c] w2]; simpl in *;
      subst w2; auto.
Qed.

Lemma reads_change_nothing_witness :
  let w := sql.MkWorld "kv" example_rows [sql.MkTx false []] [sql.Proceed] [] in
  let q := dsq.MkQuery "a_%" [] [] 1 (-2) in
  quote_free (dsq.Prefix q) = true
  /\ sql.rows (snd (Datastore.Get (store_of w) (RawKey "it's") w)) = example_rows
  /\ sql.rows (snd (Datastore.Query (store_of w) q w)) = example_rows.
Proof.
  pose (w := sql.MkWorld "kv" example_rows [sql.MkTx false []] [sql.Proceed] []).
  pose (q := dsq.MkQuery "a_%" [] [] 1 (-2)).
  destruct (reads_change_nothing w (RawKey "it's") q eq_refl)
    as ([HG _] & _ & _ & [HQ _]).
  split; [reflexivity|]. split; [exact HG|exact HQ].
Defined.

(** ** A quote in the prefix *)

Lemma parse_script_step (tbl : string) (n : nat) (s : string) :
  sql.parse_script tbl (S n) s
  = match sql.parse_statement tbl s with
    | Some (st, r) =>
        if sql.at_end r then Some [st]
        else
          match sql.strip ";" (sql.spaces r) with
          | Some r' =>
              if sql.at_end r' then Some [st]
              else match sql.parse_script tbl n r' with
                   | Some l => Some (st :: l)
                   | None => None
                   end
          | None => None
          end
    | None => None
    end.
Proof. reflexivity. Qed.

(** The text composed for a prefix that closes the literal and goes on
    with a delete reads as two statements. *)
Lemma parse_injected (tbl : string) :
  sql.parse tbl
    (queries.Query (newQueries tbl)
       +:+ " WHERE key LIKE '" +:+ ("x'; DELETE FROM " +:+ tbl +:+ "; --") +:+ "%' ORDER BY key")
  = Some [sql.StSelect
            (sql.MkSelect all_columns true
               (Some (sql.CSimple (sql.SLike (sql.OCol sql.ColKey) "x"))) None None None);
          sql.StDelete None].
Proof.
  unfold sql.parse, sql.width. rewrite parse_script_step, parse_select.
  rewrite !append_assoc. rewrite ?append_cons, ?append_nil.
  unfold sql.parse_clauses, sql.parse_where. cbn.
  unfold sql.parse_cond, sql.parse_exists. cbn.
  unfold sql.parse_simple_cond, sql.parse_operand. cbn.
  rewrite parse_script_step.
  unfold sql.parse_statement, sql.parse_delete, sql.parse_from. cbn.
  rewrite strip_app. reflexivity.
Qed.

Lemma filter_none {A : Type} (l : list A) : List.filter (fun _ => false) l = [].
Proof. induction l as [|a l IH]; [reflexivity|exact IH]. Qed.

(** X18. The prefix is pasted into the statement as it is: a single
    quote in it closes the literal, and what follows is run by the
    server as SQL.  With the prefix [x'; DELETE FROM t; --] a query on
    a server that answers leaves the table [t] empty, whatever it held. *)
Theorem quote_in_prefix_is_run (w : sql.World) (fs : list dsq.Filter) (os : list dsq.Order) :
  proceeds 1 (sql.faults w) = true ->
  let p := "x'; DELETE FROM " +:+ sql.tbl_name w +:+ "; --" in
  quote_free p = false
  /\ sql.rows (snd (Datastore.Query (store_of w) (dsq.MkQuery p fs os 0 0) w)) = [].
Proof.
  intros Hp p. split; [reflexivity|].
  assert (Hrun : sql.run_select (sql.tbl_name w)
                   (queries.Query (newQueries (sql.tbl_name w))
                      +:+ " WHERE key LIKE '" +:+ p +:+ "%' ORDER BY key") (sql.rows w)
                 = Some ([], map cells (List.filter (fun r => sql.like "x" (fst r))
                                          (sql.rows w)))).
  { unfold sql.run_select, sql.run. subst p. rewrite parse_injected.
    unfold sql.exec_all, sql.exec, sql.eval_selection.
    cbn [sql.sel_from sql.sel_where sql.sel_order sql.sel_limit sql.sel_offset
         sql.sel_items sql.slice].
    rewrite (keep_total _ (fun r => sql.like "x" (fst r))) by reflexivity.
    rewrite (traverse_total _ cells) by reflexivity.
    rewrite (keep_total _ (fun _ => true)) by reflexivity.
    rewrite (keep_total _ (fun _ => false)) by reflexivity.
    now rewrite filter_none. }
  unfold Datastore.Query, Datastore.RawQuery, bind.
  change (dsq.Prefix (dsq.MkQuery p fs os 0 0)) with p.
  change (Datastore.nonempty p) with true. cbv iota.
  rewrite QueryWithParams_statement. unfold compose.
  rewrite given_prefix_nonempty by reflexivity.
  cbn [dsq.Limit dsq.Offset store_of NewDatastore Datastore.queries queries.as_Queries
       Queries.Query Queries.Prefix Queries.Limit Queries.Offset given option_map clause].
  rewrite Sprintf_Prefix.
  change (given 0) with (@None Z). cbn [option_map clause].
  rewrite !append_empty.
  unfold sql.DB_Query, sql.next_outcome.
  destruct w as [tbl rows txs fs0 tr]; simpl in Hp, Hrun |- *.
  destruct fs0 as [|[| |] fs0]; simpl in Hp |- *; try discriminate;
    rewrite Hrun; simpl; rewrite scan_rows_table; reflexivity.
Qed.

Lemma quote_in_prefix_witness :
  let w := sql.MkWorld "kv" example_rows [] [] [] in
  proceeds 1 (sql.faults w) = true
  /\ sql.rows (snd (Datastore.Query (store_of w)
                      (dsq.MkQuery "x'; DELETE FROM kv; --" [] [] 0 0) w)) = [].
Proof.
  split; [reflexivity|].
  exact (proj2 (quote_in_prefix_is_run (sql.MkWorld "kv" example_rows [] [] []) [] []
                  eq_refl)).
Defined.

(** ** More on the batch and the facade *)

(** X16. When the transaction cannot be begun, a put or a delete of a
    batch returns the error of the backend after that one call: no
    statement is executed, nothing is rolled back, and the batch is left
    without transaction, so that its next operation begins one again. *)
Theorem failed_Begin_leaves_batch_unopened (b : batch.t) (key : Key) (v : bytes)
    (msg : string) (fs : list sql.outcome) (w : sql.World) :
  batch.txn b = None ->
  sql.faults w = sql.Fail msg :: fs ->
  let w' := sql.MkWorld (sql.tbl_name w) (sql.rows w) (sql.txs w) fs
              (sql.trace w ++ [sql.CallBegin]) in
  batch.Put key (Some v) (b, w) = (Val (Some (ErrBackend msg)), (b, w'))
  /\ batch.Delete key (b, w) = (Val (Some (ErrBackend msg)), (b, w')).
Proof.
  intros Hb Hf w'. subst w'.
  destruct w as [tbl t txs fs' tr]; simpl in Hf; subst fs'.
  split; run; rewrite Hb; run; unfold sql.DB_Begin, sql.next_outcome; simpl;
    run; now rewrite Hb.
Qed.

Lemma failed_Begin_witness :
  let w := sql.MkWorld "kv" example_rows [] [sql.Fail "too many connections"] [] in
  let b := fst (Datastore.Batch (store_of w)) in
  batch.txn b = None
  /\ sql.faults w = [sql.Fail "too many connections"]
  /\ fst (batch.Put (RawKey "c") (Some []) (b, w))
     = Val (Some (ErrBackend "too many connections"))
  /\ fst (invoke (OpPut (RawKey "c") (Some [])) (snd (batch.Put (RawKey "c") (Some []) (b, w))))
     = Val None.
Proof.
  pose (w := sql.MkWorld "kv" example_rows [] [sql.Fail "too many connections"] []).
  pose (b := fst (Datastore.Batch (store_of w))).
  destruct (failed_Begin_leaves_batch_unopened b (RawKey "c") [] "too many connections" []
              w eq_refl eq_refl) as [HP _].
  split; [reflexivity|]. split; [reflexivity|].
  split; [exact (f_equal fst HP)|reflexivity].
Defined.

Lemma Delete_answered_state (w : sql.World) (key : Key) :
  proceeds 1 (sql.faults w) = true ->
  exists r w',
    Datastore.Delete (store_of w) key w = (Val r, w')
    /\ sql.tbl_name w' = sql.tbl_name w
    /\ sql.faults w' = tl (sql.faults w)
    /\ sql.rows w' = fst (sql.delete_key (Key_String key) (sql.rows w)).
Proof.
  unfold Datastore.Delete, bind, sql.DB_Exec, store_of. simpl.
  destruct w as [tbl t txs fs tr]; simpl.
  unfold sql.next_outcome; simpl.
  destruct fs as [|[| |] fs]; simpl; try discriminate; intros _;
    rewrite run_write_Delete; unfold sql.RowsAffected; simpl;
    destruct (_ =? 0); eexists _, _; repeat split.
Qed.

(** X17. Since a put never overwrites, a value is replaced by deleting
    the key first: on a server that answers, [Delete] followed by [Put]
    of [v] makes [Get] return [v], whatever the key held before. *)
Theorem delete_then_put_replaces (w : sql.World) (key : Key) (v : bytes) :
  proceeds 3 (sql.faults w) = true ->
  exists r w1 w2 w3,
    Datastore.Delete (store_of w) key w = (Val r, w1)
    /\ Datastore.Put (store_of w) key (Some v) w1 = (Val None, w2)
    /\ Datastore.Get (store_of w) key w2 = (Val (Some v, None), w3).
Proof.
  intros Hp.
  destruct (Delete_answered_state w key (proceeds_one _ _ Hp))
    as (r & w1 & HD & Ht1 & Hf1 & Hr1).
  assert (Hp1 : proceeds 2 (sql.faults w1) = true) by (rewrite Hf1; now apply proceeds_tl).
  destruct (Put_answered w1 key (proceeds_one _ _ Hp1) v) as (w2 & HP & Ht2 & Hf2 & Hr2).
  assert (Hp2 : proceeds 1 (sql.faults w2) = true) by (rewrite Hf2; now apply proceeds_tl).
  destruct (Get_answered w2 key Hp2) as (w3 & HG & _).
  rewrite (store_of_table w w1 Ht1) in HP.
  rewrite (store_of_table w w2) in HG by congruence.
  exists r, w1, w2, w3. split; [exact HD|]. split; [exact HP|].
  rewrite HG. do 2 f_equal.
  rewrite Hr2, Hr1. unfold sql.insert_if_absent.
  rewrite lookup_delete_same. simpl.
  now rewrite lookup_app_absent by apply lookup_delete_same.
Qed.

Lemma delete_then_put_witness :
  let w := sql.MkWorld "kv" example_rows [] [] [] in
  proceeds 3 (sql.faults w) = true
  /\ exists r w1 w2 w3,
       Datastore.Delete (store_of w) (RawKey "a/1") w = (Val r, w1)
       /\ Datastore.Put (store_of w) (RawKey "a/1") (Some (list_byte_of_string "new")) w1
          = (Val None, w2)
       /\ Datastore.Get (store_of w) (RawKey "a/1") w2
          = (Val (Some (list_byte_of_string "new"), None), w3).
Proof.
  split; [reflexivity|].
  exact (delete_then_put_replaces (sql.MkWorld "kv" example_rows [] [] [])
           (RawKey "a/1") (list_byte_of_string "new") eq_refl).
Defined.
